(** * pvxs: typed value codec and server spine

    A shallow embedding of [src/dataencode.cpp] (type and value codec) and of
    [src/server.cpp] (configuration, Source registry, search replies and
    beacons), with the properties the specification states about them.

    Conventions.
    - Bytes are [Byte.byte]; wire integers are [N] (unsigned) or [Z] (signed,
      with the wrap-around of the C++ conversions written out).
    - Positions in a [std::vector] are [nat]; a vector is a [list].
    - [std::map] is stdpp's [gmap].
    - A C++ reference parameter that is mutated is returned as part of the
      result.
    - Undefined behaviour (an index past the end of a vector), a failed
      [assert], a thrown exception and the death of the process are explicit
      results of type [Res]. *)

From Stdlib Require Import ZArith NArith Lia.
From Stdlib Require Import Strings.String Strings.Ascii Strings.Byte.
From Stdlib Require Import Floats.SpecFloat.
From stdpp Require Import base option list gmap strings sorting.

Open Scope N_scope.
Open Scope nat_scope.

Global Instance byte_eq_decision : EqDecision byte := Byte.byte_eq_dec.

(** ** Results of partial computations *)

Inductive Error : Type :=
| AssertFailed            (* an [assert] whose condition is false *)
| LogicError (msg : string) (* a thrown [std::logic_error] *)
| RuntimeError (msg : string) (* a thrown [std::runtime_error] *)
| OutOfBounds             (* a read or write past the end of a vector *)
| LengthError             (* a thrown [std::length_error] *)
| BadAlloc                (* a thrown [std::bad_alloc] *)
| StackExhausted          (* the process is killed: the stack is used up *)
| OutOfFuel.              (* the recursion budget of the model ran out *)

Inductive Res (A : Type) : Type :=
| Ok (a : A)
| Err (e : Error).
Arguments Ok {A} a.
Arguments Err {A} e.

Global Instance Res_ret : MRet Res := fun A a => Ok a.
Global Instance Res_bind : MBind Res := fun A B f m =>
  match m with
  | Ok a => f a
  | Err e => Err e
  end.

Definition at_index {A} (l : list A) (i : nat) : Res A :=
  match l !! i with
  | Some a => Ok a
  | None => Err OutOfBounds
  end.

(** Whether [assert] is compiled out. *)
Class BuildMode : Type := NDEBUG : bool.

(** [assert(c)]. *)
Definition assert_ `{BM : BuildMode} (c : bool) : Res unit :=
  if NDEBUG || c then Ok () else Err AssertFailed.

(** ** Buffer and the primitive encodings

    Modelled from the spec: [Buffer] and the primitive [to_wire]/[from_wire]
    overloads are declared in [pvaproto.h], which is not among the sources.
    The definitions of this module follow section 4.1 of the specification: a
    cursor over a byte region with a sticky fault flag; once the flag is set a
    primitive does nothing. *)
Module Wire.

Record Buffer : Type := mkBuffer {
  be : bool;            (* byte order of fixed-width integers *)
  data : list byte;     (* the byte region *)
  pos : nat;            (* the cursor *)
  faulted : bool        (* the sticky fault flag *)
}.

Definition good (b : Buffer) : bool := negb (faulted b).

Definition fault (b : Buffer) : Buffer :=
  {| be := be b; data := data b; pos := pos b; faulted := true |}.

(** [ensure n b]: [n] more bytes lie between the cursor and the end. *)
Definition ensure (n : nat) (b : Buffer) : bool :=
  Nat.leb (pos b + n) (length (data b)).

(** The cursor moved [n] bytes forward in a buffer that is good. *)
Definition advance (n : nat) (b : Buffer) : Buffer :=
  {| be := be b; data := data b; pos := pos b + n; faulted := false |}.

Definition skip (n : nat) (b : Buffer) : Buffer :=
  if faulted b then b
  else if ensure n b then advance n b else fault b.

(** Raw write of [bs] at the cursor. *)
Definition put (bs : list byte) (b : Buffer) : Buffer :=
  if faulted b then b
  else if ensure (length bs) b
       then {| be := be b;
               data := take (pos b) (data b) ++ bs
                         ++ drop (pos b + length bs) (data b);
               pos := pos b + length bs;
               faulted := false |}
       else fault b.

(** Raw read of [n] bytes at the cursor; [None] when the buffer is faulted
    or too short (and then the fault flag is set). *)
Definition get (n : nat) (b : Buffer) : Buffer * option (list byte) :=
  if faulted b then (b, None)
  else if ensure n b
       then (advance n b, Some (take n (drop (pos b) (data b))))
       else (fault b, None).

Definition byte_of_N (n : N) : byte :=
  match Byte.of_N (n mod 256)%N with
  | Some b => b
  | None => x00
  end.

(** Little-endian digits of [v], [w] of them. *)
Fixpoint le_bytes (w : nat) (v : N) : list byte :=
  match w with
  | O => []
  | S w' => byte_of_N v :: le_bytes w' (v / 256)%N
  end.

Fixpoint le_value (bs : list byte) : N :=
  match bs with
  | [] => 0%N
  | b :: bs' => (Byte.to_N b + 256 * le_value bs')%N
  end.

Definition int_bytes (big : bool) (w : nat) (v : N) : list byte :=
  if big then rev (le_bytes w v) else le_bytes w v.

Definition int_value (big : bool) (bs : list byte) : N :=
  if big then le_value (rev bs) else le_value bs.

(** [to_wire] of a [w]-byte unsigned integer (the value is reduced modulo
    [2^(8w)], as the C++ conversion to the fixed-width type does). *)
Definition to_wire_uint (w : nat) (v : N) (b : Buffer) : Buffer :=
  put (int_bytes (be b) w v) b.

(** [from_wire] of a [w]-byte unsigned integer into a variable that holds
    [dflt]: the variable keeps its value when the read fails. *)
Definition from_wire_uint (w : nat) (dflt : N) (b : Buffer) : Buffer * N :=
  match get w b with
  | (b', Some bs) => (b', int_value (be b) bs)
  | (b', None) => (b', dflt)
  end.

(** [size_t(-1)], the null sentinel of a [Size]. *)
Definition size_null : N := (2 ^ 64 - 1)%N.

(** [Size]: one byte below 254; [0xFF] for the null sentinel; otherwise
    [0xFE] and a 32-bit count, or [0xFE], the 32-bit value [0x7FFFFFFF] and
    a 64-bit count for sizes that do not fit. *)
Definition to_wire_Size (n : N) (b : Buffer) : Buffer :=
  if (n <? 254)%N then to_wire_uint 1 n b
  else if (n =? size_null)%N then to_wire_uint 1 255 b
  else if (n <? 0x7fffffff)%N then to_wire_uint 4 n (to_wire_uint 1 254 b)
  else to_wire_uint 8 n (to_wire_uint 4 0x7fffffff (to_wire_uint 1 254 b)).

Definition from_wire_Size (dflt : N) (b : Buffer) : Buffer * N :=
  match get 1 b with
  | (b1, Some bs) =>
      let s := int_value (be b) bs in
      if (s <? 254)%N then (b1, s)
      else if (s =? 255)%N then (b1, size_null)
      else
        match get 4 b1 with
        | (b2, Some bs4) =>
            let n := int_value (be b) bs4 in
            if (n <? 0x7fffffff)%N then (b2, n)
            else
              match get 8 b2 with
              | (b3, Some bs8) => (b3, int_value (be b) bs8)
              | (b3, None) => (b3, dflt)
              end
        | (b2, None) => (b2, dflt)
        end
  | (b1, None) => (b1, dflt)
  end.

(** Strings: a [Size] and the raw bytes. *)
Definition to_wire_string (s : string) (b : Buffer) : Buffer :=
  let bs := list_byte_of_string s in
  put bs (to_wire_Size (N.of_nat (length bs)) b).

Definition from_wire_string (dflt : string) (b : Buffer) : Buffer * string :=
  let '(b1, n) := from_wire_Size 0 b in
  if faulted b1 then (b1, dflt)
  else if (n =? size_null)%N then (fault b1, dflt)
  else
    match get (N.to_nat n) b1 with
    | (b2, Some bs) => (b2, string_of_list_byte bs)
    | (b2, None) => (b2, dflt)
    end.

(** A buffer over a fresh region of [n] zero bytes (an output vector). *)
Definition out_buffer (big : bool) (n : nat) : Buffer :=
  {| be := big; data := replicate n x00; pos := 0; faulted := false |}.

(** A buffer positioned at the start of received bytes. *)
Definition in_buffer (big : bool) (bs : list byte) : Buffer :=
  {| be := big; data := bs; pos := 0; faulted := false |}.

(** The bytes written so far. *)
Definition written (b : Buffer) : list byte := take (pos b) (data b).

(** [Wrote n w b]: [b] is a good big-endian buffer over [n] bytes, and the
    bytes before its cursor are [w]. *)
Definition Wrote (n : nat) (w : list byte) (b : Buffer) : Prop :=
  be b = true ∧ faulted b = false ∧ length (data b) = n
  ∧ pos b = length w ∧ written b = w.

End Wire.

(** ** Requests for memory

    [std::vector::reserve(n)] throws [std::length_error] when [n] is above
    [max_size()], and [new E[n]] throws [std::bad_array_new_length], which
    is a [std::bad_alloc], when [n] elements cannot be addressed. Both bounds
    depend on the implementation and on the element type, and both are below
    [size_t(-1)]. The model takes the largest value they can have: a request
    is refused for the count [size_t(-1)], which is what the [Size] byte
    [0xFF] gives, and for no other count. A request that is refused because
    the memory is used up is not modelled. *)
Definition max_size : N := (Wire.size_null - 1)%N.

(** [v.reserve(n)]. *)
Definition reserve (n : N) : Res unit :=
  if (max_size <? n)%N then Err LengthError else Ok ().

(** [shared_array<E> arr(n)], which is [new E[n]]. *)
Definition new_array (n : N) : Res unit :=
  if (max_size <? n)%N then Err BadAlloc else Ok ().

(** ** Type codes

    Modelled from the spec: [TypeCode] is declared in [pvxs/data.h], which is
    not among the sources. Section 3.1 of the specification names the codes;
    the numeric values are those of the PVA wire protocol, where bit [0x08]
    marks a variable-length array, bit [0x10] a fixed-length one, and
    [0xFD], [0xFE], [0xFF] are the tags of the type stream. *)
Module TypeCode.

Definition Bool : N := 0x00%N.
Definition Int8 : N := 0x20%N.
Definition Int16 : N := 0x21%N.
Definition Int32 : N := 0x22%N.
Definition Int64 : N := 0x23%N.
Definition UInt8 : N := 0x24%N.
Definition UInt16 : N := 0x25%N.
Definition UInt32 : N := 0x26%N.
Definition UInt64 : N := 0x27%N.
Definition Float32 : N := 0x42%N.
Definition Float64 : N := 0x43%N.
Definition String : N := 0x60%N.
Definition Struct : N := 0x80%N.
Definition Union : N := 0x81%N.
Definition Any : N := 0x82%N.

Definition BoolA : N := 0x08%N.
Definition Int8A : N := 0x28%N.
Definition Int16A : N := 0x29%N.
Definition Int32A : N := 0x2a%N.
Definition Int64A : N := 0x2b%N.
Definition UInt8A : N := 0x2c%N.
Definition UInt16A : N := 0x2d%N.
Definition UInt32A : N := 0x2e%N.
Definition UInt64A : N := 0x2f%N.
Definition Float32A : N := 0x4a%N.
Definition Float64A : N := 0x4b%N.
Definition StringA : N := 0x68%N.
Definition StructA : N := 0x88%N.
Definition UnionA : N := 0x89%N.
Definition AnyA : N := 0x8a%N.

Definition Null : N := 0xff%N.

(** [scalarOf]: the element code of an array code, the identity on the
    others ([code & ~0x08]). *)
Definition scalarOf (c : N) : N := N.land c 0xf7%N.

(** The codes whose description is a single node (the inner [switch] of the
    type decoder). *)
Definition is_simple_scalar (c : N) : bool :=
  bool_decide (c ∈ [Bool; Int8; Int16; Int32; Int64; UInt8; UInt16; UInt32;
                    UInt64; Float32; Float64; String; Any]).

(** The array-of-scalar codes other than [BoolA] and [StringA]. *)
Definition numeric_array_codes : list N :=
  [Int8A; Int16A; Int32A; Int64A; UInt8A; UInt16A; UInt32A; UInt64A;
   Float32A; Float64A].

End TypeCode.

(** ** FieldDesc

    Modelled from the spec: [FieldDesc] is declared in [dataimpl.h], which is
    not among the sources; the fields are those of section 3.2 of the
    specification and those the code reads and writes. *)
Record FieldDesc : Type := mkFieldDesc {
  id : string;
  mlookup : gmap string nat;
  miter : list (string * nat);
  hash : N;
  offset : nat;
  next_offset : nat;
  num_index : nat;
  code : N
}.

(** A value-initialised node, as [emplace_back()] makes it. *)
Definition FieldDesc_new : FieldDesc :=
  {| id := ""; mlookup := ∅; miter := []; hash := 0%N;
     offset := 0; next_offset := 0; num_index := 0; code := TypeCode.Null |}.

Definition set_code (c : N) (d : FieldDesc) : FieldDesc :=
  {| id := id d; mlookup := mlookup d; miter := miter d; hash := hash d;
     offset := offset d; next_offset := next_offset d;
     num_index := num_index d; code := c |}.
Definition set_hash (h : N) (d : FieldDesc) : FieldDesc :=
  {| id := id d; mlookup := mlookup d; miter := miter d; hash := h;
     offset := offset d; next_offset := next_offset d;
     num_index := num_index d; code := code d |}.
Definition set_id (s : string) (d : FieldDesc) : FieldDesc :=
  {| id := s; mlookup := mlookup d; miter := miter d; hash := hash d;
     offset := offset d; next_offset := next_offset d;
     num_index := num_index d; code := code d |}.
Definition set_miter (m : list (string * nat)) (d : FieldDesc) : FieldDesc :=
  {| id := id d; mlookup := mlookup d; miter := m; hash := hash d;
     offset := offset d; next_offset := next_offset d;
     num_index := num_index d; code := code d |}.
Definition set_mlookup (m : gmap string nat) (d : FieldDesc) : FieldDesc :=
  {| id := id d; mlookup := m; miter := miter d; hash := hash d;
     offset := offset d; next_offset := next_offset d;
     num_index := num_index d; code := code d |}.
Definition set_num_index (n : nat) (d : FieldDesc) : FieldDesc :=
  {| id := id d; mlookup := mlookup d; miter := miter d; hash := hash d;
     offset := offset d; next_offset := next_offset d;
     num_index := n; code := code d |}.

(** [std::hash<std::string>] is implementation-defined: it is a parameter of
    the development. *)
Class StdHash : Type := std_hash : string → N.

(** The introspection cache of a connection. *)
Abbreviation TypeStore := (gmap N (list FieldDesc)).

(** ** Type codec ([to_wire] and [from_wire] over [FieldDesc]) *)
Module TypeCodec.
Import Wire.

(** The destination vector and the cache, both held by reference. *)
Record TypeDeserContext : Type := mkCtxt {
  descs : list FieldDesc;
  cache : TypeStore
}.

(** [to_wire(buf, cur)], lines 30-54. [cur] is a position in [ds]; the
    recursion follows relative indices, so the model carries a budget. *)
Fixpoint to_wire (fuel : nat) (buf : Buffer) (ds : list FieldDesc) (cur : nat)
  : Res Buffer :=
  match fuel with
  | O => Err OutOfFuel
  | S fuel' =>
      d ← at_index ds cur;
      let buf := to_wire_uint 1 (code d) buf in
      if bool_decide (code d = TypeCode.StructA ∨ code d = TypeCode.UnionA)
      then to_wire fuel' buf ds (cur + 1)
      else if bool_decide (code d = TypeCode.Struct ∨ code d = TypeCode.Union)
      then
        let buf := to_wire_string (id d) buf in
        let buf := to_wire_Size (N.of_nat (length (miter d))) buf in
        foldl (λ acc mem,
                 buf ← acc;
                 to_wire fuel' (to_wire_string mem.1 buf) ds (cur + mem.2))
              (Ok buf) (miter d)
      else Ok buf
  end.

Section Decode.
Context `{SH : StdHash}.

(** The loop at lines 173-175: the entries of the child's [mlookup] are
    copied under the prefix [name] (which already ends with a dot). *)
Definition copy_descendants (name : string) (cindex : nat)
    (cmap : gmap string nat) (fmap : gmap string nat) : gmap string nat :=
  map_fold (λ sub rel acc, <[name +:+ sub := cindex + rel]> acc) fmap cmap.

(** The member loop of a Struct or Union, lines 148-177. The boolean of the
    result is [false] when the loop left the function by [return]. [name]
    is the variable declared before the loop. *)
Fixpoint members
    (rec : Buffer → TypeDeserContext → Res (Buffer * TypeDeserContext))
    (c : N) (index : nat) (n : nat) (name : string)
    (buf : Buffer) (ctxt : TypeDeserContext)
  : Res (Buffer * TypeDeserContext * bool) :=
  match n with
  | O => Ok (buf, ctxt, true)
  | S n' =>
      let cindex := length (descs ctxt) in
      let '(buf, name) := from_wire_string name buf in
      '(buf, ctxt) ← rec buf ctxt;
      if negb (good buf) || bool_decide (length (descs ctxt) ≤ cindex)
      then Ok (fault buf, ctxt, false)
      else
        fld ← at_index (descs ctxt) index;
        cfld ← at_index (descs ctxt) cindex;
        let fld := set_hash (N.lxor (hash fld)
                               (N.lxor (std_hash name) (hash cfld))) fld in
        let fld := set_miter (miter fld ++ [(name, cindex - index)]) fld in
        let fld := set_mlookup (<[name := cindex - index]> (mlookup fld)) fld in
        let name := name +:+ "." in
        let fld :=
          if bool_decide (c = TypeCode.Struct) && bool_decide (c = code cfld)
          then set_mlookup
                 (copy_descendants name cindex (mlookup cfld) (mlookup fld)) fld
          else fld in
        members rec c index n' name buf
          {| descs := <[index := fld]> (descs ctxt); cache := cache ctxt |}
  end.

(** The body of [from_wire(buf, ctxt, depth)] below the depth test, lines
    58-205; [rec] is the call at [depth+1]. *)
Definition from_wire_body
    (rec : Buffer → TypeDeserContext → Res (Buffer * TypeDeserContext))
    (buf : Buffer) (ctxt : TypeDeserContext)
  : Res (Buffer * TypeDeserContext) :=
  if negb (good buf) then Ok (fault buf, ctxt)
  else
    let '(buf, c) := from_wire_uint 1 TypeCode.Null buf in
    let index := length (descs ctxt) in
    if bool_decide (c = TypeCode.Null) then Ok (buf, ctxt)
    else if bool_decide (c = 0xfd%N) then
      (* update cache *)
      let '(buf, key) := from_wire_uint 2 0 buf in
      '(buf, ctxt) ← rec buf ctxt;
      if negb (good buf) || bool_decide (index = length (descs ctxt))
      then Ok (fault buf, ctxt)
      else Ok (buf, {| descs := descs ctxt;
                       cache := <[key := drop index (descs ctxt)]> (cache ctxt) |})
    else if bool_decide (c = 0xfe%N) then
      (* fetch cache *)
      let '(buf, key) := from_wire_uint 2 0 buf in
      match cache ctxt !! key with
      | None => Ok (fault buf, ctxt)
      | Some entry =>
          if negb (good buf) || bool_decide (entry = [])
          then Ok (fault buf, ctxt)
          else Ok (buf, {| descs := take index (descs ctxt) ++ entry;
                           cache := cache ctxt |})
      end
    else if bool_decide (c ≠ 0xff%N) && negb (N.land c 0x10 =? 0)%N then
      (* fixed length is deprecated *)
      Ok (fault buf, ctxt)
    else
      (* actual field *)
      let fld := set_hash c (set_code c FieldDesc_new) in
      let ctxt := {| descs := descs ctxt ++ [fld]; cache := cache ctxt |} in
      let finish (buf : Buffer) (ctxt : TypeDeserContext) :=
        fld ← at_index (descs ctxt) index;
        Ok (buf, {| descs := <[index := set_num_index
                                          (length (descs ctxt) - index) fld]>
                               (descs ctxt);
                    cache := cache ctxt |}) in
      if bool_decide (c = TypeCode.StructA ∨ c = TypeCode.UnionA) then
        '(buf, ctxt) ← rec buf ctxt;
        if negb (good buf) || bool_decide (length (descs ctxt) = index)
        then Ok (fault buf, ctxt)
        else
          child ← at_index (descs ctxt) (index + 1);
          if bool_decide (code child ≠ TypeCode.scalarOf c)
          then Ok (fault buf, ctxt)
          else finish buf ctxt
      else if bool_decide (c = TypeCode.Struct ∨ c = TypeCode.Union) then
        let '(buf, ident) := from_wire_string "" buf in
        let '(buf, nfld) := from_wire_Size 0 buf in
        _ ← reserve nfld;
        back ← at_index (descs ctxt) index;
        let back := set_id ident back in
        let back := set_hash (N.lxor (hash back) (std_hash ident)) back in
        let ctxt := {| descs := <[index := back]> (descs ctxt);
                       cache := cache ctxt |} in
        '(buf, ctxt, completed) ←
          members rec c index (N.to_nat nfld) "" buf ctxt;
        if (completed : bool) then finish buf ctxt else Ok (buf, ctxt)
      else
        (* other types have simple/single node description *)
        let buf := if TypeCode.is_simple_scalar (TypeCode.scalarOf c)
                   then buf else fault buf in
        finish buf ctxt.

(** [rem] is [21 - depth]: the test [depth > 20] is [rem = 0], and the call
    at [depth+1] is the call at [rem - 1]. *)
Fixpoint from_wire_rem (rem : nat) (buf : Buffer) (ctxt : TypeDeserContext)
  : Res (Buffer * TypeDeserContext) :=
  match rem with
  | O => Ok (fault buf, ctxt)
  | S rem' => from_wire_body (from_wire_rem rem') buf ctxt
  end.

(** [from_wire(buf, ctxt, depth)], lines 56-206. *)
Definition from_wire (buf : Buffer) (ctxt : TypeDeserContext) (depth : nat)
  : Res (Buffer * TypeDeserContext) :=
  from_wire_rem (21 - depth) buf ctxt.

End Decode.
End TypeCodec.

(** ** Conversions between [double] and [float]

    The C++ conversions [float(d)] and [double(f)] on bit patterns, by
    IEEE 754 with rounding to nearest, ties to even (the default rounding
    mode). *)
Module IEEE754.
Local Open Scope Z_scope.

(** A floating-point datum: a number, or a NaN with its sign and payload. *)
Inductive fp : Type :=
| fp_num (x : spec_float)
| fp_nan (sign : bool) (payload : Z).

(** A format is given by the widths [mw] of the fraction and [ew] of the
    exponent field; its precision is [mw + 1] and [emax] is [2^(ew-1)]. *)
Definition decode (mw ew : Z) (bits : Z) : fp :=
  let s := Z.testbit bits (mw + ew) in
  let ef := (bits / 2 ^ mw) mod 2 ^ ew in
  let mf := bits mod 2 ^ mw in
  if ef =? 0 then
    if mf =? 0 then fp_num (S754_zero s)
    else fp_num (S754_finite s (Z.to_pos mf) (3 - 2 ^ (ew - 1) - (mw + 1)))
  else if ef =? 2 ^ ew - 1 then
    if mf =? 0 then fp_num (S754_infinity s) else fp_nan s mf
  else fp_num (S754_finite s (Z.to_pos (mf + 2 ^ mw))
                 (ef - 2 ^ (ew - 1) + 1 - mw)).

Definition sign_bit (mw ew : Z) (s : bool) : Z :=
  if s then 2 ^ (mw + ew) else 0.

Definition encode (mw ew : Z) (x : fp) : Z :=
  match x with
  | fp_num (S754_zero s) => sign_bit mw ew s
  | fp_num (S754_infinity s) => sign_bit mw ew s + (2 ^ ew - 1) * 2 ^ mw
  | fp_num S754_nan => (2 ^ ew - 1) * 2 ^ mw + 2 ^ (mw - 1)
  | fp_num (S754_finite s m e) =>
      if Z.pos m <? 2 ^ mw then sign_bit mw ew s + Z.pos m
      else sign_bit mw ew s
           + (e + 2 ^ (ew - 1) - 1 + mw) * 2 ^ mw + (Z.pos m - 2 ^ mw)
  | fp_nan s p =>
      sign_bit mw ew s + (2 ^ ew - 1) * 2 ^ mw
      + Z.lor (2 ^ (mw - 1)) (p mod 2 ^ mw)
  end.

(** Rounding to nearest, ties to even, into the format. *)
Definition round (mw ew : Z) (x : spec_float) : spec_float :=
  match x with
  | S754_finite s m e => binary_round (mw + 1) (2 ^ (ew - 1)) s m e
  | _ => x
  end.

(** [float(d)]: a NaN keeps its sign and the high bits of its payload. *)
Definition float_of_double (d : N) : N :=
  Z.to_N (encode 23 8
            match decode 52 11 (Z.of_N d) with
            | fp_num x => fp_num (round 23 8 x)
            | fp_nan s p => fp_nan s (p / 2 ^ 29)
            end).

(** [double(f)]. *)
Definition double_of_float (f : N) : N :=
  Z.to_N (encode 52 11
            match decode 23 8 (Z.of_N f) with
            | fp_num x => fp_num (round 52 11 x)
            | fp_nan s p => fp_nan s (p * 2 ^ 29)
            end).
End IEEE754.

(** ** Values and storage

    Modelled from the spec: [Value], [FieldStorage], [StructTop] and
    [shared_array] are declared in [pvxs/data.h], [dataimpl.h] and
    [pvxs/sharedArray.h], which are not among the sources. The types follow
    section 3.3 of the specification and the accesses the codec makes. *)
Module Data.

(** A [Value] is null or holds a pointer to a [FieldDesc] (a vector and a
    position in it) and a pointer to a storage cell (the owning [StructTop]
    and a position in its [members]). The [StoreType] of a cell is its
    constructor. Fixed-width array elements are kept as raw bit patterns of
    [w] bytes, as the codec only reinterprets them. *)
Inductive Value : Type :=
| Value_null
| Value_ref (ds : list FieldDesc) (dpos : nat) (top : StructTop) (spos : nat)
with StructTop : Type :=
| mkTop (member_indicies : list nat) (members : list FieldStorage)
with FieldStorage : Type :=
| Store_Null
| Store_Real (d : N)
| Store_Integer (i : Z)
| Store_UInteger (u : N)
| Store_String (s : string)
| Store_Compound (v : Value)
| Store_Array (a : shared_array)
with shared_array : Type :=
| Array_empty
| Array_bool (l : list bool)
| Array_int (w : nat) (l : list N)
| Array_string (l : list string)
| Array_Value (l : list Value).

Definition member_indicies (t : StructTop) : list nat :=
  match t with mkTop mi _ => mi end.
Definition members (t : StructTop) : list FieldStorage :=
  match t with mkTop _ ms => ms end.

(** Assignment through a reference to the cell at [spos]. *)
Definition set_cell (t : StructTop) (spos : nat) (c : FieldStorage) : StructTop :=
  mkTop (member_indicies t) (<[spos := c]> (members t)).

(** The parts of the absent sources the value codec depends on:
    [Value::Helper::build], which allocates the storage of a Value of the
    type at a position of a vector; [FieldDesc_calculate_offset]; and
    whether two description vectors are one object. A Value of this model
    holds the content of its vector, and the content does not tell whether
    two pointers into vectors of equal content are equal: that depends on
    how the Values were built, and is taken from the platform. Vectors that
    are one object have the same content. *)
Class ValueImpl : Type := {
  build : list FieldDesc → nat → Value;
  FieldDesc_calculate_offset : list FieldDesc → list FieldDesc;
  same_vector : list FieldDesc → list FieldDesc → bool;
  same_vector_content (ds1 ds2 : list FieldDesc) :
    same_vector ds1 ds2 = true → ds1 = ds2
}.

(** Conversion of a signed 64-bit value to a [w]-byte integer on the wire. *)
Definition wrap (w : nat) (i : Z) : N := Z.to_N (i mod 2 ^ (8 * Z.of_nat w)).

(** The value of a [w]-byte two's complement integer. *)
Definition signed (w : nat) (n : N) : Z :=
  if (Z.of_N n <? 2 ^ (8 * Z.of_nat w - 1))%Z then Z.of_N n
  else (Z.of_N n - 2 ^ (8 * Z.of_nat w))%Z.

(** Conversion of a signed value to [uint64_t]. *)
Definition to_uint64 (i : Z) : N := Z.to_N (i mod 2 ^ 64).

(** [castTo<const E>()] of a type-erased array: the empty array casts to
    any element type; a cast to another element type than the array's own
    is reported as a [LogicError]. *)
Definition castTo_bool (a : shared_array) : Res (list bool) :=
  match a with
  | Array_empty => Ok []
  | Array_bool l => Ok l
  | _ => Err (LogicError "castTo")
  end.
Definition castTo_int (w : nat) (a : shared_array) : Res (list N) :=
  match a with
  | Array_empty => Ok []
  | Array_int w' l => if bool_decide (w = w') then Ok l
                      else Err (LogicError "castTo")
  | _ => Err (LogicError "castTo")
  end.
Definition castTo_string (a : shared_array) : Res (list string) :=
  match a with
  | Array_empty => Ok []
  | Array_string l => Ok l
  | _ => Err (LogicError "castTo")
  end.
Definition castTo_Value (a : shared_array) : Res (list Value) :=
  match a with
  | Array_empty => Ok []
  | Array_Value l => Ok l
  | _ => Err (LogicError "castTo")
  end.

End Data.

Global Instance FieldDesc_eq_dec : EqDecision FieldDesc.
Proof. solve_decision. Defined.

(** ** Value codec ([to_wire_field], [from_wire_field] and their wrappers) *)
Module ValueCodec.
Import Wire Data.

Section Codec.
Context `{BM : BuildMode} `{SH : StdHash} `{VI : ValueImpl}.

Definition is_code (c x : N) : bool := bool_decide (c = x).

(** [range(desc->offset+1u, desc->next_offset)]: the iteration ends when the
    counter equals the end, so a range whose end is below its start runs
    past the vectors it indexes. *)
Definition struct_range (d : FieldDesc) : Res (list nat) :=
  if bool_decide (next_offset d < offset d + 1) then Err OutOfBounds
  else Ok (seq (offset d + 1) (next_offset d - (offset d + 1))).

(** *** Encoding *)

(** [to_wire<E, C>(buf, varr)], lines 209-217. *)
Definition to_wire_array {E : Type} (castTo : shared_array → Res (list E))
    (elem : E → Buffer → Buffer) (buf : Buffer) (varr : shared_array)
  : Res Buffer :=
  arr ← castTo varr;
  Ok (foldl (λ b e, elem e b) (to_wire_Size (N.of_nat (length arr)) buf) arr).

(** Two [FieldDesc] pointers are equal when they point to the same position
    of the same vector object. *)
Definition same_desc (ds1 : list FieldDesc) (p1 : nat)
    (ds2 : list FieldDesc) (p2 : nat) : bool :=
  bool_decide (p1 = p2) && same_vector ds1 ds2.

(** The selector search of lines 303-308: the number of members passed
    before the first whose description is that of the held Value. *)
Fixpoint union_index (fds : list FieldDesc) (fpos : nat)
    (ds : list FieldDesc) (dpos : nat) (m : list (string * nat)) : nat :=
  match m with
  | [] => 0
  | mem :: m' =>
      if same_desc fds fpos ds (dpos + mem.2) then 0
      else S (union_index fds fpos ds dpos m')
  end.

(** [to_wire_full(buf, val)], lines 409-414, over a given [to_wire_field].
    With [assert] compiled out a null Value is dereferenced. *)
Definition to_wire_full_with
    (field : Buffer → list FieldDesc → nat → StructTop → nat → Res Buffer)
    (buf : Buffer) (val : Value) : Res Buffer :=
  match val with
  | Value_null => _ ← assert_ false; Err OutOfBounds
  | Value_ref ds dpos top spos => field buf ds dpos top spos
  end.

(** The element loops of [StructA], [UnionA] and [AnyA], lines 356-398;
    [pre] is what is done between the presence byte and [to_wire_full]. *)
Definition to_wire_elems (full : Buffer → Value → Res Buffer)
    (pre : Buffer → Value → Res Buffer) (buf : Buffer) (arr : list Value)
  : Res Buffer :=
  foldl (λ acc elem,
           buf ← acc;
           match elem with
           | Value_null => Ok (to_wire_uint 1 0 buf)
           | _ => buf ← pre (to_wire_uint 1 1 buf) elem; full buf elem
           end)
        (Ok (to_wire_Size (N.of_nat (length arr)) buf)) arr.

(** [to_wire(buf, Value::Helper::desc(elem))]: the type encoder revisits a
    node when it goes deeper than the vector is long, so this budget loses
    nothing. *)
Definition to_wire_desc_of (buf : Buffer) (val : Value) : Res Buffer :=
  match val with
  | Value_null => Err OutOfBounds
  | Value_ref ds dpos _ _ => TypeCodec.to_wire (S (length ds)) buf ds dpos
  end.

(** [to_wire_field(buf, desc, store)], lines 234-407. *)
Fixpoint to_wire_field (fuel : nat) (buf : Buffer) (ds : list FieldDesc)
    (dpos : nat) (top : StructTop) (spos : nat) : Res Buffer :=
  match fuel with
  | O => Err OutOfFuel
  | S fuel' =>
      let full := to_wire_full_with (to_wire_field fuel') in
      let bad := (_ ← assert_ false; Ok (fault buf)) in
      store ← at_index (members top) spos;
      desc ← at_index ds dpos;
      let c := code desc in
      match store with
      | Store_Null =>
          if is_code c TypeCode.Struct then
            (* serialize entire sub-structure *)
            offs ← struct_range desc;
            foldl (λ acc off,
                     buf ← acc;
                     idx ← at_index (member_indicies top) off;
                     cdesc ← at_index ds (dpos + idx);
                     if negb (is_code (code cdesc) TypeCode.Struct)
                     then to_wire_field fuel' buf ds (dpos + idx) top (spos + off)
                     else Ok buf)
                  (Ok buf) offs
          else bad
      | Store_Real fld =>
          if is_code c TypeCode.Float32
          then Ok (to_wire_uint 4 (IEEE754.float_of_double fld) buf)
          else if is_code c TypeCode.Float64 then Ok (to_wire_uint 8 fld buf)
          else bad
      | Store_Integer fld =>
          if is_code c TypeCode.Int8 then Ok (to_wire_uint 1 (wrap 1 fld) buf)
          else if is_code c TypeCode.Int16 then Ok (to_wire_uint 2 (wrap 2 fld) buf)
          else if is_code c TypeCode.Int32 then Ok (to_wire_uint 4 (wrap 4 fld) buf)
          else if is_code c TypeCode.Int64 then Ok (to_wire_uint 8 (wrap 8 fld) buf)
          else bad
      | Store_UInteger fld =>
          if is_code c TypeCode.Bool
          then Ok (to_wire_uint 1 (if (fld =? 0)%N then 0 else 1) buf)
          else if is_code c TypeCode.UInt8 then Ok (to_wire_uint 1 fld buf)
          else if is_code c TypeCode.UInt16 then Ok (to_wire_uint 2 fld buf)
          else if is_code c TypeCode.UInt32 then Ok (to_wire_uint 4 fld buf)
          else if is_code c TypeCode.UInt64 then Ok (to_wire_uint 8 fld buf)
          else bad
      | Store_String fld =>
          if is_code c TypeCode.String then Ok (to_wire_string fld buf)
          else bad
      | Store_Compound fld =>
          if is_code c TypeCode.Union then
            match fld with
            | Value_null =>
                (* implied NULL Union member *)
                Ok (to_wire_Size size_null buf)
            | Value_ref fds fpos _ _ =>
                let index := union_index fds fpos ds dpos (miter desc) in
                if bool_decide (length (miter desc) ≤ index)
                then Err (LogicError "Union contains non-member type")
                else full (to_wire_Size (N.of_nat index) buf) fld
            end
          else if is_code c TypeCode.Any then
            match fld with
            | Value_null => Ok (to_wire_uint 1 0xff buf)
            | _ => buf ← to_wire_desc_of buf fld; full buf fld
            end
          else bad
      | Store_Array fld =>
          if is_code c TypeCode.BoolA then
            to_wire_array castTo_bool
              (λ e, to_wire_uint 1 (if e then 1 else 0)%N) buf fld
          else if is_code c TypeCode.Int8 || is_code c TypeCode.UInt8 then
            to_wire_array (castTo_int 1) (to_wire_uint 1) buf fld
          else if is_code c TypeCode.Int16 || is_code c TypeCode.UInt16 then
            to_wire_array (castTo_int 2) (to_wire_uint 2) buf fld
          else if is_code c TypeCode.Int32 || is_code c TypeCode.UInt32
                  || is_code c TypeCode.Float32 then
            to_wire_array (castTo_int 4) (to_wire_uint 4) buf fld
          else if is_code c TypeCode.Int64 || is_code c TypeCode.UInt64
                  || is_code c TypeCode.Float64 then
            to_wire_array (castTo_int 8) (to_wire_uint 8) buf fld
          else if is_code c TypeCode.StringA then
            to_wire_array castTo_string to_wire_string buf fld
          else if is_code c TypeCode.StructA then
            arr ← castTo_Value fld;
            to_wire_elems full
              (λ buf elem,
                 match elem with
                 | Value_ref eds epos _ _ =>
                     _ ← assert_ (same_desc eds epos ds (dpos + 1)); Ok buf
                 | Value_null => Ok buf
                 end)
              buf arr
          else if is_code c TypeCode.UnionA then
            arr ← castTo_Value fld;
            to_wire_elems full (λ buf _, Ok buf) buf arr
          else if is_code c TypeCode.AnyA then
            arr ← castTo_Value fld;
            to_wire_elems full to_wire_desc_of buf arr
          else bad
      end
  end.

(** [to_wire_full(buf, val)], lines 409-414. *)
Definition to_wire_full (fuel : nat) (buf : Buffer) (val : Value) : Res Buffer :=
  to_wire_full_with (to_wire_field fuel) buf val.

(** *** Decoding *)

(** [from_wire<E, C>(buf, varr)], lines 219-230: the length is read, a local
    array of that length is allocated and filled element by element, and
    the function ends; [varr] is not assigned. [elem] reads one element. *)
Definition from_wire_array (elem : Buffer → Buffer) (buf : Buffer)
    (varr : shared_array) : Res (Buffer * shared_array) :=
  let '(buf, slen) := from_wire_Size 0 buf in
  _ ← new_array slen;
  Ok (Nat.iter (N.to_nat slen) elem buf, varr).

Definition skip_uint (w : nat) (buf : Buffer) : Buffer :=
  (from_wire_uint w 0 buf).1.
Definition skip_string (buf : Buffer) : Buffer :=
  (from_wire_string "" buf).1.

(** [from_wire_full(buf, ctxt, val)], lines 670-675, over a given
    [from_wire_field]; the storage of [val] is updated in place. *)
Definition from_wire_full_with
    (field : Buffer → TypeStore → list FieldDesc → nat → StructTop → nat →
             Res (Buffer * TypeStore * StructTop))
    (buf : Buffer) (ctxt : TypeStore) (val : Value)
  : Res (Buffer * TypeStore * Value) :=
  match val with
  | Value_null => _ ← assert_ false; Err OutOfBounds
  | Value_ref ds dpos top spos =>
      '(buf, ctxt, top) ← field buf ctxt ds dpos top spos;
      Ok (buf, ctxt, Value_ref ds dpos top spos)
  end.

(** A loop [for(auto& elem : arr) { ... }] over [n] null Values; [step]
    is the body, which gives the element or [None] when it leaves the
    function by [return]. *)
Fixpoint elems_loop
    (step : Buffer → TypeStore → Res (Buffer * TypeStore * option Value))
    (n : nat) (buf : Buffer) (ctxt : TypeStore)
  : Res (Buffer * TypeStore * option (list Value)) :=
  match n with
  | O => Ok (buf, ctxt, Some [])
  | S n' =>
      '(buf, ctxt, r) ← step buf ctxt;
      match r with
      | None => Ok (buf, ctxt, None)
      | Some elem =>
          '(buf, ctxt, rest) ← elems_loop step n' buf ctxt;
          Ok (buf, ctxt, option_map (cons elem) rest)
      end
  end.

Section Elements.
Variable full : Buffer → TypeStore → Value → Res (Buffer * TypeStore * Value).

(** [elem = build(...); from_wire_full(buf, ctxt, elem);] *)
Definition decode_into (elem : Value) (buf : Buffer) (ctxt : TypeStore)
  : Res (Buffer * TypeStore * option Value) :=
  '(buf, ctxt, elem) ← full buf ctxt elem;
  Ok (buf, ctxt, Some elem).

(** Decoding of a type and, unless it is null, of a Value of that type
    (lines 528-548 and 639-653). The result is [None] after [return] on a
    fault, else the Value, which is null when the type is. *)
Definition from_wire_any (buf : Buffer) (ctxt : TypeStore)
  : Res (Buffer * TypeStore * option Value) :=
  '(buf, dc) ← TypeCodec.from_wire buf
                 {| TypeCodec.descs := []; TypeCodec.cache := ctxt |} 0;
  let ctxt := TypeCodec.cache dc in
  if negb (good buf) then Ok (buf, ctxt, None)
  else if bool_decide (TypeCodec.descs dc = []) then Ok (buf, ctxt, Some Value_null)
  else
    let descs := FieldDesc_calculate_offset (TypeCodec.descs dc) in
    decode_into (build descs 0) buf ctxt.

(** Body of the [StructA] loop, lines 590-594. *)
Definition structA_elem (ds : list FieldDesc) (dpos : nat)
    (buf : Buffer) (ctxt : TypeStore)
  : Res (Buffer * TypeStore * option Value) :=
  let '(buf, present) := from_wire_uint 1 0 buf in
  if negb (present =? 0)%N (* strictly 1 or 0 *)
  then decode_into (build ds (dpos + 1)) buf ctxt
  else Ok (buf, ctxt, Some Value_null).

(** The selector and the element of a [UnionA] element that is present,
    lines 608-625. *)
Definition unionA_select (ds : list FieldDesc) (dpos : nat)
    (buf : Buffer) (ctxt : TypeStore)
  : Res (Buffer * TypeStore * option Value) :=
  let cpos := dpos + 1 in
  let '(buf, select) := from_wire_Size 0 buf in
  if (select =? size_null)%N then
    (* null element.  treated the same as 0 case *)
    Ok (buf, ctxt, Some Value_null)
  else
    cdesc ← at_index ds cpos;
    if (select <? N.of_nat (length (miter cdesc)))%N then
      mem ← at_index (miter cdesc) (N.to_nat select);
      decode_into (build ds (cpos + mem.2)) buf ctxt
    else
      (* invalid selector *)
      Ok (fault buf, ctxt, None).

(** Body of the [UnionA] loop, lines 607-626. *)
Definition unionA_elem (ds : list FieldDesc) (dpos : nat)
    (buf : Buffer) (ctxt : TypeStore)
  : Res (Buffer * TypeStore * option Value) :=
  let '(buf, present) := from_wire_uint 1 0 buf in
  if negb (present =? 0)%N (* strictly 1 or 0 *)
  then unionA_select ds dpos buf ctxt
  else Ok (buf, ctxt, Some Value_null).

(** Body of the [AnyA] loop, lines 638-654. *)
Definition anyA_elem (buf : Buffer) (ctxt : TypeStore)
  : Res (Buffer * TypeStore * option Value) :=
  let '(buf, present) := from_wire_uint 1 0 buf in
  if negb (present =? 0)%N (* strictly 1 or 0 *)
  then from_wire_any buf ctxt
  else Ok (buf, ctxt, Some Value_null).

(** The three array-of-compound cases, lines 583-659: the length, the
    allocation of the array, the element loop and, unless the loop
    returned, the assignment to the cell. *)
Definition from_wire_elems
    (step : Buffer → TypeStore → Res (Buffer * TypeStore * option Value))
    (buf : Buffer) (ctxt : TypeStore) (top : StructTop) (spos : nat)
  : Res (Buffer * TypeStore * StructTop) :=
  let '(buf, alen) := from_wire_Size 0 buf in
  _ ← new_array alen;
  '(buf, ctxt, r) ← elems_loop step (N.to_nat alen) buf ctxt;
  match r with
  | Some arr => Ok (buf, ctxt, set_cell top spos (Store_Array (Array_Value arr)))
  | None => Ok (buf, ctxt, top)
  end.

End Elements.

(** [from_wire_field(buf, ctxt, desc, store)], lines 446-668. *)
Fixpoint from_wire_field (fuel : nat) (buf : Buffer) (ctxt : TypeStore)
    (ds : list FieldDesc) (dpos : nat) (top : StructTop) (spos : nat)
  : Res (Buffer * TypeStore * StructTop) :=
  match fuel with
  | O => Err OutOfFuel
  | S fuel' =>
      let full := from_wire_full_with (from_wire_field fuel') in
      let bad := Ok (fault buf, ctxt, top) in
      let assign (buf : Buffer) (cell : FieldStorage) :=
        Ok (buf, ctxt, set_cell top spos cell) in
      store ← at_index (members top) spos;
      desc ← at_index ds dpos;
      let c := code desc in
      match store with
      | Store_Null =>
          if is_code c TypeCode.Struct then
            offs ← struct_range desc;
            foldl (λ acc off,
                     '(buf, ctxt, top) ← acc;
                     idx ← at_index (member_indicies top) off;
                     cdesc ← at_index ds (dpos + idx);
                     if negb (is_code (code cdesc) TypeCode.Struct)
                     then from_wire_field fuel' buf ctxt ds (dpos + idx) top
                            (spos + off)
                     else Ok (buf, ctxt, top))
                  (Ok (buf, ctxt, top)) offs
          else bad
      | Store_Real _ =>
          if is_code c TypeCode.Float32 then
            let '(buf, v) := from_wire_uint 4 0 buf in
            assign buf (Store_Real (IEEE754.double_of_float v))
          else if is_code c TypeCode.Float64 then
            let '(buf, v) := from_wire_uint 8 0 buf in
            assign buf (Store_Real v)
          else bad
      | Store_Integer _ =>
          let as_int (w : nat) :=
            let '(buf, v) := from_wire_uint w 0 buf in
            assign buf (Store_Integer (signed w v)) in
          if is_code c TypeCode.Int8 then as_int 1
          else if is_code c TypeCode.Int16 then as_int 2
          else if is_code c TypeCode.Int32 then as_int 4
          else if is_code c TypeCode.Int64 then as_int 8
          else bad
      | Store_UInteger _ =>
          (* the unsigned codes are read through the signed types *)
          let as_int (w : nat) :=
            let '(buf, v) := from_wire_uint w 0 buf in
            assign buf (Store_UInteger (to_uint64 (signed w v))) in
          if is_code c TypeCode.Bool then
            let '(buf, v) := from_wire_uint 1 0 buf in
            assign buf (Store_UInteger (if (v =? 0)%N then 0 else 1)%N)
          else if is_code c TypeCode.UInt8 then as_int 1
          else if is_code c TypeCode.UInt16 then as_int 2
          else if is_code c TypeCode.UInt32 then as_int 4
          else if is_code c TypeCode.UInt64 then as_int 8
          else bad
      | Store_String fld =>
          if is_code c TypeCode.String then
            let '(buf, s) := from_wire_string fld buf in
            assign buf (Store_String s)
          else bad
      | Store_Compound _ =>
          if is_code c TypeCode.Union then
            let '(buf, select) := from_wire_Size 0 buf in
            if (select =? size_null)%N then assign buf (Store_Compound Value_null)
            else if (select <? N.of_nat (length (miter desc)))%N then
              mem ← at_index (miter desc) (N.to_nat select);
              '(buf, ctxt, fld) ← full buf ctxt (build ds (dpos + mem.2));
              Ok (buf, ctxt, set_cell top spos (Store_Compound fld))
            else Ok (fault buf, ctxt, top)
          else if is_code c TypeCode.Any then
            '(buf, ctxt, r) ← from_wire_any full buf ctxt;
            match r with
            | Some fld => Ok (buf, ctxt, set_cell top spos (Store_Compound fld))
            | None => Ok (buf, ctxt, top)
            end
          else bad
      | Store_Array fld =>
          let scalars (elem : Buffer → Buffer) :=
            '(buf, fld) ← from_wire_array elem buf fld;
            assign buf (Store_Array fld) in
          if is_code c TypeCode.BoolA then scalars (skip_uint 1)
          else if is_code c TypeCode.Int8 || is_code c TypeCode.UInt8
          then scalars (skip_uint 1)
          else if is_code c TypeCode.Int16 || is_code c TypeCode.UInt16
          then scalars (skip_uint 2)
          else if is_code c TypeCode.Int32 || is_code c TypeCode.UInt32
                  || is_code c TypeCode.Float32
          then scalars (skip_uint 4)
          else if is_code c TypeCode.Int64 || is_code c TypeCode.UInt64
                  || is_code c TypeCode.Float64
          then scalars (skip_uint 8)
          else if is_code c TypeCode.StringA then scalars skip_string
          else if is_code c TypeCode.StructA then
            from_wire_elems (structA_elem full ds dpos) buf ctxt top spos
          else if is_code c TypeCode.UnionA then
            from_wire_elems (unionA_elem full ds dpos) buf ctxt top spos
          else if is_code c TypeCode.AnyA then
            from_wire_elems (anyA_elem full) buf ctxt top spos
          else bad
      end
  end.

(** [from_wire_full(buf, ctxt, val)], lines 670-675. *)
Definition from_wire_full (fuel : nat) (buf : Buffer) (ctxt : TypeStore)
    (val : Value) : Res (Buffer * TypeStore * Value) :=
  from_wire_full_with (from_wire_field fuel) buf ctxt val.

End Codec.
End ValueCodec.

(** ** The other entry points of the value codec

    [from_wire_type_value] and the two functions of the "valid" form, which
    send the bit mask of the assigned cells and then only those cells. *)
Module DeltaCodec.
Import Wire Data ValueCodec.

(** Modelled from the spec: [BitMask] is declared in [bitmask.h], which is
    not among the sources. A mask is the list of its bits; section 3.3 of
    the specification has one bit per storage cell. [findSet] and [resize]
    are modelled by the use the codec makes of them. *)
Definition BitMask : Type := list bool.

(** [findSet(start)]: the position of the first bit set at or after
    [start], or the size of the mask when there is none. *)
Fixpoint findSet (m : BitMask) (start : nat) : nat :=
  match m with
  | [] => 0
  | b :: m' =>
      match start with
      | O => if b then 0 else S (findSet m' 0)
      | S start' => S (findSet m' start')
      end
  end.

(** [resize(n)]: the mask is cut, or filled with bits that are not set. *)
Definition resize (n : nat) (m : BitMask) : BitMask :=
  take n m ++ replicate (n - length m) false.

(** [to_wire] and [from_wire] of a [BitMask] are defined in [bitmask.cpp]:
    they are parameters of the development. [from_wire_BitMask m buf] is
    the call on a mask that holds [m]. *)
Class BitMaskWire : Type := {
  to_wire_BitMask : BitMask → Buffer → Buffer;
  from_wire_BitMask : BitMask → Buffer → Buffer * BitMask
}.

Section Codec.
Context `{BM : BuildMode} `{SH : StdHash} `{VI : ValueImpl} `{BW : BitMaskWire}.

(** [from_wire_type_value(buf, ctxt, val)], lines 699-719. *)
Definition from_wire_type_value (fuel : nat) (buf : Buffer) (ctxt : TypeStore)
    (val : Value) : Res (Buffer * TypeStore * Value) :=
  '(buf, dc) ← TypeCodec.from_wire buf
                 {| TypeCodec.descs := []; TypeCodec.cache := ctxt |} 0;
  let ctxt := TypeCodec.cache dc in
  if negb (good buf) then Ok (buf, ctxt, val)
  else if negb (bool_decide (TypeCodec.descs dc = [])) then
    let descs := FieldDesc_calculate_offset (TypeCodec.descs dc) in
    from_wire_full fuel buf ctxt (build descs 0)
  else Ok (buf, ctxt, Value_null).

(** The loop [for(bit = valid.findSet(desc->offset); bit<desc->next_offset;
    bit = valid.findSet(bit+1))] of lines 427-433 and 690-696, from the
    value [bit] of the counter; [body] is the loop body. The counter grows
    with each iteration, so [fuel] iterations are enough when [fuel] is the
    distance to [next_offset]. *)
Fixpoint marked_loop {A : Type} (fuel : nat) (body : nat → A → Res A)
    (valid : BitMask) (next_offset : nat) (bit : nat) (acc : A) : Res A :=
  if bool_decide (bit < next_offset) then
    match fuel with
    | O => Err OutOfFuel
    | S fuel' =>
        acc ← body bit acc;
        marked_loop fuel' body valid next_offset (findSet valid (bit + 1)) acc
    end
  else Ok acc.

(** [to_wire_valid(buf, val)], lines 416-434. The mask [top->valid] of the
    storage of [val] is carried beside the Value ([StructTop] as modelled for
    the full form has no mask); the result holds the mask after the call. A
    null Value fails the assertion, and is dereferenced when assertions are
    compiled out. *)
Definition to_wire_valid (fuel : nat) (buf : Buffer) (val : Value)
    (valid : BitMask) : Res (Buffer * BitMask) :=
  match val with
  | Value_null => _ ← assert_ false; Err OutOfBounds
  | Value_ref ds dpos top spos =>
      desc ← at_index ds dpos;
      let buf := to_wire_BitMask valid buf in
      let valid := resize (length (members top)) valid in
      (* iterate marked fields *)
      buf ← marked_loop (next_offset desc - offset desc)
               (λ bit buf,
                  idx ← at_index (member_indicies top) bit;
                  to_wire_field fuel buf ds (dpos + idx) top (spos + bit))
               valid (next_offset desc) (findSet valid (offset desc)) buf;
      Ok (buf, valid)
  end.

(** [from_wire_valid(buf, ctxt, val)], lines 677-697, with the mask carried
    beside the Value as for [to_wire_valid]. *)
Definition from_wire_valid (fuel : nat) (buf : Buffer) (ctxt : TypeStore)
    (val : Value) (valid : BitMask)
  : Res (Buffer * TypeStore * Value * BitMask) :=
  match val with
  | Value_null => _ ← assert_ false; Err OutOfBounds
  | Value_ref ds dpos top spos =>
      desc ← at_index ds dpos;
      let '(buf, valid) := from_wire_BitMask valid buf in
      (* encoding rounds # of bits to whole bytes, so we may trim *)
      let valid := resize (length (members top)) valid in
      if negb (good buf) then Ok (buf, ctxt, val, valid)
      else
        '(buf, ctxt, top) ←
          marked_loop (next_offset desc - offset desc)
            (λ bit '(buf, ctxt, top),
               idx ← at_index (member_indicies top) bit;
               from_wire_field fuel buf ctxt ds (dpos + idx) top (spos + bit))
            valid (next_offset desc) (findSet valid (offset desc))
            (buf, ctxt, top);
        Ok (buf, ctxt, Value_ref ds dpos top spos, valid)
  end.

End Codec.
End DeltaCodec.

(** ** Server: configuration, registry, search replies, beacons *)
Module Server.
Import Wire.

(** *** Configuration *)

(** Modelled from the spec: [Config] is declared in [pvxs/server.h], which
    is not among the sources; the fields are those [server.cpp] uses. The
    GUID is a [std::array<uint8_t, 12>]. *)
Record Config : Type := mkConfig {
  interfaces : list string;
  beaconDestinations : list string;
  tcp_port : N;
  udp_port : N;
  auto_beacon : bool;
  guid : vec byte 12
}.

(** What [Config::from_env] takes from outside [server.cpp]: the
    default-constructed [Config]; [aToIPAddr], which gives the address when
    it returns 0; [ipAddrToDottedIP]; [lexical_cast<unsigned short>], which
    gives no value when it throws (then [what] is the message); and
    [regex_max], the length of the longest input that [std::regex_match]
    matches against [word] within the stack of the process (the matcher of
    the standard library recurses with the length of its input). *)
Class Platform : Type := {
  Config_default : Config;
  aToIPAddr : string → option N;
  ipAddrToDottedIP : N → string;
  lexical_cast_ushort : string → option N;
  what : string → string;
  regex_max : N
}.

Definition is_space (a : ascii) : bool :=
  bool_decide (a ∈ [" "; "009"; "010"; "011"; "012"; "013"]%char).

Definition is_line_end (a : ascii) : bool :=
  bool_decide (a ∈ ["010"; "013"]%char).

Fixpoint skip_spaces (s : string) : string :=
  match s with
  | String a s' => if is_space a then skip_spaces s' else s
  | EmptyString => EmptyString
  end.

(** The longest prefix without white space, and the rest. *)
Fixpoint span_word (s : string) : string * string :=
  match s with
  | String a s' =>
      if is_space a then (EmptyString, s)
      else let '(w, r) := span_word s' in (String a w, r)
  | EmptyString => (EmptyString, EmptyString)
  end.

Fixpoint has_line_end (s : string) : bool :=
  match s with
  | String a s' => is_line_end a || has_line_end s'
  | EmptyString => false
  end.

(** What [std::regex_match(inp, M, word)] gives when it returns, where
    [word] is: any white space, a first group of one or more characters that
    are not white space, a second group of any characters other than line
    terminators. The whole input must match, so there is a word after the
    leading white space and no line terminator after it; the result is
    [M[1]] and [M[2]]. *)
Definition regex_match_word (inp : string) : option (string * string) :=
  let '(w, rest) := span_word (skip_spaces inp) in
  if bool_decide (w = EmptyString) then None
  else if has_line_end rest then None
  else Some (w, rest).

Section FromEnv.
Context `{PF : Platform}.

(** The process environment, as [getenv] sees it. *)
Variable getenv : string → option string.

Record SplitState : Type := mkSplit {
  inp : string;
  out : list string;
  logged : list string
}.

(** [std::regex_match(inp, M, word)] as the process runs it: on an input
    longer than [regex_max] the matcher uses up the stack. *)
Definition regex_match (inp : string) : Res (option (string * string)) :=
  if (regex_max <? N.of_nat (String.length inp))%N then Err StackExhausted
  else Ok (regex_match_word inp).

(** One evaluation of the loop condition and body of [split_addr_into],
    lines 51-61; [None] when the condition is false. *)
Definition split_step (name : string) (st : SplitState)
  : Res (option SplitState) :=
  if bool_decide (inp st = EmptyString) then Ok None
  else
    m ← regex_match (inp st);
    match m with
    | None => Ok None
    | Some (w, rest) =>
        match aToIPAddr w with
        | None =>
            (* log and [continue]: [inp] is not advanced *)
            Ok (Some {| inp := inp st; out := out st;
                        logged := logged st
                          ++ [name +:+ " ignoring invalid '" +:+ w +:+ "'"] |})
        | Some addr =>
            Ok (Some {| inp := rest; out := out st ++ [ipAddrToDottedIP addr];
                        logged := logged st |})
        end
    end.

(** The loop of [split_addr_into]: the state when the loop ends, or [None]
    when the call does not return, because the loop has not ended after
    [fuel] iterations or because the process was killed in the matcher. *)
Fixpoint split_loop (fuel : nat) (name : string) (st : SplitState)
  : option SplitState :=
  match fuel with
  | O => None
  | S fuel' =>
      match split_step name st with
      | Err _ => None
      | Ok None => Some st
      | Ok (Some st') => split_loop fuel' name st'
      end
  end.

(** [split_addr_into(name, out, inp)], lines 46-62. *)
Definition split_addr_into (fuel : nat) (name : string) (o : list string)
    (i : string) (lg : list string) : option (list string * list string) :=
  st ← split_loop fuel name {| inp := i; out := o; logged := lg |};
  Some (out st, logged st).

(** [pickenv(&picked, names)], lines 64-74. *)
Fixpoint pickenv (names : list string) : option (string * string) :=
  match names with
  | [] => None
  | name :: names' =>
      match getenv name with
      | Some val => Some (name, val)
      | None => pickenv names'
      end
  end.

Definition to_lower (a : ascii) : ascii :=
  let n := nat_of_ascii a in
  if Nat.leb 65 n && Nat.leb n 90 then ascii_of_nat (n + 32) else a.

(** [epicsStrCaseCmp(a, b) == 0]. *)
Fixpoint epicsStrCaseEq (a b : string) : bool :=
  match a, b with
  | EmptyString, EmptyString => true
  | String x a', String y b' =>
      bool_decide (to_lower x = to_lower y) && epicsStrCaseEq a' b'
  | _, _ => false
  end.

Definition set_interfaces (l : list string) (c : Config) : Config :=
  {| interfaces := l; beaconDestinations := beaconDestinations c;
     tcp_port := tcp_port c; udp_port := udp_port c;
     auto_beacon := auto_beacon c; guid := guid c |}.
Definition set_beaconDestinations (l : list string) (c : Config) : Config :=
  {| interfaces := interfaces c; beaconDestinations := l;
     tcp_port := tcp_port c; udp_port := udp_port c;
     auto_beacon := auto_beacon c; guid := guid c |}.
Definition set_tcp_port (p : N) (c : Config) : Config :=
  {| interfaces := interfaces c; beaconDestinations := beaconDestinations c;
     tcp_port := p; udp_port := udp_port c;
     auto_beacon := auto_beacon c; guid := guid c |}.
Definition set_udp_port (p : N) (c : Config) : Config :=
  {| interfaces := interfaces c; beaconDestinations := beaconDestinations c;
     tcp_port := tcp_port c; udp_port := p;
     auto_beacon := auto_beacon c; guid := guid c |}.
Definition set_auto_beacon (b : bool) (c : Config) : Config :=
  {| interfaces := interfaces c; beaconDestinations := beaconDestinations c;
     tcp_port := tcp_port c; udp_port := udp_port c;
     auto_beacon := b; guid := guid c |}.

(** The two port blocks of [Config::from_env], lines 103-117. *)
Definition env_port (names : list string) (set : N → Config → Config)
    (st : Config * list string) : Config * list string :=
  match pickenv names with
  | Some (name, env) =>
      match lexical_cast_ushort env with
      | Some p => (set p st.1, st.2)
      | None => (st.1, st.2 ++ [name +:+ " invalid integer : " +:+ what env])
      end
  | None => st
  end.

(** [Config::from_env()], lines 78-120: the configuration and the log, or
    [None] when the call does not return (see [split_loop]). *)
Definition from_env (fuel : nat) : option (Config * list string) :=
  let ret := set_udp_port 5076 Config_default in
  '(ret, lg) ←
    match pickenv ["EPICS_PVAS_INTF_ADDR_LIST"] with
    | Some (name, env) =>
        '(o, lg) ← split_addr_into fuel name (interfaces ret) env [];
        Some (set_interfaces o ret, lg)
    | None => Some (ret, [])
    end;
  '(ret, lg) ←
    match pickenv ["EPICS_PVAS_BEACON_ADDR_LIST"; "EPICS_PVA_ADDR_LIST"] with
    | Some (name, env) =>
        '(o, lg) ← split_addr_into fuel name (beaconDestinations ret) env lg;
        Some (set_beaconDestinations o ret, lg)
    | None => Some (ret, lg)
    end;
  let st :=
    match pickenv ["EPICS_PVAS_AUTO_BEACON_ADDR_LIST";
                   "EPICS_PVA_AUTO_ADDR_LIST"] with
    | Some (name, env) =>
        if epicsStrCaseEq env "YES" then (set_auto_beacon true ret, lg)
        else if epicsStrCaseEq env "NO" then (set_auto_beacon false ret, lg)
        else (ret, lg ++ [name +:+ " invalid bool value (YES/NO)"])
    | None => (ret, lg)
    end in
  let st := env_port ["EPICS_PVAS_SERVER_PORT"; "EPICS_PVA_SERVER_PORT"]
              set_tcp_port st in
  let st := env_port ["EPICS_PVAS_BROADCAST_PORT"; "EPICS_PVA_BROADCAST_PORT"]
              set_udp_port st in
  Some st.

End FromEnv.

(** *** The server and its Source registry *)

(** A Source, as the server sees it: what [onSearch] does with the names
    of a search, namely the names it claims (by position) and the message
    of the exception it throws, if any. *)
Record Source : Type := mkSource {
  onSearch : list string → list bool * option string
}.

Definition SockAddr : Type := string.

(** The state behind a [Server] ([Server::Pvt]). [beaconMsg_data] and
    [searchReply_data] are the addresses [beaconMsg.data()] and
    [searchReply.data()]. *)
Record Pvt : Type := mkPvt {
  effective : Config;
  sources : gmap (Z * string) Source;
  searchOp_names : list (string * bool);
  beaconMsg : list byte;
  beaconMsg_data : Z;
  searchReply : list byte;
  searchReply_data : Z;
  beaconDest : list SockAddr
}.

Definition set_sources (m : gmap (Z * string) Source) (p : Pvt) : Pvt :=
  {| effective := effective p; sources := m;
     searchOp_names := searchOp_names p;
     beaconMsg := beaconMsg p; beaconMsg_data := beaconMsg_data p;
     searchReply := searchReply p; searchReply_data := searchReply_data p;
     beaconDest := beaconDest p |}.
Definition set_search (names : list (string * bool)) (reply : list byte)
    (p : Pvt) : Pvt :=
  {| effective := effective p; sources := sources p;
     searchOp_names := names;
     beaconMsg := beaconMsg p; beaconMsg_data := beaconMsg_data p;
     searchReply := reply; searchReply_data := searchReply_data p;
     beaconDest := beaconDest p |}.
Definition set_beacon (msg : list byte) (reply : list byte) (p : Pvt) : Pvt :=
  {| effective := effective p; sources := sources p;
     searchOp_names := searchOp_names p;
     beaconMsg := msg; beaconMsg_data := beaconMsg_data p;
     searchReply := reply; searchReply_data := searchReply_data p;
     beaconDest := beaconDest p |}.

(** A [Server] holds a shared pointer to its [Pvt], which may be null. *)
Definition Server : Type := option Pvt.

(** [Server::addSource(name, src, order)], lines 158-175; a null [src] is
    [None]. *)
Definition addSource (srv : Server) (name : string) (src : option Source)
    (order : Z) : Res Server :=
  match srv with
  | None => Err (LogicError "NULL Server")
  | Some pvt =>
      match src with
      | None => Err (LogicError "Attempt to add NULL Source")
      | Some s =>
          match sources pvt !! (order, name) with
          | Some _ => Err (RuntimeError "Source already registered")
          | None => Ok (Some (set_sources (<[(order, name) := s]> (sources pvt)) pvt))
          end
      end
  end.

(** [Server::removeSource(name, order)], lines 177-192: the returned
    pointer ([None] when null) and the server. *)
Definition removeSource (srv : Server) (name : string) (order : Z)
  : Res (option Source * Server) :=
  match srv with
  | None => Err (LogicError "NULL Server")
  | Some pvt =>
      match sources pvt !! (order, name) with
      | Some s => Ok (Some s, Some (set_sources (delete (order, name) (sources pvt)) pvt))
      | None => Ok (None, Some pvt)
      end
  end.

(** [Server::getSource(name, order)], lines 194-208. *)
Definition getSource (srv : Server) (name : string) (order : Z)
  : Res (option Source) :=
  match srv with
  | None => Err (LogicError "NULL Server")
  | Some pvt => Ok (sources pvt !! (order, name))
  end.

(** The order of [std::map<std::pair<int, std::string>, ...>]. *)
Definition key_le (a b : Z * string * Source) : Prop :=
  (a.1.1 < b.1.1)%Z ∨ (a.1.1 = b.1.1 ∧ String.leb a.1.2 b.1.2 = true).
Global Instance key_le_dec a b : Decision (key_le a b).
Proof. unfold key_le. apply _. Defined.

(** The entries of the registry in iteration order. *)
Definition registry_order (m : gmap (Z * string) Source)
  : list (Z * string * Source) :=
  merge_sort key_le (map_to_list m).

(** [Server::listSource(names)], lines 210-224: the names and orders of the
    registry, in its iteration order. *)
Definition listSource (srv : Server) : Res (list (string * Z)) :=
  match srv with
  | None => Err (LogicError "NULL Server")
  | Some pvt =>
      Ok ((λ e : Z * string * Source, (e.1.2, e.1.1))
            <$> registry_order (sources pvt))
  end.

(** [Server::config()], lines 226-232. *)
Definition config (srv : Server) : Res Config :=
  match srv with
  | None => Err (LogicError "NULL Server")
  | Some pvt => Ok (effective pvt)
  end.

(** *** Wire forms used by the server

    Modelled from the spec: [Header], the command and flag constants and
    [to_wire] of a [SockAddr] are declared in [pvaproto.h], which is not
    among the sources. Section 6.1 of the specification gives the header: the
    magic byte [0xCA], a version byte, a flags byte (with the byte-order
    bit), the command and the 32-bit body length; the constants and the
    16-byte form of an IPv4 address are those of the PVA protocol. *)
Definition pva_version_server : byte := x02.
Definition CMD_BEACON : N := 0%N.
Definition CMD_SEARCH_RESPONSE : N := 4%N.
Definition pva_flags_Server : N := 0x40%N.
Definition pva_flags_MSB : N := 0x80%N.

Definition to_wire_Header (cmd flags len : N) (b : Buffer) : Buffer :=
  let fl := N.lor flags (if be b then pva_flags_MSB else 0%N) in
  to_wire_uint 4 len
    (put [xca; pva_version_server; byte_of_N fl; byte_of_N cmd] b).

(** [SockAddr::any(AF_INET)] on the wire. *)
Definition SockAddr_any_wire : list byte :=
  replicate 10 x00 ++ [xff; xff] ++ replicate 4 x00.

(** *** Search replies *)

Record Search : Type := mkSearch {
  src : SockAddr;
  searchID : N;
  mustReply : bool;
  names : list (N * string)
}.

(** Lines 554-564: every Source of the registry sees the names and may
    claim some; an exception is logged. *)
Definition run_sources (srcs : list (Z * string * Source))
    (st : list (string * bool) * list string)
  : list (string * bool) * list string :=
  foldl (λ st ent,
           let '(claimed, thrown) := onSearch ent.2 (st.1.*1) in
           (imap (λ i nc, (nc.1, nc.2 || default false (claimed !! i))) st.1,
            match thrown with
            | Some e => st.2 ++ ["Unhandled error in Source::onSearch for '"
                                   +:+ ent.1.2 +:+ "' : " +:+ e]
            | None => st.2
            end))
        st srcs.

(** Lines 566-570: the count of claimed names in a [uint16_t]. *)
Definition count_claims (ns : list (string * bool)) : N :=
  foldl (λ n nc, if nc.2 : bool then ((n + 1) mod 65536)%N else n) 0%N ns.

(** [Server::Pvt::onSearch(msg)], lines 542-604: the state, the log and
    the datagram given to [msg.reply], if any. *)
Definition Pvt_onSearch (pvt : Pvt) (msg : Search)
  : Pvt * list string * option (list byte) :=
  let ns := (λ n, (n.2, false)) <$> names msg in
  let '(ns, lg) := run_sources (registry_order (sources pvt)) (ns, []) in
  let nreply := count_claims ns in
  (* "pvlist" breaks unless we honor mustReply flag *)
  if (nreply =? 0)%N && negb (mustReply msg)
  then (set_search ns (searchReply pvt) pvt, lg, None)
  else
    let M := {| be := true; data := searchReply pvt; pos := 0;
                faulted := false |} in
    let M := skip 8 M in
    let M := put (vec_to_list (guid (effective pvt))) M in
    let M := to_wire_uint 4 (searchID msg) M in
    let M := put SockAddr_any_wire M in
    let M := to_wire_uint 2 (tcp_port (effective pvt)) M in
    let M := to_wire_string "tcp" M in
    (* "found" flag *)
    let M := to_wire_uint 1 (if (nreply =? 0)%N then 0 else 1)%N M in
    let M := to_wire_uint 2 nreply M in
    let M := foldl (λ M (e : N * string * (string * bool)),
                      if e.2.2 then to_wire_uint 4 e.1.1 M else M)
                   M (zip (names msg) ns) in
    let pktlen := pos M in
    (* now going back to fill in header *)
    let H := {| be := true; data := take 8 (data M); pos := 0;
                faulted := false |} in
    let H := to_wire_Header CMD_SEARCH_RESPONSE pva_flags_Server
               (Z.to_N ((Z.of_nat pktlen - 8) mod 2 ^ 32)) H in
    let reply := data H ++ drop 8 (data M) in
    if negb (good M) || negb (good H)
    then (set_search ns reply pvt,
          lg ++ ["Logic error in Search buffer fill"], None)
    else (set_search ns reply pvt, lg, Some (take pktlen reply)).

(** *** Beacons *)

(** [sendto(sock, beaconMsg.data(), pktlen, ...)]: the datagram is the
    first [pktlen] bytes of the vector; nothing is defined to be sent when
    [pktlen] is negative or exceeds the vector. *)
Definition datagram (v : list byte) (pktlen : Z) : option (list byte) :=
  if bool_decide (0 ≤ pktlen ≤ Z.of_nat (length v))%Z
  then Some (take (Z.to_nat pktlen) v) else None.

(** [Server::Pvt::doBeacons(evt)], lines 606-646: the state and, for each
    destination, what is sent. *)
Definition Pvt_doBeacons `{BM : BuildMode} (pvt : Pvt)
  : Res (Pvt * list (SockAddr * option (list byte))) :=
  let M := {| be := true; data := beaconMsg pvt; pos := 0;
              faulted := false |} in
  let M := skip 8 M in
  let M := put (vec_to_list (guid (effective pvt))) M in
  let M := skip 4 M in
  let M := put SockAddr_any_wire M in
  let M := to_wire_uint 2 (tcp_port (effective pvt)) M in
  let M := to_wire_string "tcp" M in
  (* "NULL" serverStatus *)
  let M := to_wire_uint 1 0xff M in
  (* [M.save() - searchReply.data()] *)
  let pktlen := (beaconMsg_data pvt + Z.of_nat (pos M)
                 - searchReply_data pvt)%Z in
  (* now going back to fill in header *)
  let H := {| be := true; data := take 8 (searchReply pvt); pos := 0;
              faulted := false |} in
  let H := to_wire_Header CMD_BEACON pva_flags_Server
             (Z.to_N ((pktlen - 8) mod 2 ^ 32)) H in
  _ ← assert_ (good M && good H);
  let pvt' := set_beacon (data M) (data H ++ drop 8 (searchReply pvt)) pvt in
  Ok (pvt', (λ dest, (dest, datagram (beaconMsg pvt') pktlen)) <$> beaconDest pvt).

End Server.

(** ** A concrete platform

    The development is parametric in what lies outside the two source
    files. This module fixes one platform, on which the statements are
    evaluated on concrete inputs. *)
Module Sample.
Import Wire Data.

(** A [std::hash<std::string>]: FNV-1a on 64 bits. *)
Definition fnv1a (s : string) : N :=
  foldl (λ h b, (N.lxor h (Byte.to_N b) * 0x100000001b3) mod 2 ^ 64)%N
        0xcbf29ce484222325%N (list_byte_of_string s).
Definition string_hash : StdHash := fnv1a.

(** Assertions are compiled in. *)
Definition debug : BuildMode := false.

(** Modelled from the spec: the initial storage cell of a node
    ([FieldStorage::init], in [data.cpp], is not among the sources), by the
    storage categories of section 3.3 of the specification. *)
Definition init_cell (c : N) : FieldStorage :=
  if bool_decide (c = TypeCode.Struct) then Store_Null
  else if bool_decide (c = TypeCode.Union ∨ c = TypeCode.Any)
  then Store_Compound Value_null
  else if negb (N.land c 0x08 =? 0)%N then Store_Array Array_empty
  else if bool_decide (c = TypeCode.Bool ∨ c ∈ [TypeCode.UInt8; TypeCode.UInt16;
                                             TypeCode.UInt32; TypeCode.UInt64])
  then Store_UInteger 0
  else if bool_decide (c ∈ [TypeCode.Int8; TypeCode.Int16; TypeCode.Int32;
                            TypeCode.Int64])
  then Store_Integer 0
  else if bool_decide (c ∈ [TypeCode.Float32; TypeCode.Float64])
  then Store_Real 0
  else if bool_decide (c = TypeCode.String) then Store_String ""
  else Store_Null.

(** Modelled from the spec: [Value::Helper::build] (in [data.cpp], not among
    the sources) allocates one storage cell per node of the subtree at
    position [p], in the order of the vector (sections 3.3 and 4.3.3). *)
Definition build_value (ds : list FieldDesc) (p : nat) : Value :=
  match ds !! p with
  | None => Value_null
  | Some d =>
      let n := num_index d in
      Value_ref ds p
        (mkTop (seq 0 n) ((λ d, init_cell (code d)) <$> take n (drop p ds))) 0
  end.

(** Modelled from the spec: [FieldDesc_calculate_offset] (in [data.cpp], not
    among the sources) assigns sequential storage cells in depth-first
    order: the cell of a node is its position, and the end of its subtree
    is [num_index] further (sections 3.2 and 4.2.2). *)
Definition calculate_offset (ds : list FieldDesc) : list FieldDesc :=
  imap (λ i d,
          {| id := id d; mlookup := mlookup d; miter := miter d;
             hash := hash d; offset := i;
             next_offset := i + num_index d; num_index := num_index d;
             code := code d |}) ds.

(** On this platform description vectors of equal content are one
    object. *)
Definition impl : ValueImpl :=
  {| build := build_value; FieldDesc_calculate_offset := calculate_offset;
     same_vector := λ ds1 ds2, bool_decide (ds1 = ds2);
     same_vector_content := λ ds1 ds2, bool_decide_eq_true_1 (ds1 = ds2) |}.

(** Decimal numbers. *)
Fixpoint parse_digits (s : string) (acc : N) : option N :=
  match s with
  | EmptyString => Some acc
  | String a s' =>
      let n := N_of_ascii a in
      if (48 <=? n)%N && (n <=? 57)%N
      then parse_digits s' (acc * 10 + (n - 48))%N
      else None
  end.
Definition parse_number (s : string) : option N :=
  if bool_decide (s = EmptyString) then None else parse_digits s 0.

Fixpoint print_digits (fuel : nat) (n : N) (acc : string) : string :=
  match fuel with
  | O => acc
  | S fuel' =>
      let acc := String (ascii_of_N (48 + n mod 10)) acc in
      if (n <? 10)%N then acc else print_digits fuel' (n / 10)%N acc
  end.
Definition print_number (n : N) : string := print_digits 20 n EmptyString.

Fixpoint split_dots (s : string) (cur : string) : list string :=
  match s with
  | EmptyString => [cur]
  | String a s' =>
      if bool_decide (a = "."%char) then cur :: split_dots s' EmptyString
      else split_dots s' (cur +:+ String a EmptyString)
  end.

(** Modelled from the spec: [aToIPAddr] and [ipAddrToDottedIP] belong to
    EPICS Base; here a valid IPv4 address (section 6.2) is four decimal
    numbers below 256 separated by dots. *)
Definition parse_ipv4 (s : string) : option N :=
  match parse_number <$> split_dots s EmptyString with
  | [Some a; Some b; Some c; Some d] =>
      if (a <? 256)%N && (b <? 256)%N && (c <? 256)%N && (d <? 256)%N
      then Some (((a * 256 + b) * 256 + c) * 256 + d)%N
      else None
  | _ => None
  end.
Definition print_ipv4 (n : N) : string :=
  print_number (n / 2 ^ 24 mod 256) +:+ "." +:+
  print_number (n / 2 ^ 16 mod 256) +:+ "." +:+
  print_number (n / 2 ^ 8 mod 256) +:+ "." +:+
  print_number (n mod 256).

(** Modelled from the spec: [lexical_cast<unsigned short>] (in [utilpvt.h],
    not among the sources) reads an unsigned 16-bit number (section 6.2). *)
Definition parse_ushort (s : string) : option N :=
  n ← parse_number s; if (n <? 65536)%N then Some n else None.

(** Modelled from the spec: the default-constructed [Config] of
    [pvxs/server.h], not among the sources, with the ports of the PVA
    protocol. *)
Definition default_config : Server.Config :=
  {| Server.interfaces := []; Server.beaconDestinations := [];
     Server.tcp_port := 5075; Server.udp_port := 5076;
     Server.auto_beacon := true;
     Server.guid := Vector.const x00 12 |}.

Definition platform : Server.Platform :=
  {| Server.Config_default := default_config;
     Server.aToIPAddr := parse_ipv4;
     Server.ipAddrToDottedIP := print_ipv4;
     Server.lexical_cast_ushort := parse_ushort;
     Server.what := λ s, "bad lexical_cast of '" +:+ s +:+ "'";
     Server.regex_max := 0x4000 |}.

(** Modelled from the spec: the wire form of a [BitMask] ([bitmask.cpp] is
    not among the sources) is that of a bit set in the PVA protocol: the
    number of bytes as a [Size], then the bytes, the bit [i] of the mask
    being the bit [i mod 8] of the byte [i / 8] (the mask with only bit 2
    set is the byte [0x04], as in section 9 of the specification). *)
Definition bits_value (l : list bool) : N :=
  foldr (λ (b : bool) acc, (if b then 1 else 0) + 2 * acc)%N 0%N l.
Fixpoint mask_bytes (fuel : nat) (m : list bool) : list byte :=
  match fuel with
  | O => []
  | S fuel' =>
      match m with
      | [] => []
      | _ => byte_of_N (bits_value (take 8 m)) :: mask_bytes fuel' (drop 8 m)
      end
  end.
Definition byte_bits (b : byte) : list bool :=
  (λ i, N.testbit (Byte.to_N b) (N.of_nat i)) <$> seq 0 8.
Definition to_wire_mask (m : list bool) (buf : Buffer) : Buffer :=
  let bs := mask_bytes (length m) m in
  put bs (to_wire_Size (N.of_nat (length bs)) buf).
Definition from_wire_mask (m : list bool) (buf : Buffer)
  : Buffer * list bool :=
  let '(b1, n) := from_wire_Size 0 buf in
  if faulted b1 then (b1, m)
  else
    match get (N.to_nat n) b1 with
    | (b2, Some bs) => (b2, mjoin (byte_bits <$> bs))
    | (b2, None) => (b2, m)
    end.
Definition mask_wire : DeltaCodec.BitMaskWire :=
  {| DeltaCodec.to_wire_BitMask := to_wire_mask;
     DeltaCodec.from_wire_BitMask := from_wire_mask |}.

End Sample.

(** ** Vocabulary of the statements *)
Module Spec.
Import Wire.

(** The nodes decoded from a type stream by a fresh context, when the
    decoder ends without a fault. *)
Definition decode_types `{SH : StdHash} (bs : list byte) : option (list FieldDesc) :=
  match TypeCodec.from_wire (in_buffer true bs)
          {| TypeCodec.descs := []; TypeCodec.cache := ∅ |} 0 with
  | Ok (b, c) => if good b then Some (TypeCodec.descs c) else None
  | Err _ => None
  end.

(** What the [mlookup] of the node at position [p] gives for [path]. *)
Definition path_index (ds : list FieldDesc) (p : nat) (path : string)
  : option nat :=
  d ← ds !! p; mlookup d !! path.

(** The identifiers of the names of a search that are claimed in [ns], in
    the order of the names. *)
Definition claimed_ids (names : list (N * string)) (ns : list (string * bool))
  : list N :=
  (λ e : N * string * (string * bool), e.1.1)
    <$> filter (λ e : N * string * (string * bool), e.2.2 = true) (zip names ns).

(** The claims after every Source of the registry has seen a search. *)
Definition claims (pvt : Server.Pvt) (msg : Server.Search)
  : list (string * bool) :=
  (Server.run_sources (Server.registry_order (Server.sources pvt))
     ((λ n, (n.2, false)) <$> Server.names msg, [])).1.

(** The header of a server message in big-endian byte order. *)
Definition header (cmd : N) (len : nat) : list byte :=
  [xca; Server.pva_version_server; xc0; byte_of_N cmd]
  ++ int_bytes true 4 (N.of_nat len).

(** The body of a search reply: GUID, search identifier, wildcard address,
    TCP port, transport, "found" flag, count, identifiers. *)
Definition search_reply_body (cfg : Server.Config) (searchID : N)
    (ids : list N) : list byte :=
  vec_to_list (Server.guid cfg)
  ++ int_bytes true 4 searchID
  ++ Server.SockAddr_any_wire
  ++ int_bytes true 2 (Server.tcp_port cfg)
  ++ [x03; "t"; "c"; "p"]%byte
  ++ [if bool_decide (ids = []) then x00 else x01]
  ++ int_bytes true 2 (N.of_nat (length ids))
  ++ mjoin (int_bytes true 4 <$> ids).

(** The node the type decoder makes of a code whose description is a single
    node. *)
Definition scalar_node (c : N) : FieldDesc :=
  set_num_index 1 (set_hash c (set_code c FieldDesc_new)).

(** The codes whose description is a single node: the scalars, [Any] and
    the arrays of these. *)
Definition leaf_codes : list N :=
  [TypeCode.Bool; TypeCode.Int8; TypeCode.Int16; TypeCode.Int32;
   TypeCode.Int64; TypeCode.UInt8; TypeCode.UInt16; TypeCode.UInt32;
   TypeCode.UInt64; TypeCode.Float32; TypeCode.Float64; TypeCode.String;
   TypeCode.Any;
   TypeCode.BoolA; TypeCode.Int8A; TypeCode.Int16A; TypeCode.Int32A;
   TypeCode.Int64A; TypeCode.UInt8A; TypeCode.UInt16A; TypeCode.UInt32A;
   TypeCode.UInt64A; TypeCode.Float32A; TypeCode.Float64A; TypeCode.StringA;
   TypeCode.AnyA].

(** The type bytes [tail] inside [k] nested cache definitions, each under
    the key 0. *)
Fixpoint nested_defines (k : nat) (tail : list byte) : list byte :=
  match k with
  | O => tail
  | S k' => [xfd; x00; x00] ++ nested_defines k' tail
  end.

(** Two storage cells of the same [StoreType]. *)
Definition same_category (a b : Data.FieldStorage) : bool :=
  match a, b with
  | Data.Store_Null, Data.Store_Null
  | Data.Store_Real _, Data.Store_Real _
  | Data.Store_Integer _, Data.Store_Integer _
  | Data.Store_UInteger _, Data.Store_UInteger _
  | Data.Store_String _, Data.Store_String _
  | Data.Store_Compound _, Data.Store_Compound _
  | Data.Store_Array _, Data.Store_Array _ => true
  | _, _ => false
  end.

(** The cell a scalar cell becomes when nothing can be read for it: the
    numbers become 0, a string stays. *)
Definition unread (c : Data.FieldStorage) : Data.FieldStorage :=
  match c with
  | Data.Store_Real _ => Data.Store_Real 0
  | Data.Store_Integer _ => Data.Store_Integer 0
  | Data.Store_UInteger _ => Data.Store_UInteger 0
  | _ => c
  end.


(** The bytes of a [Size] and of a string. *)
Definition Size_bytes (big : bool) (n : N) : list byte :=
  if (n <? 254)%N then int_bytes big 1 n
  else if (n =? size_null)%N then int_bytes big 1 255
  else if (n <? 0x7fffffff)%N then int_bytes big 1 254 ++ int_bytes big 4 n
  else int_bytes big 1 254 ++ int_bytes big 4 0x7fffffff ++ int_bytes big 8 n.
Definition string_bytes (big : bool) (s : string) : list byte :=
  Size_bytes big (N.of_nat (length (list_byte_of_string s)))
  ++ list_byte_of_string s.

(** The type stream of a Struct or Union (of code [c] and identifier
    [ident]) whose members, given by name and code, all have a single-node
    description. *)
Definition member_bytes (big : bool) (m : string * N) : list byte :=
  string_bytes big m.1 ++ [byte_of_N m.2].
Definition flat_bytes (big : bool) (c : N) (ident : string)
    (ms : list (string * N)) : list byte :=
  [byte_of_N c] ++ string_bytes big ident
  ++ Size_bytes big (N.of_nat (length ms))
  ++ mjoin (member_bytes big <$> ms).

(** An entry [mem] of the [miter] of the node at [cur] stands for the
    member [m], given by name and code: the names are the same, the code has
    a single-node description, and it is the code of the node the entry
    points to. *)
Definition member_of (ds : list FieldDesc) (cur : nat) (mem : string * nat)
    (m : string * N) : Prop :=
  mem.1 = m.1
  ∧ m.2 ∈ leaf_codes
  ∧ ∃ md, ds !! (cur + mem.2) = Some md ∧ code md = m.2.

(** The node of such a Struct or Union after its members have been
    decoded: the member at position [i] of the list is recorded under its
    name with the relative index [i + 1], in [miter] and in [mlookup], and
    its name and code are mixed into the hash. *)
Fixpoint add_members `{SH : StdHash} (fld : FieldDesc) (i : nat)
    (ms : list (string * N)) : FieldDesc :=
  match ms with
  | [] => fld
  | m :: ms' =>
      add_members
        (set_mlookup (<[m.1 := i]> (mlookup fld))
           (set_miter (miter fld ++ [(m.1, i)])
              (set_hash (N.lxor (hash fld) (N.lxor (std_hash m.1) m.2)) fld)))
        (S i) ms'
  end.
Definition flat_root `{SH : StdHash} (c : N) (ident : string)
    (ms : list (string * N)) : FieldDesc :=
  set_num_index (S (length ms))
    (add_members
       (set_hash (N.lxor c (std_hash ident))
          (set_id ident (set_hash c (set_code c FieldDesc_new))))
       1 ms).

(** The value an environment variable gives to a port: the number it
    holds, or [dflt] when it is not a number. *)
Definition port_of `{PF : Server.Platform} (dflt : N)
    (picked : option (string * string)) : N :=
  match picked with
  | Some (_, env) => default dflt (Server.lexical_cast_ushort env)
  | None => dflt
  end.

End Spec.

(** ** Concrete inputs *)
Module Examples.
Import Wire Data.

(** A single-node description. *)
Definition leaf (c : N) : FieldDesc :=
  {| id := ""; mlookup := ∅; miter := []; hash := c;
     offset := 0; next_offset := 1; num_index := 1; code := c |}.

(** A Value of a single-node type holding [cell]. *)
Definition single (c : N) (cell : FieldStorage) : Value :=
  Value_ref [leaf c] 0 (mkTop [0] [cell]) 0.

(** The type stream of [struct { struct { struct { int32 x; } C; } B; }]:
    nodes 0, 1 and 2 are the Structs, node 3 is [x]. *)
Definition nested3 : list byte :=
  [x80; x00; x01; x01; x42;
   x80; x00; x01; x01; x43;
   x80; x00; x01; x01; x78; x22].

(** A cache reference to key 7, and a cache that binds key 7. *)
Definition ref7 : Buffer := in_buffer true [xfe; x00; x07].
Definition ref8 : Buffer := in_buffer true [xfe; x00; x08].
Definition cache7 : TypeCodec.TypeDeserContext :=
  {| TypeCodec.descs := [leaf TypeCode.String];
     TypeCodec.cache := {[ 7%N := [leaf TypeCode.Int32] ]} |}.

(** Values of single-node types. *)
Definition bools : Value :=
  single TypeCode.BoolA (Store_Array (Array_bool [true])).
Definition bools_fresh : Value :=
  single TypeCode.BoolA (Store_Array Array_empty).
Definition byte200 : Value := single TypeCode.UInt8 (Store_UInteger 200).
Definition byte_fresh : Value := single TypeCode.UInt8 (Store_UInteger 0).
Definition ints : Value :=
  single TypeCode.Int32A (Store_Array (Array_int 4 [1%N])).
Definition any_array : Value :=
  single TypeCode.AnyA (Store_Array Array_empty).

(** An empty array of [union { int32 a; }], and an empty array of a Struct
    without members. *)
Definition union_descs : list FieldDesc :=
  Sample.calculate_offset
    [ {| id := ""; mlookup := ∅; miter := []; hash := 0;
         offset := 0; next_offset := 0; num_index := 3;
         code := TypeCode.UnionA |};
      {| id := ""; mlookup := {[ "a" := 1 ]}; miter := [("a", 1)]; hash := 0;
         offset := 0; next_offset := 0; num_index := 2;
         code := TypeCode.Union |};
      leaf TypeCode.Int32 ].
Definition union_array : Value :=
  Value_ref union_descs 0 (mkTop [0] [Store_Array Array_empty]) 0.
Definition struct_descs : list FieldDesc :=
  Sample.calculate_offset
    [ {| id := ""; mlookup := ∅; miter := []; hash := 0;
         offset := 0; next_offset := 0; num_index := 2;
         code := TypeCode.StructA |};
      {| id := ""; mlookup := ∅; miter := []; hash := 0;
         offset := 0; next_offset := 0; num_index := 1;
         code := TypeCode.Struct |} ].
Definition struct_array : Value :=
  Value_ref struct_descs 0 (mkTop [0] [Store_Array Array_empty]) 0.

(** A Source that claims the name ["yyy"], a server that has it in its
    registry, and a search for two names. *)
Definition source_yyy : Server.Source :=
  {| Server.onSearch := λ ns, ((λ n, bool_decide (n = "yyy")) <$> ns, None) |}.
Definition server : Server.Pvt :=
  {| Server.effective := Sample.default_config;
     Server.sources := {[ (0%Z, "db") := source_yyy ]};
     Server.searchOp_names := [];
     Server.beaconMsg := replicate 128 x00;
     Server.beaconMsg_data := 0x10000;
     Server.searchReply := replicate (N.to_nat 0x10000) x00;
     Server.searchReply_data := 0x20000;
     Server.beaconDest := ["10.0.0.255"] |}.
Definition search : Server.Search :=
  {| Server.src := "10.0.0.7"; Server.searchID := 0x11223344;
     Server.mustReply := false;
     Server.names := [(1%N, "xxx"); (2%N, "yyy")] |}.

(** An environment whose interface list starts with an entry that is not
    an address, and one with two addresses and a port that is not a
    number. *)
Definition env_bogus (name : string) : option string :=
  if bool_decide (name = "EPICS_PVAS_INTF_ADDR_LIST") then Some "bogus 10.0.0.2"
  else None.
Definition env_valid (name : string) : option string :=
  if bool_decide (name = "EPICS_PVAS_INTF_ADDR_LIST")
  then Some "10.0.0.1  10.0.0.2"
  else if bool_decide (name = "EPICS_PVA_SERVER_PORT") then Some "pva"
  else None.

(** The type [struct { int32 a; int32 b; }] and a Value of it that holds
    [a = 99] and [b = 0]. *)
Definition pair_descs : list FieldDesc :=
  Sample.calculate_offset
    [ {| id := ""; mlookup := {[ "a" := 1; "b" := 2 ]};
         miter := [("a", 1); ("b", 2)]; hash := 0;
         offset := 0; next_offset := 0; num_index := 3;
         code := TypeCode.Struct |};
      leaf TypeCode.Int32;
      leaf TypeCode.Int32 ].
Definition pair_top (a b : Z) : StructTop :=
  mkTop [0; 1; 2] [Store_Null; Store_Integer a; Store_Integer b].
Definition pair_value (a b : Z) : Value :=
  Value_ref pair_descs 0 (pair_top a b) 0.

(** A Union cell of the type [union { int32 a; }] (the node at position 1
    of [union_descs]) that holds nothing, and one that holds its member. *)
Definition union_member (i : Z) : Value :=
  Value_ref union_descs 2 (mkTop [0] [Store_Integer i]) 0.
Definition union_top (v : Value) : StructTop := mkTop [0] [Store_Compound v].

(** A server with the message vectors of a few bytes. *)
Definition small_server : Server.Pvt :=
  {| Server.effective := Sample.default_config;
     Server.sources := ∅;
     Server.searchOp_names := [];
     Server.beaconMsg := replicate 64 x00;
     Server.beaconMsg_data := 0x1000;
     Server.searchReply := replicate 64 x00;
     Server.searchReply_data := 0x2000;
     Server.beaconDest := ["10.0.0.255"] |}.

End Examples.

(** * Properties *)

(** ** The primitive encodings *)
Section WireFacts.
Import Wire.

Lemma drop_length_le {A} (l : list A) (n : nat) (pre rest : list A) :
  pre ≠ [] → drop n l = pre ++ rest → n + length pre ≤ length l.
Proof.
  intros NE E.
  assert (L : length (drop n l) = length (pre ++ rest)) by (by rewrite E).
  rewrite length_drop, length_app in L.
  destruct pre as [|x pre]; [done|]. simpl in *. lia.
Qed.

(** Reading the bytes that lie at the cursor. *)
Lemma get_at (b : Buffer) (bs rest : list byte) :
  faulted b = false → bs ≠ [] → drop (pos b) (data b) = bs ++ rest →
  get (length bs) b = (advance (length bs) b, Some bs).
Proof.
  intros F NE E. unfold get. rewrite F.
  pose proof (drop_length_le _ _ _ _ NE E) as L.
  unfold ensure.
  destruct (Nat.leb_spec (pos b + length bs) (length (data b))) as [_|?]; [|lia].
  by rewrite E, take_app_length.
Qed.

Lemma from_wire_uint_at (w : nat) (dflt : N) (b : Buffer) (bs rest : list byte) :
  faulted b = false → length bs = w → w ≠ 0 →
  drop (pos b) (data b) = bs ++ rest →
  from_wire_uint w dflt b = (advance w b, int_value (be b) bs).
Proof.
  intros F L W E. unfold from_wire_uint. subst w.
  rewrite (get_at b bs rest); auto. by destruct bs.
Qed.

Lemma from_wire_byte_at (dflt : N) (b : Buffer) (x : byte) (rest : list byte) :
  faulted b = false → drop (pos b) (data b) = x :: rest →
  from_wire_uint 1 dflt b = (advance 1 b, Byte.to_N x).
Proof.
  intros F E.
  rewrite (from_wire_uint_at 1 dflt b [x] rest) by done.
  f_equal. unfold int_value. destruct (be b); simpl; lia.
Qed.

Lemma drop_advance (n : nat) (b : Buffer) (bs rest : list byte) :
  length bs = n → drop (pos b) (data b) = bs ++ rest →
  drop (pos (advance n b)) (data (advance n b)) = rest.
Proof.
  intros L E. simpl. rewrite <- drop_drop, E. subst n. by rewrite drop_app_length.
Qed.

Lemma advance_advance (n m : nat) (b : Buffer) :
  advance m (advance n b) = advance (n + m) b.
Proof. unfold advance. simpl. f_equal. lia. Qed.

Lemma length_le_bytes (w : nat) (v : N) : length (le_bytes w v) = w.
Proof. revert v. induction w as [|w IH]; intros v; simpl; [done|]. by rewrite IH. Qed.

Lemma length_int_bytes (big : bool) (w : nat) (v : N) :
  length (int_bytes big w v) = w.
Proof.
  unfold int_bytes. destruct big; [rewrite length_rev|]; apply length_le_bytes.
Qed.

Lemma Wrote_start (d : list byte) :
  Wrote (length d) [] {| be := true; data := d; pos := 0; faulted := false |}.
Proof. by repeat split. Qed.

Lemma Wrote_put (n : nat) (w bs : list byte) (b : Buffer) :
  Wrote n w b → length w + length bs ≤ n → Wrote n (w ++ bs) (put bs b).
Proof.
  intros (B & F & L & P & W) Fit. unfold written in W. unfold put, ensure.
  rewrite F.
  destruct (Nat.leb_spec (pos b + length bs) (length (data b))) as [_|?]; [|lia].
  unfold Wrote, written. simpl. repeat split; try done.
  - rewrite !length_app, length_take, length_drop. lia.
  - rewrite length_app. lia.
  - rewrite W, app_assoc. apply take_app_length'.
    rewrite length_app. lia.
Qed.

Lemma Wrote_uint (n : nat) (w : list byte) (b : Buffer) (k : nat) (v : N) :
  Wrote n w b → length w + k ≤ n →
  Wrote n (w ++ int_bytes true k v) (to_wire_uint k v b).
Proof.
  intros Wr Fit. unfold to_wire_uint.
  replace (be b) with true by (symmetry; apply Wr).
  apply Wrote_put; [done|]. by rewrite length_int_bytes.
Qed.

(** Skipped bytes keep what the region held. *)
Lemma Wrote_skip (n : nat) (w : list byte) (b : Buffer) (k : nat) :
  Wrote n w b → length w + k ≤ n →
  ∃ old, length old = k
         ∧ old = take k (drop (length w) (data b))
         ∧ data (skip k b) = data b
         ∧ Wrote n (w ++ old) (skip k b).
Proof.
  intros (B & F & L & P & W) Fit. unfold written in W. unfold skip, ensure.
  rewrite F.
  destruct (Nat.leb_spec (pos b + k) (length (data b))) as [_|?]; [|lia].
  exists (take k (drop (length w) (data b))).
  assert (Lo : length (take k (drop (length w) (data b))) = k)
    by (rewrite length_take, length_drop; lia).
  repeat split; try done.
  unfold Wrote, written. simpl. repeat split; try done.
  - rewrite length_app, Lo. lia.
  - rewrite <- P, <- W. symmetry. apply take_take_drop.
Qed.

Lemma Wrote_tcp (n : nat) (w : list byte) (b : Buffer) :
  Wrote n w b → length w + 4 ≤ n →
  Wrote n (w ++ [x03; "t"; "c"; "p"]%byte) (to_wire_string "tcp" b).
Proof.
  intros Wr Fit. unfold to_wire_string.
  change (list_byte_of_string "tcp") with ["t"; "c"; "p"]%byte.
  change (to_wire_Size (N.of_nat (length ["t"; "c"; "p"]%byte)) b)
    with (to_wire_uint 1 3 b).
  change (w ++ [x03; "t"; "c"; "p"]%byte)
    with (w ++ [x03] ++ ["t"; "c"; "p"]%byte).
  rewrite app_assoc. apply Wrote_put.
  - apply (Wrote_uint n w b 1 3 Wr). lia.
  - rewrite length_app. simpl. lia.
Qed.

(** What a good buffer has written is the start of its region. *)
Lemma Wrote_data (n : nat) (w : list byte) (b : Buffer) :
  Wrote n w b → take (length w) (data b) = w ∧ good b = true ∧ pos b = length w.
Proof.
  intros (B & F & L & P & W). unfold written in W. unfold good.
  rewrite <- P, F. done.
Qed.

(** Reading back what was written. *)
Lemma to_N_byte_of_N (v : N) : Byte.to_N (byte_of_N v) = (v mod 256)%N.
Proof.
  unfold byte_of_N.
  destruct (Byte.of_N (v mod 256)) as [b|] eqn:E.
  - by apply Byte.to_of_N.
  - apply Byte.of_N_None_iff in E. pose proof (N.mod_lt v 256). lia.
Qed.

Lemma le_value_le_bytes (w : nat) (v : N) :
  le_value (le_bytes w v) = (v mod 256 ^ N.of_nat w)%N.
Proof.
  revert v. induction w as [|w IH]; intros v.
  - simpl. by rewrite N.mod_1_r.
  - cbn [le_bytes le_value]. rewrite IH, to_N_byte_of_N.
    replace (256 ^ N.of_nat (S w))%N with (256 * 256 ^ N.of_nat w)%N
      by (rewrite Nat2N.inj_succ, N.pow_succ_r'; lia).
    rewrite N.Div0.mod_mul_r. lia.
Qed.

Lemma int_value_int_bytes (big : bool) (w : nat) (v : N) :
  int_value big (int_bytes big w v) = (v mod 256 ^ N.of_nat w)%N.
Proof.
  unfold int_value, int_bytes. destruct big; [rewrite rev_involutive|];
    apply le_value_le_bytes.
Qed.
Lemma put_out_buffer (big : bool) (bs : list byte) :
  put bs (out_buffer big (length bs))
  = {| be := big; data := bs; pos := length bs; faulted := false |}.
Proof.
  unfold put, ensure, out_buffer. simpl. rewrite length_replicate.
  rewrite Nat.leb_refl. f_equal.
  rewrite drop_ge by (rewrite length_replicate; lia). apply app_nil_r.
Qed.

Lemma from_wire_uint_in_buffer (big : bool) (bs : list byte) (dflt : N) :
  bs ≠ [] →
  from_wire_uint (length bs) dflt (in_buffer big bs)
  = (advance (length bs) (in_buffer big bs), int_value big bs).
Proof.
  intros NE.
  apply (from_wire_uint_at (length bs) dflt (in_buffer big bs) bs []);
    [done|done|by destruct bs|].
  simpl. by rewrite app_nil_r.
Qed.

End WireFacts.

(** ** Type decoding *)
Section TypeDecodeFacts.
Import Wire TypeCodec.
Context `{SH : StdHash}.

(** The decoder at a depth of at most 20 is its body over the decoder one
    level deeper. *)
Lemma from_wire_unfold (buf : Buffer) (ctxt : TypeDeserContext) (depth : nat) :
  depth ≤ 20 →
  from_wire buf ctxt depth
  = from_wire_body (λ b c, from_wire b c (depth + 1)) buf ctxt.
Proof.
  intros D. unfold from_wire.
  replace (21 - depth) with (S (21 - (depth + 1))) by lia. done.
Qed.

(** Beyond depth 20 the decoder only sets the fault flag. *)
Lemma from_wire_too_deep (buf : Buffer) (ctxt : TypeDeserContext) (depth : nat) :
  20 < depth → from_wire buf ctxt depth = Ok (fault buf, ctxt).
Proof.
  intros D. unfold from_wire. by replace (21 - depth) with 0 by lia.
Qed.

(** C5. A cache reference: the type byte [0xFE] and a 16-bit key. When the
    key is not bound in the cache, or bound to an empty vector, the decoder
    sets the fault flag and leaves the destination vector (and the cache) as
    they are; when it is bound to a non-empty vector, the decoder appends a
    copy of it to the destination vector, without a fault, having read the
    three bytes. *)
Theorem cache_ref_decode (buf : Buffer) (ctxt : TypeDeserContext)
    (depth : nat) (k0 k1 : byte) (rest : list byte) :
  faulted buf = false →
  depth ≤ 20 →
  drop (pos buf) (data buf) = xfe :: k0 :: k1 :: rest →
  match cache ctxt !! int_value (be buf) [k0; k1] with
  | Some (d :: entry) =>
      from_wire buf ctxt depth
      = Ok (advance 3 buf,
            {| descs := descs ctxt ++ d :: entry; cache := cache ctxt |})
  | _ =>
      ∃ buf', from_wire buf ctxt depth = Ok (buf', ctxt) ∧ faulted buf' = true
  end.
Proof.
  intros F D E.
  rewrite from_wire_unfold by done. unfold from_wire_body, good.
  rewrite F. simpl negb. cbv iota.
  rewrite (from_wire_byte_at _ buf xfe (k0 :: k1 :: rest)) by done.
  change (Byte.to_N xfe) with 254%N.
  rewrite (bool_decide_eq_false_2 (254%N = TypeCode.Null)) by done.
  rewrite (bool_decide_eq_false_2 (254%N = 253%N)) by done.
  rewrite (bool_decide_eq_true_2 (254%N = 254%N)) by done.
  assert (E1 : drop (pos (advance 1 buf)) (data (advance 1 buf))
               = [k0; k1] ++ rest)
    by (by apply (drop_advance 1 buf [xfe])).
  rewrite (from_wire_uint_at 2 0 (advance 1 buf) [k0; k1] rest) by done.
  rewrite advance_advance. change (be (advance 1 buf)) with (be buf).
  destruct (cache ctxt !! int_value (be buf) [k0; k1]) as [[|d entry]|].
  - exists (fault (advance 3 buf)). split; [|done].
    rewrite (bool_decide_eq_true_2 _ (eq_refl ([] : list FieldDesc))).
    by rewrite orb_true_r.
  - rewrite (bool_decide_eq_false_2 (d :: entry = [])) by done.
    simpl. by rewrite take_ge by done.
  - by exists (fault (advance 3 buf)).
Qed.

(** The entries copied from a child Struct are stored under the child's
    position in the vector plus the child's own relative index. *)
Lemma copy_descendants_lookup (name : string) (cindex : nat)
    (cmap fmap : gmap string nat) (sub : string) (rel : nat) :
  cmap !! sub = Some rel →
  copy_descendants name cindex cmap fmap !! (name +:+ sub) = Some (cindex + rel).
Proof.
  unfold copy_descendants. revert sub rel.
  apply (map_fold_weak_ind
           (λ r m, ∀ sub rel, m !! sub = Some rel →
                              r !! (name +:+ sub) = Some (cindex + rel))).
  - intros sub rel E. by rewrite lookup_empty in E.
  - intros i x m r Hi IH sub rel E.
    destruct (decide (sub = i)) as [->|N].
    + rewrite lookup_insert_eq in E. injection E as ->.
      by rewrite lookup_insert_eq.
    + rewrite lookup_insert_ne in E by done.
      rewrite lookup_insert_ne; [by apply IH|].
      intros A. apply N. symmetry.
      revert A. clear. induction name as [|a name IH]; simpl; [done|].
      intros A. injection A. apply IH.
Qed.

(** C4, evaluated on the type stream of three nested Structs. The decoder
    ends without a fault and gives four nodes. In the Struct at position 1
    the path ["C.x"] has to give 2, the distance from position 1 to [x] at
    position 3 (1 to the child [C], plus 1 from [C] to [x]); the decoder
    stores 3. In the Struct at position 0 the path ["B.C.x"] has to give 3;
    the decoder stores 4, which is past the end of the vector. *)
Theorem mlookup_flatten_nested :
  code <$> default [] (Spec.decode_types Examples.nested3)
  = [TypeCode.Struct; TypeCode.Struct; TypeCode.Struct; TypeCode.Int32] ∧
  (ds ← Spec.decode_types Examples.nested3; Spec.path_index ds 2 "x")
  = Some 1 ∧
  (ds ← Spec.decode_types Examples.nested3; Spec.path_index ds 1 "C")
  = Some 1 ∧
  (ds ← Spec.decode_types Examples.nested3; Spec.path_index ds 1 "C.x")
  = Some 3 ∧
  (ds ← Spec.decode_types Examples.nested3; Spec.path_index ds 0 "B.C.x")
  = Some 4.
Proof. repeat split; vm_compute; reflexivity. Qed.

End TypeDecodeFacts.

Section TypeDecodeWitness.
Import Wire TypeCodec.

(** The cache reference to key 7, which the cache binds to one node, and
    the reference to key 8, which it does not bind. *)
Lemma cache_ref_decode_witness :
  (faulted Examples.ref7 = false ∧ 0 ≤ 20 ∧
   drop (pos Examples.ref7) (data Examples.ref7) = [xfe; x00; x07]) ∧
  from_wire (SH := Sample.string_hash) Examples.ref7 Examples.cache7 0
  = Ok (advance 3 Examples.ref7,
        {| descs := [Examples.leaf TypeCode.String; Examples.leaf TypeCode.Int32];
           cache := cache Examples.cache7 |}) ∧
  ∃ buf', from_wire (SH := Sample.string_hash) Examples.ref8 Examples.cache7 0
          = Ok (buf', Examples.cache7)
          ∧ faulted buf' = true.
Proof.
  split; [split; [done|split; [lia|done]]|]. split.
  - exact (cache_ref_decode (SH := Sample.string_hash)
             Examples.ref7 Examples.cache7 0 x00 x07 []
             eq_refl (Nat.le_0_l 20) eq_refl).
  - exact (cache_ref_decode (SH := Sample.string_hash)
             Examples.ref8 Examples.cache7 0 x00 x08 []
             eq_refl (Nat.le_0_l 20) eq_refl).
Defined.

End TypeDecodeWitness.

(** ** Value encoding and decoding *)
Section ValueFacts.
Import Wire Data ValueCodec.
Context `{BM : BuildMode} `{SH : StdHash} `{VI : ValueImpl}.

(** C2. For an Array cell whose code is an array of integers or of floating
    point numbers the encoder takes none of its cases (they name the scalar
    codes [Int8], [UInt8], ... instead of [Int8A], [UInt8A], ...) and ends
    at [assert(false)]: the assertion fails, or, when assertions are
    compiled out, the fault flag is set and nothing is written. *)
Theorem numeric_array_encode_fails (n : nat) (buf : Buffer)
    (ds : list FieldDesc) (dpos : nat) (top : StructTop) (spos : nat)
    (d : FieldDesc) (a : shared_array) :
  members top !! spos = Some (Store_Array a) →
  ds !! dpos = Some d →
  code d ∈ TypeCode.numeric_array_codes →
  to_wire_field (S n) buf ds dpos top spos
  = if NDEBUG then Ok (fault buf) else Err AssertFailed.
Proof.
  intros Hs Hd Hc. simpl. unfold at_index. rewrite Hs, Hd. simpl.
  unfold TypeCode.numeric_array_codes in Hc.
  repeat (apply elem_of_cons in Hc as [->|Hc]);
    [..|by apply elem_of_nil in Hc];
    unfold assert_; destruct NDEBUG; reflexivity.
Qed.

(** For [BoolA] and [StringA] the encoder does write the length and the
    elements, a Bool as one byte. *)
Lemma bool_array_encode (n : nat) (buf : Buffer)
    (ds : list FieldDesc) (dpos : nat) (top : StructTop) (spos : nat)
    (d : FieldDesc) (l : list bool) :
  members top !! spos = Some (Store_Array (Array_bool l)) →
  ds !! dpos = Some d →
  code d = TypeCode.BoolA →
  to_wire_field (S n) buf ds dpos top spos
  = Ok (foldl (λ b (e : bool), to_wire_uint 1 (if e then 1 else 0)%N b)
          (to_wire_Size (N.of_nat (length l)) buf) l).
Proof.
  intros Hs Hd Hc. simpl. unfold at_index. rewrite Hs, Hd. simpl.
  by rewrite Hc.
Qed.

Lemma string_array_encode (n : nat) (buf : Buffer)
    (ds : list FieldDesc) (dpos : nat) (top : StructTop) (spos : nat)
    (d : FieldDesc) (l : list string) :
  members top !! spos = Some (Store_Array (Array_string l)) →
  ds !! dpos = Some d →
  code d = TypeCode.StringA →
  to_wire_field (S n) buf ds dpos top spos
  = Ok (foldl (λ b e, to_wire_string e b)
          (to_wire_Size (N.of_nat (length l)) buf) l).
Proof.
  intros Hs Hd Hc. simpl. unfold at_index. rewrite Hs, Hd. simpl.
  by rewrite Hc.
Qed.

(** A request for an array is granted below the null length. *)
Lemma new_array_spec (n : N) :
  new_array n = if (n <? size_null)%N then Ok () else Err BadAlloc.
Proof.
  unfold new_array, max_size.
  destruct (N.ltb_spec (size_null - 1) n) as [L|L],
           (N.ltb_spec n size_null) as [E|E]; try done; exfalso;
    unfold size_null in *; lia.
Qed.

(** The decoder of an array of scalars reads the length and the elements
    and leaves the storage as it was: the array it fills is local. When the
    length is the null sentinel the array cannot be allocated. *)
Lemma scalar_array_decode_keeps (n : nat) (buf : Buffer) (ctxt : TypeStore)
    (ds : list FieldDesc) (dpos : nat) (top : StructTop) (spos : nat)
    (d : FieldDesc) (a : shared_array) :
  members top !! spos = Some (Store_Array a) →
  ds !! dpos = Some d →
  code d = TypeCode.BoolA ∨ code d = TypeCode.StringA →
  ∃ buf', from_wire_field (S n) buf ctxt ds dpos top spos
          = if ((from_wire_Size 0 buf).2 <? size_null)%N
            then Ok (buf', ctxt, top) else Err BadAlloc.
Proof.
  intros Hs Hd Hc. simpl. unfold at_index. rewrite Hs, Hd. simpl.
  assert (K : set_cell top spos (Store_Array a) = top).
  { destruct top as [mi ms]. unfold set_cell. simpl in *.
    by rewrite list_insert_id. }
  destruct Hc as [-> | ->]; simpl; unfold from_wire_array;
    destruct (from_wire_Size 0 buf) as [b1 slen]; rewrite new_array_spec;
    simpl; destruct (slen <? size_null)%N; simpl; rewrite ?K; by eexists.
Qed.

(** C1, evaluated on two Values. A [BoolA] Value holding [[true]] is encoded
    as the length 1 and the byte 1; decoding these two bytes into a fresh
    [BoolA] Value reads both and leaves the fresh Value empty. A [UInt8]
    Value holding 200 is encoded as the byte [0xC8]; decoding it gives
    [2^64 - 56], the byte read as a signed number. *)
Theorem roundtrip_full_fails :
  (∃ b, to_wire_full 1 (out_buffer true 2) Examples.bools = Ok b
        ∧ faulted b = false ∧ data b = [x01; x01]) ∧
  from_wire_full 1 (in_buffer true [x01; x01]) ∅ Examples.bools_fresh
  = Ok (advance 2 (in_buffer true [x01; x01]), ∅, Examples.bools_fresh) ∧
  Examples.bools_fresh ≠ Examples.bools ∧
  (∃ b, to_wire_full 1 (out_buffer true 1) Examples.byte200 = Ok b
        ∧ faulted b = false ∧ data b = [xc8]) ∧
  from_wire_full 1 (in_buffer true [xc8]) ∅ Examples.byte_fresh
  = Ok (advance 1 (in_buffer true [xc8]), ∅,
        Examples.single TypeCode.UInt8 (Store_UInteger (2 ^ 64 - 56))).
Proof.
  split; [eexists; vm_compute; by repeat split|].
  split; [vm_compute; reflexivity|].
  split; [discriminate|].
  split; [eexists; vm_compute; by repeat split|].
  vm_compute; reflexivity.
Qed.

(** A value in the range of a [w]-byte signed integer is read back from
    its two's complement bytes. *)
Lemma signed_wrap (w : nat) (i : Z) :
  w ∈ [1; 2; 4; 8] →
  (- 2 ^ (8 * Z.of_nat w - 1) ≤ i < 2 ^ (8 * Z.of_nat w - 1))%Z →
  signed w (wrap w i mod 256 ^ N.of_nat w) = i.
Proof.
  intros Hw R. unfold signed, wrap.
  assert (P : (2 ^ (8 * Z.of_nat w) = 2 * 2 ^ (8 * Z.of_nat w - 1)
               ∧ Z.of_N (256 ^ N.of_nat w) = 2 ^ (8 * Z.of_nat w)
               ∧ 0 < 2 ^ (8 * Z.of_nat w - 1))%Z).
  { clear R. rewrite !elem_of_cons, elem_of_nil in Hw.
    destruct Hw as [->|[->|[->|[->|[]]]]]; by vm_compute. }
  set (m := (2 ^ (8 * Z.of_nat w))%Z) in *.
  set (h := (2 ^ (8 * Z.of_nat w - 1))%Z) in *.
  destruct P as (P & Q & Hh).
  assert (B : (0 ≤ i mod m < m)%Z) by (apply Z.mod_pos_bound; lia).
  rewrite N.mod_small by lia.
  rewrite Z2N.id by lia.
  destruct (Z.lt_ge_cases i 0) as [Neg|Pos].
  - assert (E : (i mod m = i + m)%Z).
    { rewrite <- (Z_mod_plus_full i 1 m). rewrite Z.mod_small; lia. }
    rewrite E. destruct (Z.ltb_spec (i + m) h); lia.
  - rewrite Z.mod_small by lia. destruct (Z.ltb_spec i h); lia.
Qed.

(** X1. What does hold of the round trip, for one kind of cell: a signed
    integer scalar whose value is in the range of its code is encoded and
    decoded to the same cell, in either byte order. *)
Lemma roundtrip_signed_scalar (big : bool) (w : nat) (c : N) (i : Z) :
  (w, c) ∈ [(1, TypeCode.Int8); (2, TypeCode.Int16);
            (4, TypeCode.Int32); (8, TypeCode.Int64)] →
  (- 2 ^ (8 * Z.of_nat w - 1) ≤ i < 2 ^ (8 * Z.of_nat w - 1))%Z →
  ∃ b, to_wire_full 1 (out_buffer big w) (Examples.single c (Store_Integer i))
       = Ok b
       ∧ faulted b = false
       ∧ from_wire_full 1 (in_buffer big (data b)) ∅
           (Examples.single c (Store_Integer 0))
         = Ok (advance w (in_buffer big (data b)), ∅,
               Examples.single c (Store_Integer i)).
Proof.
  intros Hc R.
  assert (Hw : w ∈ [1; 2; 4; 8]).
  { clear R. rewrite !elem_of_cons, elem_of_nil in Hc.
    destruct Hc as [Hc|[Hc|[Hc|[Hc|[]]]]]; injection Hc as -> ->;
      rewrite !elem_of_cons; lia. }
  exists {| be := big; data := int_bytes big w (wrap w i); pos := w;
            faulted := false |}.
  assert (E : to_wire_uint w (wrap w i) (out_buffer big w)
              = {| be := big; data := int_bytes big w (wrap w i); pos := w;
                   faulted := false |}).
  { unfold to_wire_uint. change (be (out_buffer big w)) with big.
    pose proof (put_out_buffer big (int_bytes big w (wrap w i))) as P.
    by rewrite length_int_bytes in P. }
  assert (D : from_wire_uint w 0 (in_buffer big (int_bytes big w (wrap w i)))
              = (advance w (in_buffer big (int_bytes big w (wrap w i))),
                 (wrap w i mod 256 ^ N.of_nat w)%N)).
  { pose proof (from_wire_uint_in_buffer big (int_bytes big w (wrap w i)) 0) as P.
    rewrite length_int_bytes, int_value_int_bytes in P. apply P.
    intros Z. apply (f_equal length) in Z. rewrite length_int_bytes in Z.
    simpl in Z. subst w. rewrite !elem_of_cons, elem_of_nil in Hw. lia. }
  pose proof (signed_wrap w i Hw R) as S.
  clear R Hw.
  rewrite !elem_of_cons, elem_of_nil in Hc.
  destruct Hc as [Hc|[Hc|[Hc|[Hc|[]]]]]; injection Hc as -> ->.
  all: split; [exact (f_equal Ok E)|]; split; [done|].
  all: cbn -[from_wire_uint signed is_code].
  all: repeat match goal with
         | |- context [is_code ?a ?b] =>
             let v := eval vm_compute in (is_code a b) in
             change (is_code a b) with v
         end.
  all: cbv iota; rewrite D; cbn -[signed]; by rewrite S.
Qed.

Lemma byte_zero (p : byte) : Byte.to_N p = 0%N ↔ p = x00.
Proof.
  split; [|by intros ->].
  intros E. pose proof (Byte.of_to_N p) as K. rewrite E in K.
  by injection K.
Qed.

(** The three array-of-compound cases of the decoder are the element loop
    over the bodies [structA_elem], [unionA_elem] and [anyA_elem]. *)
Lemma from_wire_field_elems (n : nat) (buf : Buffer) (ctxt : TypeStore)
    (ds : list FieldDesc) (dpos : nat) (top : StructTop) (spos : nat)
    (d : FieldDesc) (a : shared_array) :
  members top !! spos = Some (Store_Array a) →
  ds !! dpos = Some d →
  from_wire_field (S n) buf ctxt ds dpos top spos
  = if bool_decide (code d = TypeCode.StructA) then
      from_wire_elems (structA_elem (from_wire_full n) ds dpos) buf ctxt top spos
    else if bool_decide (code d = TypeCode.UnionA) then
      from_wire_elems (unionA_elem (from_wire_full n) ds dpos) buf ctxt top spos
    else if bool_decide (code d = TypeCode.AnyA) then
      from_wire_elems (anyA_elem (from_wire_full n)) buf ctxt top spos
    else from_wire_field (S n) buf ctxt ds dpos top spos.
Proof.
  intros Hs Hd.
  repeat case_bool_decide; try done;
    simpl; unfold at_index; rewrite Hs, Hd; simpl;
    match goal with E : code d = _ |- _ => rewrite E end; reflexivity.
Qed.

Section Elements.
Variable full : Buffer → TypeStore → Value → Res (Buffer * TypeStore * Value).

(** The test of the presence byte, common to the three element bodies. *)
Lemma presence_test (K : Buffer → Res (Buffer * TypeStore * option Value))
    (buf : Buffer) (ctxt : TypeStore) (p : byte) (rest : list byte) :
  faulted buf = false →
  drop (pos buf) (data buf) = p :: rest →
  (let '(b, present) := from_wire_uint 1 0 buf in
   if negb (present =? 0)%N then K b else Ok (b, ctxt, Some Value_null))
  = if bool_decide (p = x00) then Ok (advance 1 buf, ctxt, Some Value_null)
    else K (advance 1 buf).
Proof.
  intros F E. rewrite (from_wire_byte_at 0 buf p rest F E).
  case_bool_decide as P.
  - by subst p.
  - destruct (N.eqb_spec (Byte.to_N p) 0) as [Z|_]; [|done].
    by apply byte_zero in Z.
Qed.

End Elements.

End ValueFacts.

(** Evaluations on the concrete platform. *)
Section ValueEvaluations.
Import Wire Data ValueCodec.
#[local] Existing Instance Sample.debug.
#[local] Existing Instance Sample.string_hash.
#[local] Existing Instance Sample.impl.

(** An [Int32A] Value holding one element, with assertions compiled in. *)
Lemma numeric_array_encode_fails_witness :
  (members (mkTop [0] [Store_Array (Array_int 4 [1%N])]) !! 0
   = Some (Store_Array (Array_int 4 [1%N]))
   ∧ [Examples.leaf TypeCode.Int32A] !! 0 = Some (Examples.leaf TypeCode.Int32A)
   ∧ code (Examples.leaf TypeCode.Int32A) ∈ TypeCode.numeric_array_codes) ∧
  to_wire_full 1 (out_buffer true 8) Examples.ints = Err AssertFailed.
Proof.
  assert (C : code (Examples.leaf TypeCode.Int32A) ∈ TypeCode.numeric_array_codes)
    by (apply (list_elem_of_lookup_2 _ 2); reflexivity).
  split; [by repeat split|].
  exact (numeric_array_encode_fails 0 (out_buffer true 8)
           [Examples.leaf TypeCode.Int32A] 0
           (mkTop [0] [Store_Array (Array_int 4 [1%N])]) 0
           (Examples.leaf TypeCode.Int32A) (Array_int 4 [1%N])
           eq_refl eq_refl C).
Defined.

(** The presence byte 2, evaluated: an array of one element is decoded from
    it, for a [UnionA] (followed by the null selector), an [AnyA] (followed
    by the null type) and a [StructA] (of a Struct without members); each
    time the decoder reads all the bytes and ends with the fault flag not
    set. *)
Lemma presence_byte_two_accepted :
  from_wire_full 2 (in_buffer true [x01; x02; xff]) ∅ Examples.union_array
  = Ok (advance 3 (in_buffer true [x01; x02; xff]), ∅,
        Value_ref Examples.union_descs 0
          (mkTop [0] [Store_Array (Array_Value [Value_null])]) 0) ∧
  from_wire_full 2 (in_buffer true [x01; x02; xff]) ∅ Examples.any_array
  = Ok (advance 3 (in_buffer true [x01; x02; xff]), ∅,
        Examples.single TypeCode.AnyA (Store_Array (Array_Value [Value_null]))) ∧
  from_wire_full 2 (in_buffer true [x01; x02]) ∅ Examples.struct_array
  = Ok (advance 2 (in_buffer true [x01; x02]), ∅,
        Value_ref Examples.struct_descs 0
          (mkTop [0] [Store_Array (Array_Value
                        [Value_ref Examples.struct_descs 1
                           (mkTop [0] [Store_Null]) 0])]) 0) ∧
  faulted (advance 3 (in_buffer true [x01; x02; xff])) = false.
Proof. repeat split; vm_compute; reflexivity. Qed.

End ValueEvaluations.

(** ** Configuration from the environment *)
Section FromEnvFacts.
Import Server.
Context `{PF : Platform}.
Variable getenv : string → option string.

(** An entry that [aToIPAddr] rejects is logged and the input is left where
    it is, unless the matcher has used up the stack. *)
Lemma split_step_invalid (name : string) (st : SplitState) (w rest : string) :
  regex_match_word (inp st) = Some (w, rest) →
  aToIPAddr w = None →
  split_step name st = Err StackExhausted
  ∨ ∃ lg, split_step name st
          = Ok (Some {| inp := inp st; out := out st; logged := lg |}).
Proof.
  intros M A. unfold split_step, regex_match.
  case_bool_decide as E; [by rewrite E in M|].
  destruct (regex_max <? N.of_nat (String.length (inp st)))%N; [by left|].
  right. simpl. rewrite M, A. by eexists.
Qed.

(** From then on the loop does not end. *)
Lemma split_loop_invalid (fuel : nat) (name : string) (st : SplitState)
    (w rest : string) :
  regex_match_word (inp st) = Some (w, rest) →
  aToIPAddr w = None →
  split_loop fuel name st = None.
Proof.
  revert st. induction fuel as [|fuel IH]; intros st M A; [done|].
  simpl. destruct (split_step_invalid name st w rest M A) as [->|[lg ->]];
    [done|].
  by apply IH.
Qed.


(** An invalid port is logged and the configuration keeps its value. *)
Lemma env_port_invalid (names : list string) (set : N → Config → Config)
    (c : Config) (lg : list string) (name env : string) :
  pickenv getenv names = Some (name, env) →
  lexical_cast_ushort env = None →
  env_port getenv names set (c, lg)
  = (c, lg ++ [name +:+ " invalid integer : " +:+ what env]).
Proof. intros P L. unfold env_port. by rewrite P, L. Qed.

(** C8, evaluated. When the first entry of [EPICS_PVAS_INTF_ADDR_LIST] is
    not a valid address, [Config::from_env] does not return: the loop of
    [split_addr_into] logs the entry and meets it again, whatever the number
    of iterations (and on a list longer than the matcher can take, the
    process is killed in the first match). *)
Theorem from_env_never_returns (env w rest : string) :
  getenv "EPICS_PVAS_INTF_ADDR_LIST" = Some env →
  regex_match_word env = Some (w, rest) →
  aToIPAddr w = None →
  ∀ fuel, from_env getenv fuel = None.
Proof.
  intros G M A fuel. unfold from_env. simpl. rewrite G.
  unfold split_addr_into.
  by rewrite (split_loop_invalid fuel "EPICS_PVAS_INTF_ADDR_LIST"
                {| inp := env; out := _; logged := [] |} w rest M A).
Qed.

End FromEnvFacts.

(** The interface list ["bogus 10.0.0.2"]. *)
Lemma from_env_never_returns_witness :
  (Examples.env_bogus "EPICS_PVAS_INTF_ADDR_LIST" = Some "bogus 10.0.0.2"
   ∧ Server.regex_match_word "bogus 10.0.0.2" = Some ("bogus", " 10.0.0.2")
   ∧ Sample.parse_ipv4 "bogus" = None) ∧
  ∀ fuel, Server.from_env (PF := Sample.platform) Examples.env_bogus fuel = None.
Proof.
  split; [by repeat split|].
  exact (from_env_never_returns (PF := Sample.platform) Examples.env_bogus
           "bogus 10.0.0.2" "bogus" " 10.0.0.2" eq_refl eq_refl eq_refl).
Defined.

(** With valid addresses [Config::from_env] returns after one iteration per
    entry and one more; the invalid port is logged and the default is
    kept. *)
Lemma from_env_valid :
  Server.from_env (PF := Sample.platform) Examples.env_valid 3
  = Some (Server.set_interfaces ["10.0.0.1"; "10.0.0.2"] Sample.default_config,
          ["EPICS_PVA_SERVER_PORT invalid integer : bad lexical_cast of 'pva'"]).
Proof. vm_compute. reflexivity. Qed.

(** ** The Source registry *)
Section RegistryFacts.
Import Server.

(** C9. [removeSource(name, order)] on a server with a registry: when the
    pair is not registered, the result is a null pointer and the server is
    unchanged; when it is, the result is the Source that was registered,
    the pair is no longer registered, every other pair is registered as
    before, the registry has one entry less, and nothing else changes. *)
Theorem removeSource_spec (pvt : Pvt) (name : string) (order : Z) :
  match sources pvt !! (order, name) with
  | None => removeSource (Some pvt) name order = Ok (None, Some pvt)
  | Some s =>
      ∃ pvt', removeSource (Some pvt) name order = Ok (Some s, Some pvt')
              ∧ sources pvt' !! (order, name) = None
              ∧ (∀ k, k ≠ (order, name) → sources pvt' !! k = sources pvt !! k)
              ∧ size (sources pvt) = S (size (sources pvt'))
              ∧ set_sources (sources pvt) pvt' = pvt
  end.
Proof.
  unfold removeSource.
  destruct (sources pvt !! (order, name)) as [s|] eqn:E; [|done].
  eexists. split; [done|]. simpl. repeat split.
  - apply lookup_delete_eq.
  - intros k N. by apply lookup_delete_ne.
  - rewrite <- (insert_delete_id (sources pvt) (order, name) s E) at 1.
    apply map_size_insert_None, lookup_delete_eq.
  - by destruct pvt.
Qed.

(** On a null server the call throws. *)
Lemma removeSource_null (name : string) (order : Z) :
  removeSource None name order = Err (LogicError "NULL Server").
Proof. reflexivity. Qed.

(** A Source that was added is the one that is removed, and the registry
    is then as before the addition. *)
Lemma removeSource_addSource (pvt pvt1 : Pvt) (name : string) (order : Z)
    (s : Source) :
  addSource (Some pvt) name (Some s) order = Ok (Some pvt1) →
  removeSource (Some pvt1) name order = Ok (Some s, Some pvt).
Proof.
  unfold addSource, removeSource.
  destruct (sources pvt !! (order, name)) eqn:E; [done|].
  intros [= <-]. simpl. rewrite lookup_insert_eq.
  rewrite delete_insert_eq, delete_id by done. by destruct pvt.
Qed.

End RegistryFacts.

(** ** Beacons *)
Section BeaconFacts.
Import Wire Server.
Context `{BM : BuildMode}.

Lemma length_SockAddr_any_wire : length SockAddr_any_wire = 16.
Proof. reflexivity. Qed.

(** C7, evaluated on every server whose two message vectors have the sizes
    the constructor gives them and do not overlap in memory. [doBeacons]
    composes the body in [beaconMsg] but writes the header into
    [searchReply] and measures the length from [searchReply.data()]: the
    first 8 bytes of [beaconMsg] stay as they were, the header is in
    [searchReply], and the length given to [sendto] is negative or beyond
    [beaconMsg], so that no destination is sent a datagram made of the
    beacon message. *)
Theorem beacon_header_misplaced (pvt : Pvt) :
  length (beaconMsg pvt) = 128 →
  length (searchReply pvt) = N.to_nat 0x10000 →
  (searchReply_data pvt + 0x10000 ≤ beaconMsg_data pvt
   ∨ beaconMsg_data pvt + 128 ≤ searchReply_data pvt)%Z →
  ∃ pvt',
    Pvt_doBeacons pvt = Ok (pvt', (λ dest, (dest, None)) <$> beaconDest pvt)
    ∧ take 8 (beaconMsg pvt') = take 8 (beaconMsg pvt)
    ∧ take 4 (searchReply pvt') = [xca; pva_version_server; xc0; x00].
Proof.
  intros Lb Ls Dis. unfold Pvt_doBeacons.
  pose proof (Wrote_start (beaconMsg pvt)) as W0. rewrite Lb in W0.
  destruct (Wrote_skip _ _ _ 8 W0) as (o1 & Lo1 & Eo1 & D1 & W1);
    [simpl; lia|].
  pose proof (Wrote_put _ _ (vec_to_list (guid (effective pvt))) _ W1) as W2.
  rewrite !length_app, length_vec_to_list, Lo1 in W2.
  specialize (W2 ltac:(simpl; lia)).
  destruct (Wrote_skip _ _ _ 4 W2) as (o3 & Lo3 & Eo3 & D3 & W3).
  { rewrite !length_app, length_vec_to_list, Lo1. simpl. lia. }
  pose proof (Wrote_put _ _ SockAddr_any_wire _ W3) as W4.
  rewrite !length_app, length_vec_to_list, Lo1, Lo3,
    length_SockAddr_any_wire in W4.
  specialize (W4 ltac:(simpl; lia)).
  pose proof (Wrote_uint _ _ _ 2 (tcp_port (effective pvt)) W4) as W5.
  rewrite !length_app, length_vec_to_list, Lo1, Lo3,
    length_SockAddr_any_wire in W5.
  specialize (W5 ltac:(simpl; lia)).
  pose proof (Wrote_tcp _ _ _ W5) as W6.
  rewrite !length_app, length_vec_to_list, Lo1, Lo3,
    length_SockAddr_any_wire, length_int_bytes in W6.
  specialize (W6 ltac:(simpl; lia)).
  pose proof (Wrote_uint _ _ _ 1 255 W6) as W7.
  rewrite !length_app, length_vec_to_list, Lo1, Lo3,
    length_SockAddr_any_wire, length_int_bytes in W7.
  specialize (W7 ltac:(simpl; lia)).
  clear W0 W1 W2 W3 W4 W5 W6 D1 D3 Eo3.
  simpl in Eo1. rewrite drop_0 in Eo1.
  set (M := to_wire_uint 1 255 _) in *.
  match type of W7 with Wrote _ ?x _ => set (w := x) in * end.
  assert (Lw : length w = 47).
  { unfold w. rewrite !length_app, length_vec_to_list, Lo1, Lo3,
      length_SockAddr_any_wire, !length_int_bytes. reflexivity. }
  assert (LM : length (data M) = 128) by apply W7.
  destruct (Wrote_data _ _ _ W7) as (TM & GM & PM).
  rewrite Lw in TM, PM. rewrite PM.
  (* the header goes to the other vector *)
  assert (L8 : length (take 8 (searchReply pvt)) = 8)
    by (rewrite length_take; lia).
  pose proof (Wrote_start (take 8 (searchReply pvt))) as V0. rewrite L8 in V0.
  pose proof (Wrote_put _ _ [xca; pva_version_server; xc0; x00] _ V0
                ltac:(simpl; lia)) as V1.
  set (len := Z.to_N _).
  pose proof (Wrote_uint _ _ _ 4 len V1) as V2.
  rewrite !length_app in V2. specialize (V2 ltac:(simpl; lia)).
  change (to_wire_uint 4 len (put _ _))
    with (to_wire_Header CMD_BEACON pva_flags_Server len
            {| be := true; data := take 8 (searchReply pvt); pos := 0;
               faulted := false |}) in V2.
  set (H := to_wire_Header _ _ _ _) in *.
  destruct (Wrote_data _ _ _ V2) as (TH & GH & PH).
  assert (DH : data H = [xca; pva_version_server; xc0; x00] ++ int_bytes true 4 len).
  { rewrite take_ge in TH; [exact TH|].
    destruct V2 as (_ & _ & -> & _).
    rewrite !length_app, length_int_bytes. simpl. lia. }
  unfold assert_. rewrite GM, GH, orb_true_r. simpl mbind.
  eexists. split; [|split].
  - f_equal. f_equal. apply list_fmap_ext. intros _ dest _. f_equal.
    unfold datagram. simpl beaconMsg. rewrite LM.
    rewrite bool_decide_eq_false_2; [done|lia].
  - simpl. rewrite <- Eo1.
    replace (take 8 (data M)) with (take 8 (take 47 (data M)))
      by (rewrite take_take; f_equal; lia).
    rewrite TM.
    unfold w. rewrite <- !app_assoc. simpl. by apply take_app_length'.
  - simpl. rewrite DH. reflexivity.
Qed.

End BeaconFacts.

(** A server whose search reply vector lies behind its beacon vector, with
    one beacon destination. *)
Lemma beacon_header_misplaced_witness :
  (length (Server.beaconMsg Examples.server) = 128
   ∧ length (Server.searchReply Examples.server) = N.to_nat 0x10000
   ∧ (Server.searchReply_data Examples.server + 0x10000
        ≤ Server.beaconMsg_data Examples.server
      ∨ Server.beaconMsg_data Examples.server + 128
        ≤ Server.searchReply_data Examples.server)%Z) ∧
  ∃ pvt',
    Server.Pvt_doBeacons (BM := Sample.debug) Examples.server
    = Ok (pvt', [("10.0.0.255", None)])
    ∧ take 8 (Server.beaconMsg pvt') = replicate 8 x00
    ∧ take 4 (Server.searchReply pvt') = [xca; x02; xc0; x00].
Proof.
  assert (D : (Server.beaconMsg_data Examples.server + 128
               ≤ Server.searchReply_data Examples.server)%Z)
    by (simpl; lia).
  split; [split; [reflexivity|split; [apply length_replicate|by right]]|].
  exact (beacon_header_misplaced (BM := Sample.debug) Examples.server
           eq_refl (length_replicate _ _) (or_intror D)).
Defined.

(** ** Search replies *)
Section SearchFacts.
Import Wire Server.

Lemma run_sources_length (srcs : list (Z * string * Source))
    (st : list (string * bool) * list string) :
  length (run_sources srcs st).1 = length st.1.
Proof.
  unfold run_sources. revert st.
  induction srcs as [|ent srcs IH]; intros st; [done|].
  simpl. rewrite IH. destruct (onSearch ent.2 st.1.*1) as [claimed thrown].
  simpl. apply length_imap.
Qed.

(** The count in a [uint16_t] is the number of claims while that number is
    below [2^16]. *)
Lemma count_claims_acc (ns : list (string * bool)) (acc : N) :
  (acc + N.of_nat (length ns) < 65536)%N →
  foldl (λ n (nc : string * bool),
           if nc.2 then ((n + 1) mod 65536)%N else n) acc ns
  = (acc + N.of_nat (length (filter (λ nc : string * bool, nc.2 = true) ns)))%N.
Proof.
  revert acc. induction ns as [|[nm c] ns IH]; intros acc B.
  - simpl. lia.
  - simpl length in B. destruct c.
    + rewrite filter_cons_True by done. simpl.
      rewrite N.mod_small by lia. rewrite IH by lia. lia.
    + rewrite filter_cons_False by done. simpl. apply IH. lia.
Qed.

Lemma count_claims_filter (ns : list (string * bool)) :
  (N.of_nat (length ns) < 65536)%N →
  count_claims ns
  = N.of_nat (length (filter (λ nc : string * bool, nc.2 = true) ns)).
Proof.
  intros B. unfold count_claims. rewrite count_claims_acc by lia. lia.
Qed.

Lemma claimed_ids_length (nms : list (N * string)) (ns : list (string * bool)) :
  length nms = length ns →
  length (Spec.claimed_ids nms ns)
  = length (filter (λ nc : string * bool, nc.2 = true) ns).
Proof.
  unfold Spec.claimed_ids. rewrite length_fmap. revert ns.
  induction nms as [|nm nms IH]; intros [|[s c] ns] L; try done.
  simpl in L. injection L as L.
  change (zip (nm :: nms) ((s, c) :: ns)) with ((nm, (s, c)) :: zip nms ns).
  destruct c.
  - rewrite !filter_cons_True by done. simpl. by rewrite IH.
  - rewrite !filter_cons_False by done. by apply IH.
Qed.

(** The loop over the names writes the identifiers of the claimed ones. *)
Lemma Wrote_ids (n : nat) (l : list (N * string * (string * bool)))
    (w : list byte) (M : Buffer) :
  Wrote n w M →
  length w + 4 * length l ≤ n →
  Wrote n
    (w ++ mjoin (int_bytes true 4
                   <$> ((λ e : N * string * (string * bool), e.1.1)
                          <$> filter (λ e : N * string * (string * bool),
                                        e.2.2 = true) l)))
    (foldl (λ M (e : N * string * (string * bool)),
              if e.2.2 then to_wire_uint 4 e.1.1 M else M) M l).
Proof.
  revert w M. induction l as [|[[i nm] [s c]] l IH]; intros w M W Fit.
  - simpl. by rewrite app_nil_r.
  - simpl length in Fit. destruct c.
    + rewrite filter_cons_True by done. rewrite !fmap_cons.
      cbn [foldl mjoin list_join fst snd]. rewrite app_assoc.
      apply IH.
      * apply Wrote_uint; [done|lia].
      * rewrite length_app, length_int_bytes. lia.
    + rewrite filter_cons_False by done. simpl. apply IH; [done|lia].
Qed.

Ltac len_lia :=
  repeat rewrite ?length_app, ?length_vec_to_list, ?length_int_bytes,
    ?length_SockAddr_any_wire, ?length_zip;
  cbn [length]; lia.

Lemma length_join_ids (l : list N) :
  length (mjoin (int_bytes true 4 <$> l)) = 4 * length l.
Proof.
  induction l as [|i l IH]; [done|].
  rewrite fmap_cons.
  change (mjoin (int_bytes true 4 i :: (int_bytes true 4 <$> l)))
    with (int_bytes true 4 i ++ mjoin (int_bytes true 4 <$> l)).
  rewrite length_app, length_int_bytes, IH. simpl. lia.
Qed.

Lemma count_is_zero (ids : list N) :
  (N.of_nat (length ids) =? 0)%N = bool_decide (ids = []).
Proof. by destruct ids. Qed.

(** C6. A search whose names are few enough for the reply to fit the
    64 KiB reply vector (at most 16371 names; a search that arrives in one
    UDP datagram has fewer). With [ids] the identifiers of the names that
    the Sources claimed, in the order of the names: when no name is claimed
    and [mustReply] is false, no datagram is given to [msg.reply];
    otherwise the datagram is the header, with the length of the body, and
    the body: the GUID, the search identifier, the wildcard address, the
    TCP port, the transport ["tcp"], the byte 1 when a name is claimed and
    0 when none is, the number of identifiers in 16 bits and the
    identifiers in 32 bits each. *)
Theorem search_reply (pvt : Pvt) (msg : Search) :
  length (searchReply pvt) = N.to_nat 0x10000 →
  (N.of_nat (length (names msg)) ≤ 16371)%N →
  let ids := Spec.claimed_ids (names msg) (Spec.claims pvt msg) in
  let body := Spec.search_reply_body (effective pvt) (searchID msg) ids in
  (Pvt_onSearch pvt msg).2
  = if bool_decide (ids = []) && negb (mustReply msg) then None
    else Some (Spec.header CMD_SEARCH_RESPONSE (length body) ++ body).
Proof.
  intros Ls Ln ids body. unfold Pvt_onSearch.
  pose proof (run_sources_length (registry_order (sources pvt))
                ((λ n : N * string, (n.2, false)) <$> names msg, [])) as RL.
  simpl in RL. rewrite length_fmap in RL.
  assert (Ec : Spec.claims pvt msg
               = (run_sources (registry_order (sources pvt))
                    ((λ n : N * string, (n.2, false)) <$> names msg, [])).1)
    by reflexivity.
  destruct (run_sources _ _) as [ns lg]. simpl in RL, Ec.
  assert (Li : length ids
               = length (filter (λ nc : string * bool, nc.2 = true) ns)).
  { unfold ids. rewrite Ec. by apply claimed_ids_length. }
  assert (Lz : length ids ≤ length (names msg)).
  { rewrite Li, <- RL. apply length_filter. }
  rewrite count_claims_filter by lia.
  rewrite <- Li, count_is_zero.
  destruct (bool_decide (ids = []) && negb (mustReply msg)); [done|].
  (* the body, behind 8 bytes kept for the header *)
  pose proof (Wrote_start (searchReply pvt)) as W0. rewrite Ls in W0.
  destruct (Wrote_skip _ _ _ 8 W0) as (o1 & Lo1 & _ & _ & W1); [simpl; lia|].
  pose proof (Wrote_put _ _ (vec_to_list (guid (effective pvt))) _ W1
                ltac:(len_lia)) as W2.
  pose proof (Wrote_uint _ _ _ 4 (searchID msg) W2 ltac:(len_lia)) as W3.
  pose proof (Wrote_put _ _ SockAddr_any_wire _ W3 ltac:(len_lia)) as W4.
  pose proof (Wrote_uint _ _ _ 2 (tcp_port (effective pvt)) W4
                ltac:(len_lia)) as W5.
  pose proof (Wrote_tcp _ _ _ W5 ltac:(len_lia)) as W6.
  pose proof (Wrote_uint _ _ _ 1 (if bool_decide (ids = []) then 0 else 1)%N
                W6 ltac:(len_lia)) as W7.
  pose proof (Wrote_uint _ _ _ 2 (N.of_nat (length ids)) W7
                ltac:(len_lia)) as W8.
  pose proof (Wrote_ids _ (zip (names msg) ns) _ _ W8 ltac:(len_lia)) as W9.
  clear W0 W1 W2 W3 W4 W5 W6 W7 W8.
  set (M := foldl _ _ _) in *.
  match type of W9 with Wrote _ ?x _ => set (w := x) in * end.
  assert (Ew : w = o1 ++ body).
  { unfold w, body, Spec.search_reply_body, ids, Spec.claimed_ids.
    rewrite Ec, <- !app_assoc, app_nil_l. do 6 f_equal.
    case_bool_decide; reflexivity. }
  assert (Lw : length w = 8 + length body) by (rewrite Ew, length_app; lia).
  assert (Lbody : (N.of_nat (length body) < 65536)%N).
  { unfold body, Spec.search_reply_body. revert Lz Ln. clear.
    intros Lz Ln. rewrite !length_app, length_vec_to_list,
      !length_int_bytes, length_SockAddr_any_wire. cbn [length].
    rewrite length_join_ids. lia. }
  destruct (Wrote_data _ _ _ W9) as (TM & GM & PM).
  assert (LM : length (data M) = N.to_nat 65536) by apply W9.
  rewrite PM, Lw.
  (* the header *)
  assert (L8 : length (take 8 (data M)) = 8) by (rewrite length_take; lia).
  pose proof (Wrote_start (take 8 (data M))) as V0. rewrite L8 in V0.
  pose proof (Wrote_put _ _ [xca; pva_version_server; xc0; x04] _ V0
                ltac:(simpl; lia)) as V1.
  replace (Z.to_N ((Z.of_nat (8 + length body) - 8) `mod` 2 ^ 32))
    with (N.of_nat (length body))
    by (rewrite Z.mod_small by lia; lia).
  pose proof (Wrote_uint _ _ _ 4 (N.of_nat (length body)) V1
                ltac:(simpl; lia)) as V2.
  change (to_wire_uint 4 (N.of_nat (length body)) (put _ _))
    with (to_wire_Header CMD_SEARCH_RESPONSE pva_flags_Server
            (N.of_nat (length body))
            {| be := true; data := take 8 (data M); pos := 0;
               faulted := false |}) in V2.
  set (H := to_wire_Header _ _ _ _) in *.
  destruct (Wrote_data _ _ _ V2) as (TH & GH & PH).
  assert (DH : data H = Spec.header CMD_SEARCH_RESPONSE (length body)).
  { rewrite take_ge in TH; [exact TH|].
    destruct V2 as (_ & _ & -> & _).
    rewrite !length_app, length_int_bytes. simpl. lia. }
  rewrite GM, GH. cbn [negb orb snd]. f_equal.
  rewrite DH, take_app_ge
    by (unfold Spec.header; rewrite length_app, length_int_bytes;
        simpl; lia).
  f_equal.
  replace (length (Spec.header CMD_SEARCH_RESPONSE (length body))) with 8
    by (unfold Spec.header; by rewrite length_app, length_int_bytes).
  rewrite take_drop_commute.
  replace (8 + (8 + length body - 8)) with (length w) by lia.
  rewrite TM, Ew. by apply drop_app_length'.
Qed.

End SearchFacts.

(** The search for ["xxx"] (1) and ["yyy"] (2) on a server whose only Source
    claims ["yyy"]: the reply has 45 bytes of body, the count 1 and the
    identifier 2. *)
Lemma search_reply_witness :
  (length (Server.searchReply Examples.server) = N.to_nat 0x10000
   ∧ (N.of_nat (length (Server.names Examples.search)) ≤ 16371)%N) ∧
  (Server.Pvt_onSearch Examples.server Examples.search).2
  = Some ([xca; x02; xc0; x04; x00; x00; x00; x2d]
          ++ replicate 12 x00
          ++ [x11; x22; x33; x44]
          ++ Server.SockAddr_any_wire
          ++ [x13; xd3]
          ++ [x03; "t"; "c"; "p"]%byte
          ++ [x01]
          ++ [x00; x01]
          ++ [x00; x00; x00; x02]).
Proof.
  assert (B : (N.of_nat (length (Server.names Examples.search)) ≤ 16371)%N)
    by (vm_compute; discriminate).
  split; [split; [apply length_replicate|exact B]|].
  pose proof (search_reply Examples.server Examples.search
                (length_replicate _ _) B) as W.
  vm_compute in W. vm_compute. exact W.
Defined.

(** ** The type codec: limits, cache and round trip *)
Section TypeCodecFacts.
Import Wire TypeCodec.
Context `{SH : StdHash}.

Lemma to_N_inj (a b : byte) : Byte.to_N a = Byte.to_N b → a = b.
Proof.
  intros E. pose proof (Byte.of_to_N a) as A.
  rewrite E, Byte.of_to_N in A. by injection A.
Qed.

Lemma at_index_middle {A} (l : list A) (x : A) (k : list A) :
  at_index (l ++ x :: k) (length l) = Ok x.
Proof. unfold at_index. by rewrite list_lookup_middle. Qed.

Lemma insert_middle {A} (l : list A) (x y : A) (k : list A) :
  <[length l := y]> (l ++ x :: k) = l ++ y :: k.
Proof.
  rewrite insert_app_r_alt by lia. by rewrite Nat.sub_diag.
Qed.

(** The byte of a code with a single-node description is decoded to one
    node of that code. *)
Lemma decode_leaf (buf : Buffer) (ctxt : TypeDeserContext) (depth : nat)
    (x : byte) (rest : list byte) :
  faulted buf = false → depth ≤ 20 →
  drop (pos buf) (data buf) = x :: rest →
  Byte.to_N x ∈ Spec.leaf_codes →
  from_wire buf ctxt depth
  = Ok (advance 1 buf,
        {| descs := descs ctxt ++ [Spec.scalar_node (Byte.to_N x)];
           cache := cache ctxt |}).
Proof.
  intros F D E L.
  rewrite from_wire_unfold by done. unfold from_wire_body, good.
  rewrite F. simpl negb. cbv iota.
  rewrite (from_wire_byte_at _ buf x rest) by done.
  set (c := Byte.to_N x) in *.
  assert (K : bool_decide (c = TypeCode.Null) = false
              ∧ bool_decide (c = 253%N) = false
              ∧ bool_decide (c = 254%N) = false
              ∧ (N.land c 16 =? 0)%N = true
              ∧ bool_decide (c = TypeCode.StructA ∨ c = TypeCode.UnionA) = false
              ∧ bool_decide (c = TypeCode.Struct ∨ c = TypeCode.Union) = false
              ∧ TypeCode.is_simple_scalar (TypeCode.scalarOf c) = true).
  { clearbody c. unfold Spec.leaf_codes in L.
    rewrite !elem_of_cons, elem_of_nil in L.
    repeat (destruct L as [->|L]; [by vm_compute|]). done. }
  destruct K as (K1 & K2 & K3 & K4 & K5 & K6 & K7).
  rewrite K1, K2, K3, K4, K5, K6, K7, andb_false_r.
  cbn [descs cache mbind].
  rewrite (at_index_middle (descs ctxt) _ []).
  unfold mbind, Res_bind.
  rewrite insert_middle, length_app. simpl length.
  replace (length (descs ctxt) + 1 - length (descs ctxt)) with 1 by lia.
  reflexivity.
Qed.

(** X2. A type byte with the fixed-length bit [0x10] set, other than the
    three tags [0xFD], [0xFE] and [0xFF], sets the fault flag: the decoder
    reads that byte only and appends no node. *)
Theorem fixed_length_rejected (buf : Buffer) (ctxt : TypeDeserContext)
    (depth : nat) (x : byte) (rest : list byte) :
  faulted buf = false → depth ≤ 20 →
  drop (pos buf) (data buf) = x :: rest →
  N.land (Byte.to_N x) 0x10 ≠ 0%N →
  x ∉ [xfd; xfe; xff] →
  from_wire buf ctxt depth = Ok (fault (advance 1 buf), ctxt).
Proof.
  intros F D E B T.
  rewrite from_wire_unfold by done. unfold from_wire_body, good.
  rewrite F. simpl negb. cbv iota.
  rewrite (from_wire_byte_at _ buf x rest) by done.
  rewrite !not_elem_of_cons in T. destruct T as (T1 & T2 & T3 & _).
  assert (N1 : Byte.to_N x ≠ 253%N) by (intros Z; by apply (to_N_inj x xfd) in Z).
  assert (N2 : Byte.to_N x ≠ 254%N) by (intros Z; by apply (to_N_inj x xfe) in Z).
  assert (N3 : Byte.to_N x ≠ 255%N) by (intros Z; by apply (to_N_inj x xff) in Z).
  rewrite (bool_decide_eq_false_2 (_ = TypeCode.Null)) by done.
  rewrite (bool_decide_eq_false_2 (_ = 253%N)) by done.
  rewrite (bool_decide_eq_false_2 (_ = 254%N)) by done.
  rewrite (bool_decide_eq_true_2 (_ ≠ 255%N)) by done.
  destruct (N.eqb_spec (N.land (Byte.to_N x) 16) 0) as [Z|_]; [done|].
  reflexivity.
Qed.


Lemma prefix_insert_ge {A} (pre l : list A) (i : nat) (x : A) :
  pre `prefix_of` l → length pre ≤ i → pre `prefix_of` <[i := x]> l.
Proof.
  intros [k ->] L. rewrite insert_app_r_alt by done. by eexists.
Qed.

(** The member loop keeps the nodes below [index]. *)
Lemma members_prefix
    (rec : Buffer → TypeDeserContext → Res (Buffer * TypeDeserContext))
    (c : N) (index n : nat) :
  (∀ b0 c0 b1 c1, rec b0 c0 = Ok (b1, c1) → descs c0 `prefix_of` descs c1) →
  ∀ name buf ctxt b c' fl pre,
    members rec c index n name buf ctxt = Ok (b, c', fl) →
    pre `prefix_of` descs ctxt → length pre ≤ index →
    pre `prefix_of` descs c'.
Proof.
  intros R. induction n as [|n IH]; intros name buf ctxt b c' fl pre H P L;
    simpl in H.
  - by simplify_eq.
  - destruct (from_wire_string name buf) as [b1 name1].
    destruct (rec b1 ctxt) as [[b2 c2]|e] eqn:Rq; simpl in H; [|done].
    pose proof (R _ _ _ _ Rq) as P2.
    destruct (negb (good b2) || bool_decide _); [simplify_eq; by etrans|].
    destruct (at_index (descs c2) index) as [fld|]; simpl in H; [|done].
    destruct (at_index (descs c2) (length (descs ctxt))) as [cfld|];
      simpl in H; [|done].
    apply (IH _ _ _ _ _ _ pre) in H; [done| |done].
    simpl. apply prefix_insert_ge; [by etrans|done].
Qed.

Lemma from_wire_rem_prefix (rem : nat) :
  ∀ buf ctxt b c,
    from_wire_rem rem buf ctxt = Ok (b, c) → descs ctxt `prefix_of` descs c.
Proof.
  induction rem as [|rem IH]; intros buf ctxt b c H; simpl in H.
  - by simplify_eq.
  - unfold from_wire_body in H.
    destruct (negb (good buf)); [by simplify_eq|].
    destruct (from_wire_uint 1 TypeCode.Null buf) as [b1 cc].
    case_bool_decide; [by simplify_eq|].
    case_bool_decide.
    { destruct (from_wire_uint 2 0 b1) as [b2 key].
      destruct (from_wire_rem rem b2 ctxt) as [[b3 c3]|] eqn:R; simpl in H;
        [|done].
      apply IH in R. destruct (_ || _); by simplify_eq. }
    case_bool_decide.
    { destruct (from_wire_uint 2 0 b1) as [b2 key].
      destruct (cache ctxt !! key) as [entry|]; [|by simplify_eq].
      destruct (_ || _); simplify_eq; [done|].
      simpl. rewrite take_ge by done. by apply prefix_app_r. }
    destruct (_ && _); [by simplify_eq|].
    assert (P0 : descs ctxt `prefix_of`
                 descs ctxt ++ [set_hash cc (set_code cc FieldDesc_new)])
      by (by apply prefix_app_r).
    case_bool_decide.
    { destruct (from_wire_rem rem b1 _) as [[b3 c3]|] eqn:R; simpl in H;
        [|done].
      apply IH in R. simpl in R.
      destruct (_ || _); [simplify_eq; by etrans|].
      destruct (at_index (descs c3) (length (descs ctxt) + 1)) as [child|];
        simpl in H; [|done].
      destruct (bool_decide _); [simplify_eq; by etrans|].
      destruct (at_index (descs c3) (length (descs ctxt))) as [fld|];
        simpl in H; [|done].
      simplify_eq. simpl. apply prefix_insert_ge; [by etrans|done]. }
    case_bool_decide.
    { destruct (from_wire_string "" b1) as [b2 ident].
      destruct (from_wire_Size 0 b2) as [b3 nfld].
      destruct (reserve nfld) as [[]|]; simpl in H; [|done].
      rewrite (at_index_middle (descs ctxt) _ []) in H.
      simpl in H. rewrite insert_middle in H.
      destruct (members _ _ _ _ _ _ _) as [[[b5 c5] fl]|] eqn:M; simpl in H;
        [|done].
      apply (members_prefix _ _ _ _ IH _ _ _ _ _ _ (descs ctxt)) in M;
        [|by apply prefix_app_r|done].
      destruct fl; [|by simplify_eq].
      destruct (at_index (descs c5) (length (descs ctxt))) as [fld|];
        simpl in H; [|done].
      simplify_eq. simpl. by apply prefix_insert_ge. }
    simpl in H. rewrite (at_index_middle (descs ctxt) _ []) in H.
    simpl in H. simplify_eq. simpl. rewrite insert_middle.
    by apply prefix_app_r.
Qed.

(** X3. The decoder only appends to the destination vector: after any call
    that returns, the nodes that were in the vector are still there,
    unchanged and at the same positions, followed by the new ones. *)
Theorem from_wire_appends (buf : Buffer) (ctxt : TypeDeserContext)
    (depth : nat) (b : Buffer) (c : TypeDeserContext) :
  from_wire buf ctxt depth = Ok (b, c) →
  ∃ new, descs c = descs ctxt ++ new.
Proof. apply from_wire_rem_prefix. Qed.

(** A cache definition: the tag [0xFD], a 16-bit key and a type. *)
Lemma decode_define (buf : Buffer) (ctxt : TypeDeserContext) (depth : nat)
    (k0 k1 : byte) (rest : list byte) :
  faulted buf = false → depth ≤ 20 →
  drop (pos buf) (data buf) = xfd :: k0 :: k1 :: rest →
  from_wire buf ctxt depth
  = '(b, c) ← from_wire (advance 3 buf) ctxt (depth + 1);
    if negb (good b) || bool_decide (length (descs ctxt) = length (descs c))
    then Ok (fault b, c)
    else Ok (b, {| descs := descs c;
                   cache := <[int_value (be buf) [k0; k1]
                              := drop (length (descs ctxt)) (descs c)]>
                              (cache c) |}).
Proof.
  intros F D E.
  rewrite from_wire_unfold by done. unfold from_wire_body at 1, good.
  rewrite F. simpl negb. cbv iota.
  rewrite (from_wire_byte_at _ buf xfd (k0 :: k1 :: rest)) by done.
  change (Byte.to_N xfd) with 253%N.
  rewrite (bool_decide_eq_false_2 (253%N = TypeCode.Null)) by done.
  rewrite (bool_decide_eq_true_2 (253%N = 253%N)) by done.
  assert (E1 : drop (pos (advance 1 buf)) (data (advance 1 buf))
               = [k0; k1] ++ rest)
    by (by apply (drop_advance 1 buf [xfd])).
  rewrite (from_wire_uint_at 2 0 (advance 1 buf) [k0; k1] rest) by done.
  rewrite advance_advance. reflexivity.
Qed.

(** A cache reference to a key that is bound to a non-empty vector. *)
Lemma decode_ref (buf : Buffer) (ctxt : TypeDeserContext) (depth : nat)
    (k0 k1 : byte) (rest : list byte) (d : FieldDesc) (entry : list FieldDesc) :
  faulted buf = false → depth ≤ 20 →
  drop (pos buf) (data buf) = xfe :: k0 :: k1 :: rest →
  cache ctxt !! int_value (be buf) [k0; k1] = Some (d :: entry) →
  from_wire buf ctxt depth
  = Ok (advance 3 buf,
        {| descs := descs ctxt ++ d :: entry; cache := cache ctxt |}).
Proof.
  intros F D E C.
  rewrite from_wire_unfold by done. unfold from_wire_body, good.
  rewrite F. simpl negb. cbv iota.
  rewrite (from_wire_byte_at _ buf xfe (k0 :: k1 :: rest)) by done.
  change (Byte.to_N xfe) with 254%N.
  rewrite (bool_decide_eq_false_2 (254%N = TypeCode.Null)) by done.
  rewrite (bool_decide_eq_false_2 (254%N = 253%N)) by done.
  rewrite (bool_decide_eq_true_2 (254%N = 254%N)) by done.
  assert (E1 : drop (pos (advance 1 buf)) (data (advance 1 buf))
               = [k0; k1] ++ rest)
    by (by apply (drop_advance 1 buf [xfe])).
  rewrite (from_wire_uint_at 2 0 (advance 1 buf) [k0; k1] rest) by done.
  rewrite advance_advance. change (be (advance 1 buf)) with (be buf).
  rewrite C. rewrite (bool_decide_eq_false_2 (d :: entry = [])) by done.
  simpl. by rewrite take_ge by done.
Qed.

(** X4. A type that is decoded under a cache definition can be decoded again
    by a cache reference. When the type behind [0xFD] and the key is decoded
    without a fault and adds nodes, the definition binds the key to exactly
    the nodes added; and from then on a reference [0xFE] to the same key,
    wherever it is met (in any destination vector, at any depth up to 20),
    appends the same nodes and sets no fault. *)
Theorem cache_define_then_ref (buf : Buffer) (ctxt : TypeDeserContext)
    (depth : nat) (k0 k1 : byte) (rest : list byte)
    (b1 : Buffer) (c1 : TypeDeserContext) :
  faulted buf = false → depth ≤ 20 →
  drop (pos buf) (data buf) = xfd :: k0 :: k1 :: rest →
  from_wire (advance 3 buf) ctxt (depth + 1) = Ok (b1, c1) →
  faulted b1 = false →
  descs c1 ≠ descs ctxt →
  let key := int_value (be buf) [k0; k1] in
  let new := drop (length (descs ctxt)) (descs c1) in
  let c2 := {| descs := descs c1; cache := <[key := new]> (cache c1) |} in
  from_wire buf ctxt depth = Ok (b1, c2)
  ∧ descs c1 = descs ctxt ++ new
  ∧ ∀ buf' ds' depth' rest',
      faulted buf' = false → depth' ≤ 20 → be buf' = be buf →
      drop (pos buf') (data buf') = xfe :: k0 :: k1 :: rest' →
      from_wire buf' {| descs := ds'; cache := cache c2 |} depth'
      = Ok (advance 3 buf', {| descs := ds' ++ new; cache := cache c2 |}).
Proof.
  intros F D E R G NE key new c2.
  destruct (from_wire_rem_prefix _ _ _ _ _ R) as [suf P].
  assert (Hn : new = suf) by (unfold new; by rewrite P, drop_app_length).
  assert (Hs : suf ≠ []) by (intros ->; by rewrite app_nil_r in P).
  split; [|split].
  - rewrite (decode_define buf ctxt depth k0 k1 rest F D E), R.
    simpl. unfold good. rewrite G. simpl.
    rewrite bool_decide_eq_false_2; [done|].
    rewrite P, length_app. destruct suf; [done|simpl; lia].
  - by rewrite Hn.
  - intros buf' ds' depth' rest' F' D' B' E'.
    destruct new as [|d entry] eqn:En; [by rewrite Hn in Hs|].
    rewrite (decode_ref buf' {| descs := ds'; cache := cache c2 |} depth'
               k0 k1 rest' d entry F' D' E'); [done|].
    simpl. rewrite B'. apply lookup_insert_eq.
Qed.

(** Nested cache definitions met at a depth: the type inside is decoded
    when the depth of the first definition and their number sum to at most
    20. *)
Lemma nested_defines_depth (k : nat) :
  ∀ depth buf ctxt rest,
    faulted buf = false → depth ≤ 21 →
    drop (pos buf) (data buf) = Spec.nested_defines k [x22] ++ rest →
    if bool_decide (depth + k ≤ 20)
    then ∃ tc, from_wire buf ctxt depth
               = Ok (advance (3 * k + 1) buf,
                     {| descs := descs ctxt ++ [Spec.scalar_node TypeCode.Int32];
                        cache := tc |})
    else ∃ b, from_wire buf ctxt depth = Ok (b, ctxt) ∧ faulted b = true.
Proof.
  induction k as [|k IH]; intros depth buf ctxt rest F D E.
  - case_bool_decide as L.
    + exists (cache ctxt).
      apply (decode_leaf buf ctxt depth x22 rest F); [lia|done|].
      apply (list_elem_of_lookup_2 _ 3). reflexivity.
    + exists (fault buf). split; [|done]. apply from_wire_too_deep. lia.
  - destruct (decide (depth = 21)) as [->|N].
    { rewrite bool_decide_eq_false_2 by lia.
      exists (fault buf). split; [|done]. by apply from_wire_too_deep. }
    assert (E3 : drop (pos (advance 3 buf)) (data (advance 3 buf))
                 = Spec.nested_defines k [x22] ++ rest)
      by (by apply (drop_advance 3 buf [xfd; x00; x00])).
    pose proof (IH (depth + 1) (advance 3 buf) ctxt rest eq_refl
                  ltac:(lia) E3) as R.
    rewrite (decode_define buf ctxt depth x00 x00
               (Spec.nested_defines k [x22] ++ rest) F ltac:(lia) E).
    destruct (decide (depth + S k ≤ 20)) as [L|L].
    + rewrite bool_decide_eq_true_2 in R by lia.
      rewrite (bool_decide_eq_true_2 _ L).
      destruct R as [tc ->]. simpl.
      rewrite bool_decide_eq_false_2 by (rewrite length_app; simpl; lia).
      rewrite advance_advance. eexists. do 3 f_equal. lia.
    + rewrite bool_decide_eq_false_2 in R by lia.
      rewrite (bool_decide_eq_false_2 _ L).
      destruct R as (b & -> & Fb). simpl. unfold good. rewrite Fb. simpl.
      by exists (fault b).
Qed.

(** X5. The nesting limit. A type inside [k] nested cache definitions is
    decoded at depth [k]: it is accepted up to 20 levels, where the decoder
    reads all [3k+1] bytes and appends the node, and rejected from 21 on,
    where the decoder sets the fault flag and leaves the vector and the
    cache as they were. *)
Theorem nesting_limit (k : nat) (buf : Buffer) (ctxt : TypeDeserContext)
    (rest : list byte) :
  faulted buf = false →
  drop (pos buf) (data buf) = Spec.nested_defines k [x22] ++ rest →
  if bool_decide (k ≤ 20)
  then ∃ tc, from_wire buf ctxt 0
             = Ok (advance (3 * k + 1) buf,
                   {| descs := descs ctxt ++ [Spec.scalar_node TypeCode.Int32];
                      cache := tc |})
  else ∃ b, from_wire buf ctxt 0 = Ok (b, ctxt) ∧ faulted b = true.
Proof.
  intros F E. exact (nested_defines_depth k 0 buf ctxt rest F ltac:(lia) E).
Qed.

(** X6. An array of Structs or Unions whose element type is the byte [0xFF]
    (no type): the decoder has added the node of the array, the element adds
    none, and the test of the element code reads the vector one position
    past its end. *)
Theorem array_of_null_out_of_bounds (buf : Buffer) (ctxt : TypeDeserContext)
    (depth : nat) (x : byte) (rest : list byte) :
  faulted buf = false → depth < 20 →
  x ∈ [x88; x89] →
  drop (pos buf) (data buf) = x :: xff :: rest →
  from_wire buf ctxt depth = Err OutOfBounds.
Proof.
  intros F D X E.
  assert (E1 : drop (pos (advance 1 buf)) (data (advance 1 buf))
               = xff :: rest)
    by (by apply (drop_advance 1 buf [x])).
  rewrite from_wire_unfold by lia. unfold from_wire_body at 1, good.
  rewrite F. simpl negb. cbv iota.
  rewrite (from_wire_byte_at _ buf x (xff :: rest)) by done.
  assert (R : ∀ c', from_wire (advance 1 buf) c' (depth + 1)
                    = Ok (advance 2 buf, c')).
  { intros c'. rewrite from_wire_unfold by lia. unfold from_wire_body, good.
    simpl negb. cbv iota.
    rewrite (from_wire_byte_at _ (advance 1 buf) xff rest) by done.
    by rewrite advance_advance. }
  rewrite !elem_of_cons, elem_of_nil in X.
  destruct X as [->|[->|[]]]; simpl; rewrite R; simpl;
    (rewrite bool_decide_eq_false_2 by (rewrite length_app; simpl; lia));
    unfold at_index;
    rewrite (lookup_ge_None_2 _ (length (descs ctxt) + 1)); try done;
    rewrite length_app; simpl; lia.
Qed.

(** X7. Round trip of the types with a single-node description: the encoder
    writes the code byte of the node, and the decoder makes of that byte one
    node of the same code, reading the byte and setting no fault. *)
Theorem leaf_type_roundtrip (n : nat) (big : bool) (ds : list FieldDesc)
    (cur : nat) (d : FieldDesc) (ctxt : TypeDeserContext) :
  ds !! cur = Some d →
  code d ∈ Spec.leaf_codes →
  ∃ b, to_wire (S n) (out_buffer big 1) ds cur = Ok b
       ∧ faulted b = false
       ∧ from_wire (in_buffer big (data b)) ctxt 0
         = Ok (advance 1 (in_buffer big (data b)),
               {| descs := descs ctxt ++ [Spec.scalar_node (code d)];
                  cache := cache ctxt |}).
Proof.
  intros Hd L.
  assert (K : bool_decide (code d = TypeCode.StructA ∨ code d = TypeCode.UnionA)
              = false
              ∧ bool_decide (code d = TypeCode.Struct ∨ code d = TypeCode.Union)
                = false
              ∧ (code d mod 256 = code d)%N).
  { revert L. generalize (code d). intros c L. unfold Spec.leaf_codes in L.
    rewrite !elem_of_cons, elem_of_nil in L.
    repeat (destruct L as [->|L]; [by vm_compute|]). done. }
  destruct K as (K1 & K2 & K3).
  exists {| be := big; data := [byte_of_N (code d)]; pos := 1;
            faulted := false |}.
  assert (W : to_wire_uint 1 (code d) (out_buffer big 1)
              = {| be := big; data := [byte_of_N (code d)]; pos := 1;
                   faulted := false |}).
  { unfold to_wire_uint. change (be (out_buffer big 1)) with big.
    replace (int_bytes big 1 (code d)) with [byte_of_N (code d)]
      by (by destruct big).
    apply (put_out_buffer big [byte_of_N (code d)]). }
  split; [|split; [done|]].
  - simpl. unfold at_index. rewrite Hd. simpl. rewrite W, K1, K2. done.
  - pose proof (decode_leaf (in_buffer big [byte_of_N (code d)]) ctxt 0
                  (byte_of_N (code d)) [] eq_refl ltac:(lia) eq_refl) as R.
    rewrite to_N_byte_of_N, K3 in R. by apply R.
Qed.

End TypeCodecFacts.

Section TypeCodecWitnesses.
Import Wire TypeCodec.
#[local] Existing Instance Sample.string_hash.

(** A Struct whose number of members is the null sentinel: room for
    [size_t(-1)] members is asked for, and [std::length_error] is thrown. *)
Lemma struct_of_null_count :
  from_wire (in_buffer true [x80; x00; xff]) {| descs := []; cache := ∅ |} 0
  = Err LengthError.
Proof. vm_compute. reflexivity. Qed.

(** The code [0x32], a fixed-length array of [Int32]. *)
Lemma fixed_length_rejected_witness :
  from_wire (in_buffer true [x32]) Examples.cache7 0
  = Ok (fault (advance 1 (in_buffer true [x32])), Examples.cache7).
Proof.
  apply (fixed_length_rejected (in_buffer true [x32]) Examples.cache7 0 x32 []
           eq_refl (Nat.le_0_l 20) eq_refl).
  - discriminate.
  - rewrite !not_elem_of_cons. repeat split; try discriminate.
    apply not_elem_of_nil.
Defined.

(** The cache reference to key 7 appends to a vector that holds one node. *)
Lemma from_wire_appends_witness :
  ∃ new, [Examples.leaf TypeCode.String; Examples.leaf TypeCode.Int32]
         = descs Examples.cache7 ++ new.
Proof.
  exact (from_wire_appends Examples.ref7 Examples.cache7 0
           (advance 3 Examples.ref7)
           {| descs := [Examples.leaf TypeCode.String;
                        Examples.leaf TypeCode.Int32];
              cache := cache Examples.cache7 |}
           eq_refl).
Defined.

(** The definition of key 7 as [Int32], then a reference to key 7 in a
    vector that holds a [String] node. *)
Lemma cache_define_then_ref_witness :
  from_wire (in_buffer true [xfd; x00; x07; x22])
    {| descs := []; cache := ∅ |} 0
  = Ok (advance 4 (in_buffer true [xfd; x00; x07; x22]),
        {| descs := [Spec.scalar_node TypeCode.Int32];
           cache := <[7%N := [Spec.scalar_node TypeCode.Int32]]> ∅ |})
  ∧ from_wire Examples.ref7
      {| descs := [Examples.leaf TypeCode.String];
         cache := <[7%N := [Spec.scalar_node TypeCode.Int32]]> ∅ |} 0
    = Ok (advance 3 Examples.ref7,
          {| descs := [Examples.leaf TypeCode.String;
                       Spec.scalar_node TypeCode.Int32];
             cache := <[7%N := [Spec.scalar_node TypeCode.Int32]]> ∅ |}).
Proof.
  destruct (cache_define_then_ref (in_buffer true [xfd; x00; x07; x22])
              {| descs := []; cache := ∅ |} 0 x00 x07 [x22]
              (advance 4 (in_buffer true [xfd; x00; x07; x22]))
              {| descs := [Spec.scalar_node TypeCode.Int32]; cache := ∅ |}
              eq_refl (Nat.le_0_l 20) eq_refl eq_refl eq_refl
              ltac:(discriminate)) as (A & _ & B).
  split; [exact A|].
  exact (B Examples.ref7 [Examples.leaf TypeCode.String] 0 []
           eq_refl (Nat.le_0_l 20) eq_refl eq_refl).
Defined.

(** Twenty and twenty-one nested definitions around [Int32]. *)
Lemma nesting_limit_witness :
  (∃ tc, from_wire (in_buffer true (Spec.nested_defines 20 [x22]))
           {| descs := []; cache := ∅ |} 0
         = Ok (advance 61 (in_buffer true (Spec.nested_defines 20 [x22])),
               {| descs := [Spec.scalar_node TypeCode.Int32]; cache := tc |}))
  ∧ ∃ b, from_wire (in_buffer true (Spec.nested_defines 21 [x22]))
           {| descs := []; cache := ∅ |} 0
         = Ok (b, {| descs := []; cache := ∅ |})
         ∧ faulted b = true.
Proof.
  split.
  - exact (nesting_limit 20 (in_buffer true (Spec.nested_defines 20 [x22]))
             {| descs := []; cache := ∅ |} [] eq_refl eq_refl).
  - exact (nesting_limit 21 (in_buffer true (Spec.nested_defines 21 [x22]))
             {| descs := []; cache := ∅ |} [] eq_refl eq_refl).
Defined.

(** An array of Structs whose element type is missing. *)
Lemma array_of_null_out_of_bounds_witness :
  from_wire (in_buffer true [x88; xff]) {| descs := []; cache := ∅ |} 0
  = Err OutOfBounds.
Proof.
  apply (array_of_null_out_of_bounds (in_buffer true [x88; xff])
           {| descs := []; cache := ∅ |} 0 x88 []
           eq_refl ltac:(lia)); [|reflexivity].
  apply (list_elem_of_lookup_2 _ 0). reflexivity.
Defined.

(** The type [Float64A]. *)
Lemma leaf_type_roundtrip_witness :
  ∃ b, to_wire 1 (out_buffer true 1) [Examples.leaf TypeCode.Float64A] 0 = Ok b
       ∧ faulted b = false
       ∧ from_wire (in_buffer true (data b)) {| descs := []; cache := ∅ |} 0
         = Ok (advance 1 (in_buffer true (data b)),
               {| descs := [Spec.scalar_node TypeCode.Float64A]; cache := ∅ |}).
Proof.
  apply (leaf_type_roundtrip 0 true [Examples.leaf TypeCode.Float64A] 0
           (Examples.leaf TypeCode.Float64A) {| descs := []; cache := ∅ |}
           eq_refl).
  apply (list_elem_of_lookup_2 _ 23). reflexivity.
Defined.

End TypeCodecWitnesses.

(** ** The value codec: scalars *)
Section ScalarFacts.
Import Wire Data ValueCodec.
Context `{BM : BuildMode} `{SH : StdHash} `{VI : ValueImpl}.

Ltac eval_is_code :=
  repeat match goal with
         | |- context [is_code ?a ?b] =>
             let v := eval vm_compute in (is_code a b) in
             change (is_code a b) with v
         end.

(** A [w]-byte integer written to a region of [w] bytes, and read back. *)
Lemma to_wire_uint_out (big : bool) (w : nat) (v : N) :
  to_wire_uint w v (out_buffer big w)
  = {| be := big; data := int_bytes big w v; pos := w; faulted := false |}.
Proof.
  unfold to_wire_uint. change (be (out_buffer big w)) with big.
  pose proof (put_out_buffer big (int_bytes big w v)) as P.
  by rewrite length_int_bytes in P.
Qed.

Lemma from_wire_uint_back (big : bool) (w : nat) (v dflt : N) :
  w ≠ 0 →
  from_wire_uint w dflt (in_buffer big (int_bytes big w v))
  = (advance w (in_buffer big (int_bytes big w v)), (v mod 256 ^ N.of_nat w)%N).
Proof.
  intros W.
  pose proof (from_wire_uint_in_buffer big (int_bytes big w v) dflt) as P.
  rewrite length_int_bytes, int_value_int_bytes in P. apply P.
  intros Z. apply (f_equal length) in Z. rewrite length_int_bytes in Z.
  simpl in Z. done.
Qed.

(** X8. Round trip of an unsigned integer scalar. The encoder writes the
    [w] bytes of the value; the decoder reads them through the signed type
    of the same width and converts the result to 64 bits. So a value below
    [2^(8w-1)] is read back as it was, and a value from [2^(8w-1)] on is
    read back with the bits above its width set: [u + 2^64 - 2^(8w)]. For
    [UInt64] the two are the same, and every value is read back. *)
Theorem roundtrip_unsigned_scalar (big : bool) (w : nat) (c : N) (u : N) :
  (w, c) ∈ [(1, TypeCode.UInt8); (2, TypeCode.UInt16);
            (4, TypeCode.UInt32); (8, TypeCode.UInt64)] →
  (u < 256 ^ N.of_nat w)%N →
  ∃ b, to_wire_full 1 (out_buffer big w) (Examples.single c (Store_UInteger u))
       = Ok b
       ∧ faulted b = false
       ∧ from_wire_full 1 (in_buffer big (data b)) ∅
           (Examples.single c (Store_UInteger 0))
         = Ok (advance w (in_buffer big (data b)), ∅,
               Examples.single c
                 (Store_UInteger
                    (if (2 * u <? 256 ^ N.of_nat w)%N then u
                     else u + 2 ^ 64 - 256 ^ N.of_nat w)%N)).
Proof.
  intros Hc R.
  exists {| be := big; data := int_bytes big w u; pos := w; faulted := false |}.
  assert (S : to_uint64 (signed w (u mod 256 ^ N.of_nat w))
              = (if (2 * u <? 256 ^ N.of_nat w)%N then u
                 else u + 2 ^ 64 - 256 ^ N.of_nat w)%N).
  { rewrite N.mod_small by done. unfold to_uint64, signed.
    rewrite !elem_of_cons, elem_of_nil in Hc.
    destruct Hc as [Hc|[Hc|[Hc|[Hc|[]]]]]; injection Hc as -> _;
      revert R;
      match goal with
      | |- context [(256 ^ ?e)%N] =>
          let v := eval vm_compute in (256 ^ e)%N in
          change (256 ^ e)%N with v
      end;
      match goal with
      | |- context [(2 ^ (8 * ?a - 1))%Z] =>
          let v := eval vm_compute in (2 ^ (8 * a - 1))%Z in
          change (2 ^ (8 * a - 1))%Z with v
      end;
      match goal with
      | |- context [(2 ^ (8 * ?a))%Z] =>
          let v := eval vm_compute in (2 ^ (8 * a))%Z in
          change (2 ^ (8 * a))%Z with v
      end;
      intros R;
      match goal with
      | |- context [(Z.of_N u <? ?h)%Z] => destruct (Z.ltb_spec (Z.of_N u) h)
      end;
      match goal with
      | |- context [(2 * u <? ?h)%N] => destruct (N.ltb_spec (2 * u) h)
      end; try lia.
    all: try (rewrite Z.mod_small by lia; lia).
    all: match goal with
         | |- Z.to_N ((?a - ?m) `mod` ?k) = _ =>
             rewrite <- (Z_mod_plus_full (a - m) 1 k);
             rewrite Z.mod_small by lia; lia
         end. }
  assert (Hw : w ≠ 0).
  { rewrite !elem_of_cons, elem_of_nil in Hc.
    destruct Hc as [Hc|[Hc|[Hc|[Hc|[]]]]]; by injection Hc as -> _. }
  pose proof (to_wire_uint_out big w u) as E.
  pose proof (from_wire_uint_back big w u 0 Hw) as D.
  clear R Hw.
  rewrite !elem_of_cons, elem_of_nil in Hc.
  destruct Hc as [Hc|[Hc|[Hc|[Hc|[]]]]]; injection Hc as -> ->.
  all: split; [exact (f_equal Ok E)|]; split; [done|].
  all: cbn -[from_wire_uint signed to_uint64 is_code N.pow N.mul N.ltb].
  all: eval_is_code.
  all: cbv iota; rewrite D; cbn -[signed to_uint64 N.pow N.mul N.ltb];
    by rewrite S.
Qed.

(** X9. A [Bool] cell is normalised in both directions: the encoder writes
    the byte 1 for every value other than 0, and the decoder stores 1 for
    every byte other than 0. *)
Theorem bool_normalised (big : bool) (u : N) (p : byte) :
  (∃ b, to_wire_full 1 (out_buffer big 1)
          (Examples.single TypeCode.Bool (Store_UInteger u)) = Ok b
        ∧ faulted b = false
        ∧ data b = [if (u =? 0)%N then x00 else x01])
  ∧ from_wire_full 1 (in_buffer big [p]) ∅
      (Examples.single TypeCode.Bool (Store_UInteger u))
    = Ok (advance 1 (in_buffer big [p]), ∅,
          Examples.single TypeCode.Bool
            (Store_UInteger (if bool_decide (p = x00) then 0 else 1)%N)).
Proof.
  split.
  - eexists. split; [|split].
    + cbn -[to_wire_uint]. rewrite to_wire_uint_out. reflexivity.
    + done.
    + simpl. by destruct big, (u =? 0)%N.
  - cbn -[from_wire_uint].
    rewrite (from_wire_byte_at 0 (in_buffer big [p]) p []) by done.
    cbn. do 4 f_equal.
    case_bool_decide as P; [by subst p|].
    destruct (N.eqb_spec (Byte.to_N p) 0) as [Z|_]; [|done].
    by apply byte_zero in Z.
Qed.

(** X10. The decoder takes none of its cases for an Array cell whose code is
    an array of integers or of floating point numbers (they name the scalar
    codes, as those of the encoder do): it sets the fault flag, reads nothing
    and leaves the storage as it was. *)
Theorem numeric_array_decode_faults (n : nat) (buf : Buffer) (ctxt : TypeStore)
    (ds : list FieldDesc) (dpos : nat) (top : StructTop) (spos : nat)
    (d : FieldDesc) (a : shared_array) :
  members top !! spos = Some (Store_Array a) →
  ds !! dpos = Some d →
  code d ∈ TypeCode.numeric_array_codes →
  from_wire_field (S n) buf ctxt ds dpos top spos = Ok (fault buf, ctxt, top).
Proof.
  intros Hs Hd Hc. simpl. unfold at_index. rewrite Hs, Hd. simpl.
  unfold TypeCode.numeric_array_codes in Hc.
  rewrite !elem_of_cons, elem_of_nil in Hc.
  repeat (destruct Hc as [->|Hc]; [reflexivity|]). done.
Qed.

(** X11. A cell that is not an Array cell and whose [StoreType] is not the
    one of its code (whatever the code, known or not): the decoder sets the
    fault flag, reads nothing and leaves the storage as it was; the encoder
    ends at [assert(false)], and writes nothing when assertions are compiled
    out. *)
Theorem category_mismatch (n : nat) (buf : Buffer) (ctxt : TypeStore)
    (ds : list FieldDesc) (dpos : nat) (top : StructTop) (spos : nat)
    (d : FieldDesc) (store : FieldStorage) :
  members top !! spos = Some store →
  ds !! dpos = Some d →
  Spec.same_category store (Store_Array Array_empty) = false →
  Spec.same_category store (Sample.init_cell (code d)) = false →
  from_wire_field (S n) buf ctxt ds dpos top spos = Ok (fault buf, ctxt, top)
  ∧ to_wire_field (S n) buf ds dpos top spos
    = if NDEBUG then Ok (fault buf) else Err AssertFailed.
Proof.
  intros Hs Hd Ha Hc. simpl. unfold at_index. rewrite Hs, Hd. simpl.
  assert (B : (_ ← assert_ false; Ok (fault buf))
              = if NDEBUG then Ok (fault buf) else Err AssertFailed)
    by (unfold assert_; by destruct NDEBUG).
  rewrite B. clear B. revert Hc. generalize (code d). intros c Hc.
  unfold is_code.
  destruct store; try done;
    repeat (case_bool_decide;
            [subst c; by vm_compute in Hc|]); done.
Qed.

End ScalarFacts.

(** ** The value codec: what decoding leaves in place *)
Section FrameFacts.
Import Wire Data ValueCodec.
Context `{BM : BuildMode} `{SH : StdHash} `{VI : ValueImpl}.

Lemma set_cell_shape (top : StructTop) (spos : nat) (c : FieldStorage) :
  member_indicies (set_cell top spos c) = member_indicies top
  ∧ length (members (set_cell top spos c)) = length (members top).
Proof. split; [done|]. simpl. apply length_insert. Qed.

Lemma set_cell_other (top : StructTop) (spos j : nat) (c : FieldStorage) :
  j ≠ spos → members (set_cell top spos c) !! j = members top !! j.
Proof. intros N. simpl. by apply list_lookup_insert_ne. Qed.

(** A field whose cell is not [Null]: the result, when there is one, is the
    storage as it was or the storage with the cell assigned. *)
Lemma from_wire_field_leaf (n : nat) (buf : Buffer) (ctxt : TypeStore)
    (ds : list FieldDesc) (dpos : nat) (top : StructTop) (spos : nat)
    (b : Buffer) (c : TypeStore) (t : StructTop) :
  members top !! spos ≠ Some Store_Null →
  from_wire_field n buf ctxt ds dpos top spos = Ok (b, c, t) →
  t = top ∨ ∃ cell, t = set_cell top spos cell.
Proof.
  intros NN H. destruct n as [|n]; [done|]. simpl in H.
  unfold at_index in H.
  destruct (members top !! spos) as [store|]; simpl in H; [|done].
  destruct (ds !! dpos) as [d|]; simpl in H; [|done].
  unfold from_wire_elems, from_wire_array, from_wire_full_with, mbind,
    Res_bind in H.
  destruct store; [done|..];
    repeat case_match; simplify_eq; eauto.
Qed.

(** The member loop of a Struct keeps what each of its steps keeps. *)
Lemma struct_loop_keeps (P : StructTop → Prop)
    (f : Buffer → TypeStore → StructTop → nat → Res (Buffer * TypeStore * StructTop))
    (offs : list nat) :
  (∀ b0 c0 t0 off b1 c1 t1, P t0 → f b0 c0 t0 off = Ok (b1, c1, t1) → P t1) →
  ∀ acc b c t,
    (∀ b0 c0 t0, acc = Ok (b0, c0, t0) → P t0) →
    foldl (λ acc off, '(buf, ctxt, top) ← acc; f buf ctxt top off) acc offs
    = Ok (b, c, t) →
    P t.
Proof.
  intros Hf. induction offs as [|off offs IH]; intros acc b c t Ha H;
    simpl in H.
  - by apply (Ha b c).
  - apply IH in H; [done|].
    intros b1 c1 t1 E. destruct acc as [[[b0 c0] t0]|e]; [|done].
    simpl in E. by apply (Hf b0 c0 t0 off b1 c1 t1); [apply (Ha b0 c0)|].
Qed.

Lemma from_wire_field_shape (n : nat) :
  ∀ buf ctxt ds dpos top spos b c t,
    from_wire_field n buf ctxt ds dpos top spos = Ok (b, c, t) →
    member_indicies t = member_indicies top
    ∧ length (members t) = length (members top).
Proof.
  induction n as [|n IH]; intros buf ctxt ds dpos top spos b c t H; [done|].
  assert (D : members top !! spos = Some Store_Null
              ∨ members top !! spos ≠ Some Store_Null)
    by (destruct (members top !! spos) as [[]|]; (by left) || (by right)).
  destruct D as [E|NE].
  - simpl in H. unfold at_index in H. rewrite E in H. simpl in H.
    destruct (ds !! dpos) as [d|]; simpl in H; [|done].
    destruct (is_code (code d) TypeCode.Struct); [|by simplify_eq].
    destruct (struct_range d) as [offs|]; simpl in H; [|done].
    revert H.
    apply (struct_loop_keeps
             (λ t, member_indicies t = member_indicies top
                   ∧ length (members t) = length (members top))
             (λ buf ctxt top off,
                idx ← at_index (member_indicies top) off;
                cdesc ← at_index ds (dpos + idx);
                if negb (is_code (code cdesc) TypeCode.Struct)
                then from_wire_field n buf ctxt ds (dpos + idx) top (spos + off)
                else Ok (buf, ctxt, top))).
    + intros b0 c0 t0 off b1 c1 t1 [P1 P2] F.
      destruct (at_index (member_indicies t0) off) as [idx|]; simpl in F;
        [|done].
      destruct (at_index ds (dpos + idx)) as [cdesc|]; simpl in F; [|done].
      destruct (negb _); [|by simplify_eq].
      apply IH in F. destruct F as [F1 F2]. split; congruence.
    + intros b0 c0 t0 [= _ _ <-]. done.
  - destruct (from_wire_field_leaf _ _ _ _ _ _ _ _ _ _ NE H) as [->|[cell ->]];
      [done|apply set_cell_shape].
Qed.

(** X12. Decoding a field keeps the layout of the storage: the number of
    cells and the table [member_indicies] are as before. And when the cell
    is not the [Null] cell of a Struct, every other cell keeps its
    content. *)
Theorem from_wire_field_frame (n : nat) (buf : Buffer) (ctxt : TypeStore)
    (ds : list FieldDesc) (dpos : nat) (top : StructTop) (spos : nat)
    (b : Buffer) (c : TypeStore) (t : StructTop) :
  from_wire_field n buf ctxt ds dpos top spos = Ok (b, c, t) →
  member_indicies t = member_indicies top
  ∧ length (members t) = length (members top)
  ∧ (members top !! spos ≠ Some Store_Null →
     ∀ j, j ≠ spos → members t !! j = members top !! j).
Proof.
  intros H. destruct (from_wire_field_shape _ _ _ _ _ _ _ _ _ _ H) as [S1 S2].
  split; [done|split; [done|]].
  intros NE j Hj.
  destruct (from_wire_field_leaf _ _ _ _ _ _ _ _ _ _ NE H) as [->|[cell ->]];
    [done|by apply set_cell_other].
Qed.

End FrameFacts.

(** ** The value codec on a buffer that has nothing left *)
Section ShortBufferFacts.
Import Wire Data ValueCodec.
Context `{BM : BuildMode} `{SH : StdHash} `{VI : ValueImpl}.

Lemma from_wire_uint_faulted (w : nat) (dflt : N) (buf : Buffer) :
  faulted buf = true → from_wire_uint w dflt buf = (buf, dflt).
Proof. intros F. unfold from_wire_uint, get. by rewrite F. Qed.

Lemma from_wire_Size_faulted (dflt : N) (buf : Buffer) :
  faulted buf = true → from_wire_Size dflt buf = (buf, dflt).
Proof. intros F. unfold from_wire_Size, get. by rewrite F. Qed.

Lemma from_wire_string_faulted (dflt : string) (buf : Buffer) :
  faulted buf = true → from_wire_string dflt buf = (buf, dflt).
Proof.
  intros F. unfold from_wire_string.
  rewrite from_wire_Size_faulted by done. by rewrite F.
Qed.

(** At the end of the region a read of one byte sets the fault flag. *)
Lemma from_wire_uint_at_end (dflt : N) (buf : Buffer) :
  faulted buf = false → length (data buf) ≤ pos buf →
  from_wire_uint 1 dflt buf = (fault buf, dflt).
Proof.
  intros F L. unfold from_wire_uint, get, ensure. rewrite F.
  destruct (Nat.leb_spec (pos buf + 1) (length (data buf))); [lia|done].
Qed.

(** X13. A scalar field decoded from a buffer whose fault flag is already set
    (as the fields of a Struct are after one of them failed: the member loop
    does not test the flag). Nothing is read; a number cell is overwritten
    with 0, a String cell keeps its string. *)
Theorem decode_faulted_scalar (n : nat) (buf : Buffer) (ctxt : TypeStore)
    (ds : list FieldDesc) (dpos : nat) (top : StructTop) (spos : nat)
    (d : FieldDesc) (store : FieldStorage) :
  faulted buf = true →
  members top !! spos = Some store →
  ds !! dpos = Some d →
  match store with
  | Store_Integer _ =>
      code d ∈ [TypeCode.Int8; TypeCode.Int16; TypeCode.Int32; TypeCode.Int64]
  | Store_UInteger _ =>
      code d ∈ [TypeCode.Bool; TypeCode.UInt8; TypeCode.UInt16;
                TypeCode.UInt32; TypeCode.UInt64]
  | Store_Real _ => code d ∈ [TypeCode.Float32; TypeCode.Float64]
  | Store_String _ => code d = TypeCode.String
  | _ => False
  end →
  from_wire_field (S n) buf ctxt ds dpos top spos
  = Ok (buf, ctxt, set_cell top spos (Spec.unread store)).
Proof.
  intros F Hs Hd Hc. simpl. unfold at_index. rewrite Hs, Hd. simpl.
  rewrite !from_wire_uint_faulted by done.
  destruct store; try done;
    [rewrite !elem_of_cons, elem_of_nil in Hc..|];
    [repeat (destruct Hc as [->|Hc]; [by vm_compute|]); done..|].
  rewrite Hc. simpl. by rewrite from_wire_string_faulted.
Qed.

(** On a buffer whose fault flag is set, each element of an array of
    compounds is read as absent, and the loop goes on. *)
Lemma elems_loop_faulted
    (step : Buffer → TypeStore → Res (Buffer * TypeStore * option Value))
    (buf : Buffer) (ctxt : TypeStore) (k : nat) :
  step buf ctxt = Ok (buf, ctxt, Some Value_null) →
  elems_loop step k buf ctxt = Ok (buf, ctxt, Some (replicate k Value_null)).
Proof.
  intros St. induction k as [|k IH]; [done|].
  simpl. rewrite St. simpl. rewrite IH. done.
Qed.

Lemma elem_faulted (full : Buffer → TypeStore → Value → Res (Buffer * TypeStore * Value))
    (ds : list FieldDesc) (dpos : nat) (buf : Buffer) (ctxt : TypeStore) :
  faulted buf = true →
  structA_elem full ds dpos buf ctxt = Ok (buf, ctxt, Some Value_null)
  ∧ unionA_elem full ds dpos buf ctxt = Ok (buf, ctxt, Some Value_null)
  ∧ anyA_elem full buf ctxt = Ok (buf, ctxt, Some Value_null).
Proof.
  intros F. unfold structA_elem, unionA_elem, anyA_elem.
  by rewrite from_wire_uint_faulted.
Qed.

Lemma elem_at_end (full : Buffer → TypeStore → Value → Res (Buffer * TypeStore * Value))
    (ds : list FieldDesc) (dpos : nat) (buf : Buffer) (ctxt : TypeStore) :
  faulted buf = false → length (data buf) ≤ pos buf →
  structA_elem full ds dpos buf ctxt = Ok (fault buf, ctxt, Some Value_null)
  ∧ unionA_elem full ds dpos buf ctxt = Ok (fault buf, ctxt, Some Value_null)
  ∧ anyA_elem full buf ctxt = Ok (fault buf, ctxt, Some Value_null).
Proof.
  intros F L. unfold structA_elem, unionA_elem, anyA_elem.
  by rewrite from_wire_uint_at_end.
Qed.

Lemma elems_loop_at_end
    (step : Buffer → TypeStore → Res (Buffer * TypeStore * option Value))
    (buf : Buffer) (ctxt : TypeStore) (k : nat) :
  step buf ctxt = Ok (fault buf, ctxt, Some Value_null) →
  step (fault buf) ctxt = Ok (fault buf, ctxt, Some Value_null) →
  elems_loop step k buf ctxt
  = Ok (if bool_decide (k = 0) then buf else fault buf, ctxt,
        Some (replicate k Value_null)).
Proof.
  intros S1 S2. destruct k as [|k]; [done|].
  simpl. rewrite S1. simpl. by rewrite (elems_loop_faulted _ _ _ _ S2).
Qed.

(** X14. An array of Structs, of Unions or of Anys whose length is announced
    in one byte, with nothing behind it. When the byte is [0xFF], the null
    sentinel, an array of [size_t(-1)] elements is asked for and
    [std::bad_alloc] is thrown. When the length is below 254, the decoder
    does not compare it with what is left of the buffer: the first element
    sets the fault flag, the loop goes on to the announced length, and the
    cell is assigned an array of that many null elements. *)
Theorem truncated_compound_array (n : nat) (buf : Buffer) (ctxt : TypeStore)
    (ds : list FieldDesc) (dpos : nat) (top : StructTop) (spos : nat)
    (d : FieldDesc) (a : shared_array) (b1 : Buffer) (alen : N) :
  members top !! spos = Some (Store_Array a) →
  ds !! dpos = Some d →
  code d ∈ [TypeCode.StructA; TypeCode.UnionA; TypeCode.AnyA] →
  from_wire_Size 0 buf = (b1, alen) →
  faulted b1 = false →
  length (data b1) ≤ pos b1 →
  (alen < 254 ∨ alen = size_null)%N →
  from_wire_field (S n) buf ctxt ds dpos top spos
  = if (alen =? size_null)%N then Err BadAlloc
    else Ok (if bool_decide (N.to_nat alen = 0) then b1 else fault b1, ctxt,
             set_cell top spos
               (Store_Array
                  (Array_Value (replicate (N.to_nat alen) Value_null)))).
Proof.
  intros Hs Hd Hc Sz F L Hl.
  assert (Al : new_array alen
               = if (alen =? size_null)%N then Err BadAlloc else Ok ()).
  { rewrite new_array_spec. unfold size_null in *.
    destruct (N.ltb_spec alen (2 ^ 64 - 1)), (N.eqb_spec alen (2 ^ 64 - 1));
      try done; lia. }
  rewrite (from_wire_field_elems n buf ctxt ds dpos top spos d a Hs Hd).
  destruct (elem_at_end (from_wire_full n) ds dpos b1 ctxt F L)
    as (A1 & A2 & A3).
  destruct (elem_faulted (from_wire_full n) ds dpos (fault b1) ctxt eq_refl)
    as (B1 & B2 & B3).
  rewrite !elem_of_cons, elem_of_nil in Hc.
  destruct Hc as [Hc|[Hc|[Hc|[]]]]; rewrite Hc; simpl;
    unfold from_wire_elems; rewrite Sz, Al;
    (destruct (alen =? size_null)%N; [done|]); simpl;
    [rewrite (elems_loop_at_end _ _ _ _ A1 B1)
    |rewrite (elems_loop_at_end _ _ _ _ A2 B2)
    |rewrite (elems_loop_at_end _ _ _ _ A3 B3)]; done.
Qed.

End ShortBufferFacts.

(** ** The value codec: Union and Any *)
Section CompoundFacts.
Import Wire Data ValueCodec.
Context `{BM : BuildMode} `{SH : StdHash} `{VI : ValueImpl}.

(** A [Size] of one byte. *)
Lemma from_wire_Size_byte (dflt : N) (buf : Buffer) (s : byte)
    (rest : list byte) :
  faulted buf = false →
  drop (pos buf) (data buf) = s :: rest →
  s ≠ xfe →
  from_wire_Size dflt buf
  = (advance 1 buf, if bool_decide (s = xff) then size_null else Byte.to_N s).
Proof.
  intros F E N. unfold from_wire_Size.
  pose proof (get_at buf [s] rest F ltac:(discriminate) E) as G.
  change (length [s]) with 1 in G. rewrite G.
  replace (int_value (be buf) [s]) with (Byte.to_N s)
    by (unfold int_value; destruct (be buf); simpl; lia).
  pose proof (Byte.to_N_bounded s) as B.
  destruct (N.ltb_spec (Byte.to_N s) 254) as [L|L].
  - rewrite bool_decide_eq_false_2; [done|]. intros ->. simpl in L. lia.
  - assert (Byte.to_N s ≠ 254%N)
      by (intros Z; by apply (to_N_inj s xfe) in Z).
    assert (Z : Byte.to_N s = 255%N) by lia.
    rewrite Z. simpl. apply (to_N_inj s xff) in Z.
    by rewrite bool_decide_eq_true_2.
Qed.

(** X15. The selector of a Union field. The null selector (the byte [0xFF])
    makes the cell hold the null Value. A selector below the number of
    members makes the decoder build the member of that position and decode
    it into the cell. Any other one-byte selector sets the fault flag and
    leaves the cell as it was. *)
Theorem union_decode_selector (n : nat) (buf : Buffer) (ctxt : TypeStore)
    (ds : list FieldDesc) (dpos : nat) (top : StructTop) (spos : nat)
    (d : FieldDesc) (v : Value) (s : byte) (rest : list byte) :
  members top !! spos = Some (Store_Compound v) →
  ds !! dpos = Some d →
  code d = TypeCode.Union →
  faulted buf = false →
  drop (pos buf) (data buf) = s :: rest →
  s ≠ xfe →
  from_wire_field (S n) buf ctxt ds dpos top spos
  = if bool_decide (s = xff)
    then Ok (advance 1 buf, ctxt, set_cell top spos (Store_Compound Value_null))
    else match miter d !! N.to_nat (Byte.to_N s) with
         | Some mem =>
             '(b, c, fld) ← from_wire_full n (advance 1 buf) ctxt
                              (build ds (dpos + mem.2));
             Ok (b, c, set_cell top spos (Store_Compound fld))
         | None => Ok (fault (advance 1 buf), ctxt, top)
         end.
Proof.
  intros Hs Hd Hc F E N. simpl. unfold at_index. rewrite Hs, Hd.
  simpl. rewrite Hc. simpl.
  rewrite (from_wire_Size_byte 0 buf s rest F E N).
  case_bool_decide as X; [done|].
  assert (Byte.to_N s ≠ size_null).
  { pose proof (Byte.to_N_bounded s). unfold size_null. lia. }
  destruct (N.eqb_spec (Byte.to_N s) size_null) as [|_]; [done|].
  destruct (N.ltb_spec (Byte.to_N s) (N.of_nat (length (miter d)))) as [L|L].
  - destruct (lookup_lt_is_Some_2 (miter d) (N.to_nat (Byte.to_N s)))
      as [mem Hm]; [lia|].
    rewrite Hm. done.
  - rewrite lookup_ge_None_2 by lia. done.
Qed.



(** The type byte [0xFF] where a type and a Value are expected: the Value
    is null. *)
Lemma from_wire_any_null
    (full : Buffer → TypeStore → Value → Res (Buffer * TypeStore * Value))
    (buf : Buffer) (ctxt : TypeStore) (rest : list byte) :
  faulted buf = false →
  drop (pos buf) (data buf) = xff :: rest →
  from_wire_any full buf ctxt = Ok (advance 1 buf, ctxt, Some Value_null).
Proof.
  intros F E. unfold from_wire_any.
  rewrite (from_wire_unfold buf _ 0) by lia.
  unfold TypeCodec.from_wire_body, good. rewrite F. simpl negb. cbv iota.
  rewrite (from_wire_byte_at _ buf xff rest) by done.
  done.
Qed.

(** X17. Round trip of the null Value in a Union and in an Any: the encoder
    writes the byte [0xFF], and the decoder makes of that byte a cell that
    holds the null Value, whatever the cell held. *)
Theorem null_compound_roundtrip (n : nat) (big : bool) (c : N) (v : Value)
    (ctxt : TypeStore) :
  c ∈ [TypeCode.Union; TypeCode.Any] →
  to_wire_full (S n) (out_buffer big 1)
    (Examples.single c (Store_Compound Value_null))
  = Ok {| be := big; data := [xff]; pos := 1; faulted := false |}
  ∧ from_wire_full (S n) (in_buffer big [xff]) ctxt
      (Examples.single c (Store_Compound v))
    = Ok (advance 1 (in_buffer big [xff]), ctxt,
          Examples.single c (Store_Compound Value_null)).
Proof.
  intros Hc. rewrite !elem_of_cons, elem_of_nil in Hc.
  destruct Hc as [->|[->|[]]]; split.
  - cbn -[to_wire_Size]. change (to_wire_Size size_null (out_buffer big 1))
      with (to_wire_uint 1 255 (out_buffer big 1)).
    rewrite to_wire_uint_out. by destruct big.
  - cbn -[is_code from_wire_Size].
    change (is_code TypeCode.Union TypeCode.Union) with true. cbv iota.
    by rewrite (from_wire_Size_byte 0 (in_buffer big [xff]) xff []
                  eq_refl eq_refl ltac:(discriminate)).
  - cbn -[to_wire_uint]. rewrite to_wire_uint_out. by destruct big.
  - cbn -[from_wire_any is_code from_wire_Size].
    change (is_code TypeCode.Any TypeCode.Union) with false.
    change (is_code TypeCode.Any TypeCode.Any) with true. cbv iota.
    by rewrite (from_wire_any_null _ (in_buffer big [xff]) ctxt []).
Qed.

End CompoundFacts.

(** ** The value codec: the elements of an array of Structs, Unions or Anys *)
Section ArrayElementFacts.
Import Wire Data ValueCodec.
Context `{BM : BuildMode} `{SH : StdHash} `{VI : ValueImpl}.

(** The element loop over [i] elements and then [j] more. *)
Lemma elems_loop_app
    (step : Buffer → TypeStore → Res (Buffer * TypeStore * option Value))
    (j : nat) :
  ∀ i buf ctxt,
    elems_loop step (i + j) buf ctxt
    = '(b, c, r) ← elems_loop step i buf ctxt;
      match r with
      | Some l =>
          '(b', c', r') ← elems_loop step j b c;
          Ok (b', c', option_map (app l) r')
      | None => Ok (b, c, None)
      end.
Proof.
  induction i as [|i IH]; intros buf ctxt.
  - simpl. destruct (elems_loop step j buf ctxt) as [[[b c] [l|]]|]; done.
  - cbn [Nat.add elems_loop].
    destruct (step buf ctxt) as [[[b1 c1] [e|]]|]; simpl; [|done..].
    rewrite IH.
    destruct (elems_loop step i b1 c1) as [[[b2 c2] [l|]]|]; simpl; [|done..].
    destruct (elems_loop step j b2 c2) as [[[b3 c3] [l'|]]|]; done.
Qed.

(** An array of [i + 1 + m] elements, seen from its element [i]: when the
    [i] elements before it have been decoded, the body of the loop runs on
    what they have left; unless it returns, the loop goes on with the [m]
    elements behind, and unless one of them returns, the cell is
    assigned. *)
Lemma from_wire_elems_at
    (step : Buffer → TypeStore → Res (Buffer * TypeStore * option Value))
    (i m : nat) (buf : Buffer) (ctxt : TypeStore) (top : StructTop)
    (spos : nat) (b0 : Buffer) (alen : N) (bi : Buffer) (ci : TypeStore)
    (es : list Value) :
  from_wire_Size 0 buf = (b0, alen) →
  (alen < size_null)%N →
  N.to_nat alen = i + S m →
  elems_loop step i b0 ctxt = Ok (bi, ci, Some es) →
  from_wire_elems step buf ctxt top spos
  = '(b, c, r) ← step bi ci;
    match r with
    | Some e =>
        '(b', c', r') ← elems_loop step m b c;
        match r' with
        | Some l =>
            Ok (b', c', set_cell top spos
                          (Store_Array (Array_Value (es ++ e :: l))))
        | None => Ok (b', c', top)
        end
    | None => Ok (b, c, top)
    end.
Proof.
  intros Sz La Ll Pre. unfold from_wire_elems. rewrite Sz, new_array_spec.
  destruct (N.ltb_spec alen size_null) as [_|?]; [|lia].
  cbn [mbind Res_bind]. rewrite Ll, elems_loop_app, Pre.
  cbn [mbind Res_bind elems_loop].
  destruct (step bi ci) as [[[b c] [e|]]|]; simpl; [|done..].
  destruct (elems_loop step m b c) as [[[b' c'] [l|]]|]; done.
Qed.

(** C3, on the code. Element [i] of an array of Structs, of Unions or of
    Anys, reached after the [i] elements before it have been decoded, with
    a presence byte [p] that is not 0. The decoder reads [p] and goes on
    with the element behind it in a buffer that is good: the result of
    [from_wire_field] is that of the code behind the test of the presence
    byte, followed by the rest of the loop, whatever [p] is, 1 or not. No
    value of the presence byte sets the fault flag. *)
Theorem presence_byte_unchecked (n i m : nat) (buf : Buffer) (ctxt : TypeStore)
    (ds : list FieldDesc) (dpos : nat) (top : StructTop) (spos : nat)
    (d : FieldDesc) (a : shared_array) (b0 : Buffer) (alen : N)
    (bi : Buffer) (ci : TypeStore) (es : list Value)
    (p : byte) (rest : list byte) :
  members top !! spos = Some (Store_Array a) →
  ds !! dpos = Some d →
  code d ∈ [TypeCode.StructA; TypeCode.UnionA; TypeCode.AnyA] →
  from_wire_Size 0 buf = (b0, alen) →
  (alen < size_null)%N →
  N.to_nat alen = i + S m →
  let step :=
    if bool_decide (code d = TypeCode.StructA)
    then structA_elem (from_wire_full n) ds dpos
    else if bool_decide (code d = TypeCode.UnionA)
    then unionA_elem (from_wire_full n) ds dpos
    else anyA_elem (from_wire_full n) in
  elems_loop step i b0 ctxt = Ok (bi, ci, Some es) →
  faulted bi = false →
  drop (pos bi) (data bi) = p :: rest →
  p ≠ x00 →
  let behind := advance 1 bi in
  let element :=
    if bool_decide (code d = TypeCode.StructA)
    then decode_into (from_wire_full n) (build ds (dpos + 1)) behind ci
    else if bool_decide (code d = TypeCode.UnionA)
    then unionA_select (from_wire_full n) ds dpos behind ci
    else from_wire_any (from_wire_full n) behind ci in
  faulted behind = false
  ∧ from_wire_field (S n) buf ctxt ds dpos top spos
    = '(b, c, r) ← element;
      match r with
      | Some e =>
          '(b', c', r') ← elems_loop step m b c;
          match r' with
          | Some l =>
              Ok (b', c', set_cell top spos
                            (Store_Array (Array_Value (es ++ e :: l))))
          | None => Ok (b', c', top)
          end
      | None => Ok (b, c, top)
      end.
Proof.
  intros Hs Hd Hc Sz La Ll step Pre F E P behind element. split; [done|].
  rewrite (from_wire_field_elems n buf ctxt ds dpos top spos d a Hs Hd).
  assert (St : step bi ci = element).
  { subst step element. unfold structA_elem, unionA_elem, anyA_elem.
    repeat case_bool_decide;
      rewrite (presence_test _ bi ci p rest F E);
      by rewrite bool_decide_eq_false_2. }
  assert (R : from_wire_elems step buf ctxt top spos
              = '(b, c, r) ← element;
                match r with
                | Some e =>
                    '(b', c', r') ← elems_loop step m b c;
                    match r' with
                    | Some l =>
                        Ok (b', c', set_cell top spos
                              (Store_Array (Array_Value (es ++ e :: l))))
                    | None => Ok (b', c', top)
                    end
                | None => Ok (b, c, top)
                end).
  { rewrite <- St.
    apply (from_wire_elems_at step i m buf ctxt top spos b0 alen bi ci es
             Sz La Ll Pre). }
  rewrite <- R. subst step.
  rewrite !elem_of_cons, elem_of_nil in Hc.
  destruct Hc as [Hc|[Hc|[Hc|[]]]]; rewrite Hc; reflexivity.
Qed.


End ArrayElementFacts.

(** ** The "valid" form and the type-and-value form *)
Section DeltaFacts.
Import Wire Data ValueCodec DeltaCodec.
Context `{BM : BuildMode} `{SH : StdHash} `{VI : ValueImpl} `{BW : BitMaskWire}.

Lemma findSet_le (m : BitMask) (start : nat) : findSet m start ≤ length m.
Proof.
  revert start. induction m as [|b m IH]; intros start; simpl; [done|].
  destruct start as [|start]; [destruct b|].
  - lia.
  - specialize (IH 0). lia.
  - specialize (IH start). lia.
Qed.

Lemma findSet_ge (m : BitMask) (start : nat) :
  start ≤ length m → start ≤ findSet m start.
Proof.
  revert start. induction m as [|b m IH]; intros start L; simpl in *; [lia|].
  destruct start as [|start]; [lia|].
  specialize (IH start). lia.
Qed.

Lemma findSet_set (m : BitMask) (start : nat) :
  findSet m start < length m → m !! findSet m start = Some true.
Proof.
  revert start. induction m as [|b m IH]; intros start L; simpl in *; [lia|].
  destruct start as [|start]; [destruct b|]; simpl.
  - done.
  - apply IH. lia.
  - apply IH. lia.
Qed.

Lemma length_resize (n : nat) (m : BitMask) : length (resize n m) = n.
Proof.
  unfold resize. rewrite length_app, length_take, length_replicate. lia.
Qed.

(** The loop over the marked cells of the decoder: a cell that is not
    marked, or not yet reached, is as it was. *)
Lemma marked_loop_frame (fuel : nat) (ds : list FieldDesc) (dpos spos : nat)
    (top : StructTop) (valid : BitMask) (next : nat) (k : nat) :
  length valid = length (members top) →
  (∀ i, valid !! i = Some true → members top !! (spos + i) ≠ Some Store_Null) →
  ∀ bit b0 c0 t0 b c t,
    marked_loop k
      (λ bit '(buf, ctxt, top),
         idx ← at_index (member_indicies top) bit;
         from_wire_field fuel buf ctxt ds (dpos + idx) top (spos + bit))
      valid next bit (b0, c0, t0) = Ok (b, c, t) →
    (bit < length valid → valid !! bit = Some true) →
    (member_indicies t0 = member_indicies top
     ∧ length (members t0) = length (members top)
     ∧ ∀ j, (∀ i, i < bit → j = spos + i → valid !! i ≠ Some true) →
            members t0 !! j = members top !! j) →
    member_indicies t = member_indicies top
    ∧ length (members t) = length (members top)
    ∧ ∀ j, (∀ i, j = spos + i → valid !! i ≠ Some true) →
           members t !! j = members top !! j.
Proof.
  intros Lv NN. induction k as [|k IH]; intros bit b0 c0 t0 b c t H Hm (I1 & I2 & I3).
  - simpl in H. case_bool_decide; [done|]. simplify_eq.
    split; [done|split; [done|]]. intros j Hj. apply I3. intros i _. apply Hj.
  - simpl in H. case_bool_decide as Hb.
    2:{ simplify_eq. split; [done|split; [done|]].
        intros j Hj. apply I3. intros i _. apply Hj. }
    destruct (at_index (member_indicies t0) bit) as [idx|]; simpl in H; [|done].
    destruct (from_wire_field fuel b0 c0 ds (dpos + idx) t0 (spos + bit))
      as [[[b1 c1] t1]|] eqn:F; simpl in H; [|done].
    assert (Lb : bit < length valid).
    { destruct fuel as [|fuel]; [done|]. simpl in F. unfold at_index in F.
      destruct (members t0 !! (spos + bit)) eqn:E; [|done].
      apply lookup_lt_Some in E. lia. }
    assert (Mb : members t0 !! (spos + bit) = members top !! (spos + bit)).
    { apply I3. intros i Hi E. lia. }
    destruct (from_wire_field_shape _ _ _ _ _ _ _ _ _ _ F) as [S1 S2].
    assert (S3 : members t0 !! (spos + bit) ≠ Some Store_Null →
                 ∀ j, j ≠ spos + bit → members t1 !! j = members t0 !! j).
    { intros NE j Nj.
      destruct (from_wire_field_leaf _ _ _ _ _ _ _ _ _ _ NE F)
        as [->|[cell ->]]; [done|by apply set_cell_other]. }
    pose proof (findSet_ge valid (bit + 1) ltac:(lia)) as G.
    apply IH in H; [done|apply findSet_set|].
    split; [congruence|split; [congruence|]].
    intros j Hj.
    destruct (decide (j = spos + bit)) as [->|Nj].
    + exfalso. apply (Hj bit); [lia|done|by apply Hm].
    + rewrite S3; [|rewrite Mb; by apply NN, Hm|done].
      apply I3. intros i Hi. apply Hj. lia.
Qed.

(** The budget of the loop is enough: when the range ends within the mask,
    the loop runs out of budget only if its body does. *)
Lemma marked_loop_budget {A : Type} (body : nat → A → Res A)
    (valid : BitMask) (next : nat) :
  next ≤ length valid →
  (∀ bit acc, body bit acc ≠ Err OutOfFuel) →
  ∀ k bit acc,
    next - bit ≤ k →
    marked_loop k body valid next bit acc ≠ Err OutOfFuel.
Proof.
  intros Ln Hb. induction k as [|k IH]; intros bit acc Hk; simpl.
  - rewrite bool_decide_eq_false_2 by lia. done.
  - case_bool_decide as L; [|done].
    destruct (body bit acc) as [acc'|e] eqn:B; simpl.
    + apply IH. pose proof (findSet_ge valid (bit + 1) ltac:(lia)). lia.
    + intros [= ->]. by apply (Hb bit acc).
Qed.

(** X18. The "valid" form of the decoder changes the marked cells only. When
    [from_wire_valid] returns, the mask it has received has one bit per
    storage cell, the layout of the storage is as before, and every cell
    whose bit is not set in that mask holds what it held before the call,
    provided no marked cell is the cell of a Struct (for such a cell the
    decoder reads the whole sub-structure). *)
Theorem from_wire_valid_frame (fuel : nat) (buf : Buffer) (ctxt : TypeStore)
    (ds : list FieldDesc) (dpos : nat) (top : StructTop) (spos : nat)
    (valid : BitMask) (b : Buffer) (c : TypeStore) (v' : Value)
    (valid' : BitMask) :
  from_wire_valid fuel buf ctxt (Value_ref ds dpos top spos) valid
  = Ok (b, c, v', valid') →
  (∀ i, valid' !! i = Some true → members top !! (spos + i) ≠ Some Store_Null) →
  ∃ t, v' = Value_ref ds dpos t spos
       ∧ length valid' = length (members top)
       ∧ member_indicies t = member_indicies top
       ∧ length (members t) = length (members top)
       ∧ ∀ j, (∀ i, j = spos + i → valid' !! i ≠ Some true) →
              members t !! j = members top !! j.
Proof.
  intros H NN. unfold from_wire_valid in H.
  destruct (at_index ds dpos) as [desc|]; simpl in H; [|done].
  destruct (from_wire_BitMask valid buf) as [b1 m].
  destruct (negb (good b1)).
  { simplify_eq. exists top. by rewrite length_resize. }
  destruct (marked_loop _ _ _ _ _ _) as [[[b2 c2] t2]|] eqn:L; simpl in H;
    [|done].
  simplify_eq. exists t2. split; [done|].
  split; [apply length_resize|].
  apply (marked_loop_frame fuel ds dpos spos top _ _ _
           (length_resize _ _) NN) in L; [done|apply findSet_set|].
  done.
Qed.

(** X19. The Value of an [Any] field is decoded as [from_wire_type_value]
    decodes a Value: the case of [from_wire_field] (lines 528-548) is that
    function applied to the Value the cell holds, followed by the assignment
    of the result to the cell. *)
Theorem any_field_is_type_value (n : nat) (buf : Buffer) (ctxt : TypeStore)
    (ds : list FieldDesc) (dpos : nat) (top : StructTop) (spos : nat)
    (d : FieldDesc) (v : Value) :
  members top !! spos = Some (Store_Compound v) →
  ds !! dpos = Some d →
  code d = TypeCode.Any →
  from_wire_field (S n) buf ctxt ds dpos top spos
  = '(b, c, v') ← from_wire_type_value n buf ctxt v;
    Ok (b, c, set_cell top spos (Store_Compound v')).
Proof.
  intros Hs Hd Hc. simpl. unfold at_index. rewrite Hs, Hd. simpl.
  rewrite Hc. simpl.
  unfold from_wire_any, from_wire_type_value, decode_into, from_wire_full.
  destruct (TypeCodec.from_wire buf _ 0) as [[b1 dc]|e]; simpl; [|done].
  destruct (negb (good b1)); simpl.
  { do 2 f_equal. destruct top as [mi ms]. unfold set_cell. simpl in *.
    by rewrite list_insert_id. }
  case_bool_decide; simpl; [done|].
  destruct (from_wire_full_with _ _ _ _) as [[[b2 c2] v2]|]; done.
Qed.

End DeltaFacts.

Section DeltaEvaluations.
Import Wire Data ValueCodec DeltaCodec.
Context `{BM : BuildMode} `{SH : StdHash}.
#[local] Existing Instance Sample.impl.

Lemma put_put_out (big : bool) (bs1 bs2 : list byte) :
  put bs2 (put bs1 (out_buffer big (length bs1 + length bs2)))
  = {| be := big; data := bs1 ++ bs2; pos := length bs1 + length bs2;
       faulted := false |}.
Proof.
  unfold put at 2. unfold ensure, out_buffer. simpl.
  rewrite length_replicate.
  destruct (Nat.leb_spec (length bs1) (length bs1 + length bs2)); [|lia].
  unfold put, ensure. simpl.
  rewrite drop_replicate.
  replace (length bs1 + length bs2 - length bs1) with (length bs2) by lia.
  rewrite length_app, length_replicate, Nat.leb_refl. f_equal.
  rewrite take_app_length. rewrite drop_ge; [by rewrite app_nil_r|].
  rewrite length_app, length_replicate. lia.
Qed.

(** X20. Round trip of a type and a Value, on the platform of [Sample]: an
    [Any] that holds a signed integer in the range of its code is encoded as
    the code byte and the bytes of the integer, and [from_wire_type_value]
    makes of these bytes a Value of that code that holds the integer,
    whatever Value it was given to fill. *)
Theorem any_roundtrip_signed (big : bool) (w : nat) (c : N) (i : Z) (v0 : Value) :
  (w, c) ∈ [(1, TypeCode.Int8); (2, TypeCode.Int16);
            (4, TypeCode.Int32); (8, TypeCode.Int64)] →
  (- 2 ^ (8 * Z.of_nat w - 1) ≤ i < 2 ^ (8 * Z.of_nat w - 1))%Z →
  ∃ b, to_wire_full 2 (out_buffer big (1 + w))
         (Examples.single TypeCode.Any
            (Store_Compound (Examples.single c (Store_Integer i))))
       = Ok b
       ∧ faulted b = false
       ∧ from_wire_type_value 1 (in_buffer big (data b)) ∅ v0
         = Ok (advance (1 + w) (in_buffer big (data b)), ∅,
               Examples.single c (Store_Integer i)).
Proof.
  intros Hc R.
  assert (Hw : w ∈ [1; 2; 4; 8]).
  { clear R. rewrite !elem_of_cons, elem_of_nil in Hc.
    destruct Hc as [Hc|[Hc|[Hc|[Hc|[]]]]]; injection Hc as -> ->;
      rewrite !elem_of_cons; lia. }
  pose proof (signed_wrap w i Hw R) as S.
  set (body := int_bytes big w (wrap w i)).
  assert (Lb : length body = w) by apply length_int_bytes.
  exists {| be := big; data := byte_of_N c :: body; pos := 1 + w;
            faulted := false |}.
  assert (E : to_wire_uint w (wrap w i)
                (to_wire_uint 1 c (out_buffer big (1 + w)))
              = {| be := big; data := byte_of_N c :: body; pos := 1 + w;
                   faulted := false |}).
  { assert (I1 : int_bytes big 1 c = [byte_of_N c]) by (by destruct big).
    assert (B : be (put [byte_of_N c] (out_buffer big (1 + w))) = big)
      by (unfold put, ensure; simpl; done).
    unfold to_wire_uint. change (be (out_buffer big (1 + w))) with big.
    rewrite I1, B. fold body.
    pose proof (put_put_out big [byte_of_N c] body) as P.
    simpl length in P. rewrite Lb in P. exact P. }
  set (buf := in_buffer big (byte_of_N c :: body)).
  assert (T : Byte.to_N (byte_of_N c) = c ∧ c ∈ Spec.leaf_codes).
  { clear -Hc. rewrite !elem_of_cons, elem_of_nil in Hc.
    destruct Hc as [Hc|[Hc|[Hc|[Hc|[]]]]]; injection Hc as _ ->;
      (split; [reflexivity|]).
    - apply (list_elem_of_lookup_2 _ 1). reflexivity.
    - apply (list_elem_of_lookup_2 _ 2). reflexivity.
    - apply (list_elem_of_lookup_2 _ 3). reflexivity.
    - apply (list_elem_of_lookup_2 _ 4). reflexivity. }
  destruct T as [T1 T2].
  pose proof (decode_leaf buf {| TypeCodec.descs := []; TypeCodec.cache := ∅ |}
                0 (byte_of_N c) body eq_refl ltac:(lia) eq_refl) as D.
  rewrite T1 in D. specialize (D T2). simpl in D.
  assert (U : from_wire_uint w 0 (advance 1 buf)
              = (advance (1 + w) buf, (wrap w i mod 256 ^ N.of_nat w)%N)).
  { rewrite (from_wire_uint_at w 0 (advance 1 buf) body []); try done.
    - rewrite advance_advance. f_equal. unfold body.
      apply int_value_int_bytes.
    - rewrite !elem_of_cons, elem_of_nil in Hw. lia.
    - simpl. by rewrite drop_0, app_nil_r. }
  clear R Hw Lb T1 T2.
  rewrite !elem_of_cons, elem_of_nil in Hc.
  destruct Hc as [Hc|[Hc|[Hc|[Hc|[]]]]]; injection Hc as -> ->.
  all: split; [exact (f_equal Ok E)|]; split; [done|].
  all: unfold from_wire_type_value; cbn [data]; fold buf; rewrite D.
  all: cbn -[from_wire_uint signed is_code advance].
  all: repeat match goal with
         | |- context [is_code ?a ?b] =>
             let v := eval vm_compute in (is_code a b) in
             change (is_code a b) with v
         end.
  all: cbv iota; rewrite U; cbn -[signed advance]; by rewrite S.
Qed.

End DeltaEvaluations.

(** ** Configuration: the environment *)
Section EnvFacts.
Import Server.
Context `{PF : Platform}.
Variable getenv : string → option string.

(** X21. [pickenv] gives the first name of the list that is set in the
    environment, with its value: the names before it are not set. It gives
    nothing only when no name of the list is set. *)
Theorem pickenv_first (names : list string) :
  match pickenv getenv names with
  | Some (name, val) =>
      ∃ pre post, names = pre ++ name :: post
                  ∧ Forall (λ n, getenv n = None) pre
                  ∧ getenv name = Some val
  | None => Forall (λ n, getenv n = None) names
  end.
Proof.
  induction names as [|n names IH]; simpl; [done|].
  destruct (getenv n) as [val|] eqn:G.
  - by exists [], names.
  - destruct (pickenv getenv names) as [[name val]|].
    + destruct IH as (pre & post & -> & F & Gn).
      exists (n :: pre), post. by repeat split; [constructor|].
    + by constructor.
Qed.














(** Beyond that length the call does not return at all: the process is
    killed in the first match. *)
Lemma split_addr_into_long (name : string) (o : list string) (i : string)
    (lg : list string) (fuel : nat) :
  (regex_max < N.of_nat (String.length i))%N →
  split_addr_into fuel name o i lg = None.
Proof.
  intros Lm. unfold split_addr_into. destruct fuel as [|fuel]; [done|].
  simpl. unfold split_step, regex_match. simpl.
  case_bool_decide as E; [subst i; simpl in Lm; lia|].
  destruct (N.ltb_spec regex_max (N.of_nat (String.length i))); [done|lia].
Qed.

(** X23. The ports of the configuration that [Config::from_env] returns. The
    TCP port is the number held by the first of [EPICS_PVAS_SERVER_PORT] and
    [EPICS_PVA_SERVER_PORT] that is set, and the port of the default
    configuration when none is set or when the first one set does not hold
    a number (the second is then not looked at). The UDP port is found in
    the same way from [EPICS_PVAS_BROADCAST_PORT] and
    [EPICS_PVA_BROADCAST_PORT], with 5076 as the default. The GUID is that of
    the default configuration. *)
Theorem from_env_ports (fuel : nat) (cfg : Config) (lg : list string) :
  from_env getenv fuel = Some (cfg, lg) →
  tcp_port cfg
  = Spec.port_of (tcp_port Config_default)
      (pickenv getenv ["EPICS_PVAS_SERVER_PORT"; "EPICS_PVA_SERVER_PORT"])
  ∧ udp_port cfg
    = Spec.port_of 5076
        (pickenv getenv ["EPICS_PVAS_BROADCAST_PORT";
                         "EPICS_PVA_BROADCAST_PORT"])
  ∧ guid cfg = guid Config_default.
Proof.
  unfold from_env. intros H.
  set (c0 := set_udp_port 5076 Config_default) in *.
  assert (K0 : tcp_port c0 = tcp_port Config_default ∧ udp_port c0 = 5076%N
               ∧ guid c0 = guid Config_default) by done.
  clearbody c0.
  destruct (match pickenv getenv ["EPICS_PVAS_INTF_ADDR_LIST"] with
            | Some _ => _ | None => _ end) as [[c1 lg1]|] eqn:E1;
    simpl in H; [|done].
  assert (K1 : tcp_port c1 = tcp_port c0 ∧ udp_port c1 = udp_port c0
               ∧ guid c1 = guid c0).
  { destruct (pickenv getenv ["EPICS_PVAS_INTF_ADDR_LIST"]) as [[nm env]|];
      [|by simplify_eq].
    destruct (split_addr_into _ _ _ _ _) as [[o l]|]; simpl in E1;
      by simplify_eq. }
  clear E1.
  destruct (match pickenv getenv ["EPICS_PVAS_BEACON_ADDR_LIST";
                                  "EPICS_PVA_ADDR_LIST"] with
            | Some _ => _ | None => _ end) as [[c2 lg2]|] eqn:E2;
    simpl in H; [|done].
  assert (K2 : tcp_port c2 = tcp_port c1 ∧ udp_port c2 = udp_port c1
               ∧ guid c2 = guid c1).
  { destruct (pickenv getenv ["EPICS_PVAS_BEACON_ADDR_LIST";
                              "EPICS_PVA_ADDR_LIST"]) as [[nm env]|];
      [|by simplify_eq].
    destruct (split_addr_into _ _ _ _ _) as [[o l]|]; simpl in E2;
      by simplify_eq. }
  clear E2.
  injection H as H.
  match type of H with
  | env_port _ _ _ (env_port _ _ _ ?x) = _ => set (st3 := x) in H
  end.
  assert (K3 : tcp_port st3.1 = tcp_port c2 ∧ udp_port st3.1 = udp_port c2
               ∧ guid st3.1 = guid c2).
  { unfold st3. repeat case_match; by simplify_eq. }
  clearbody st3.
  destruct K0 as (A0 & B0 & C0), K1 as (A1 & B1 & C1),
    K2 as (A2 & B2 & C2), K3 as (A3 & B3 & C3).
  unfold env_port, Spec.port_of, pickenv in *.
  repeat case_match; simplify_eq; simpl in *; repeat split; congruence.
Qed.

End EnvFacts.

(** ** The Source registry: additions and listing *)
Section RegistryMoreFacts.
Import Server.

(** X24. [addSource(name, src, order)] on a server with a registry. When the
    pair is registered already the call throws and (the server being passed
    by reference) nothing is added. When it is not, the Source is
    registered under the pair: [getSource] gives it, every other pair gives
    what it gave, the registry has one entry more, and [removeSource] of the
    pair gives the Source back and the server it was added to. *)
Theorem addSource_spec (pvt : Pvt) (name : string) (order : Z) (s : Source) :
  match sources pvt !! (order, name) with
  | Some _ =>
      addSource (Some pvt) name (Some s) order
      = Err (RuntimeError "Source already registered")
  | None =>
      ∃ pvt', addSource (Some pvt) name (Some s) order = Ok (Some pvt')
              ∧ getSource (Some pvt') name order = Ok (Some s)
              ∧ (∀ n o, (o, n) ≠ (order, name) →
                        getSource (Some pvt') n o = getSource (Some pvt) n o)
              ∧ size (sources pvt') = S (size (sources pvt))
              ∧ removeSource (Some pvt') name order = Ok (Some s, Some pvt)
  end.
Proof.
  unfold addSource.
  destruct (sources pvt !! (order, name)) as [s0|] eqn:E; [done|].
  eexists. split; [done|]. simpl. repeat split.
  - by rewrite lookup_insert_eq.
  - intros n o N. by rewrite lookup_insert_ne.
  - by apply map_size_insert_None.
  - rewrite lookup_insert_eq.
    rewrite delete_insert_eq, delete_id by done. by destruct pvt.
Qed.

Lemma key_le_total : Total key_le.
Proof.
  intros [[o1 n1] s1] [[o2 n2] s2]. unfold key_le. simpl.
  destruct (Z.lt_trichotomy o1 o2) as [L|[->|L]]; [by left; left| |by right; left].
  destruct (String.leb_total n1 n2); [left|right]; by right.
Qed.

(** X25. [listSource] lists the registry: every registered pair of a name and
    an order, once, and nothing else, by increasing order and, for equal
    orders, by increasing name. *)
Theorem listSource_spec (pvt : Pvt) :
  ∃ l, listSource (Some pvt) = Ok l
       ∧ NoDup l
       ∧ (∀ name order,
            (name, order) ∈ l ↔ is_Some (sources pvt !! (order, name)))
       ∧ length l = size (sources pvt)
       ∧ Sorted (λ a b : string * Z,
                   (a.2 < b.2)%Z ∨ (a.2 = b.2 ∧ String.leb a.1 b.1 = true)) l.
Proof.
  eexists. split; [done|].
  pose proof (merge_sort_Permutation key_le (map_to_list (sources pvt))) as P.
  fold (registry_order (sources pvt)) in P.
  assert (Q : (λ e : Z * string * Source, (e.1.2, e.1.1))
                <$> registry_order (sources pvt)
              ≡ₚ (λ k : Z * string, (k.2, k.1))
                   <$> (map_to_list (sources pvt)).*1).
  { rewrite P. by rewrite <- list_fmap_compose. }
  repeat split.
  - rewrite Q. apply NoDup_fmap_2; [|apply NoDup_fst_map_to_list].
    intros [a b] [c d] [= -> ->]. done.
  - rewrite Q. intros M.
    apply list_elem_of_fmap in M as ([o n] & [= -> ->] & M).
    apply list_elem_of_fmap in M as ([k s] & [= <-] & M).
    apply elem_of_map_to_list in M. by exists s.
  - rewrite Q. intros [s M].
    apply list_elem_of_fmap. exists (order, name). split; [done|].
    apply list_elem_of_fmap. exists (order, name, s). split; [done|].
    by apply elem_of_map_to_list.
  - rewrite Q, !length_fmap. apply length_map_to_list.
  - apply (Sorted_fmap _ key_le); [done|].
    apply Sorted_merge_sort, key_le_total.
Qed.

End RegistryMoreFacts.

(** ** Searches and beacons: what the handlers keep *)
Section HandlerFacts.
Import Wire Server.

(** X26. What the Sources of the registry make of a search, in closed form.
    Every Source is given the names as they were received; a name is claimed
    when it was claimed before or when some Source claims it; and the log
    gets one line for each Source that throws, in the order of the registry.
    So an exception of a Source hides neither its own claims nor those of
    the Sources after it. *)
Theorem run_sources_closed (srcs : list (Z * string * Source))
    (ns : list (string * bool)) (lg : list string) :
  run_sources srcs (ns, lg)
  = (imap (λ i (nc : string * bool),
             (nc.1, nc.2 || existsb (λ ent : Z * string * Source,
                                       default false
                                         ((onSearch ent.2 (ns.*1)).1 !! i))
                              srcs)) ns,
     lg ++ omap (λ ent : Z * string * Source,
                   (λ e, "Unhandled error in Source::onSearch for '"
                           +:+ ent.1.2 +:+ "' : " +:+ e)
                     <$> (onSearch ent.2 (ns.*1)).2) srcs).
Proof.
  unfold run_sources. revert ns lg.
  induction srcs as [|ent srcs IH]; intros ns lg.
  - simpl. rewrite app_nil_r. f_equal.
    apply list_eq. intros i. rewrite list_lookup_imap.
    destruct (ns !! i) as [[n c]|]; simpl; [|done]. by rewrite orb_false_r.
  - cbn [foldl fst snd].
    destruct (onSearch ent.2 (ns.*1)) as [claimed thrown] eqn:E.
    rewrite IH.
    assert (N : (imap (λ i (nc : string * bool),
                         (nc.1, nc.2 || default false (claimed !! i))) ns).*1
                = ns.*1).
    { apply list_eq. intros i.
      rewrite !list_lookup_fmap, list_lookup_imap.
      by destruct (ns !! i). }
    rewrite N. f_equal.
    + apply list_eq. intros i. rewrite !list_lookup_imap.
      destruct (ns !! i) as [[n c]|]; simpl; [|done].
      rewrite E. simpl. by rewrite orb_assoc.
    + cbn [omap list_omap]. rewrite E. simpl.
      destruct thrown; simpl; [by rewrite <- app_assoc|done].
Qed.

Lemma length_data_put (bs : list byte) (b : Buffer) :
  length (data (put bs b)) = length (data b).
Proof.
  unfold put, ensure. destruct (faulted b); [done|].
  destruct (Nat.leb_spec (pos b + length bs) (length (data b))); [|done].
  simpl. rewrite !length_app, length_take, length_drop. lia.
Qed.

Lemma length_data_skip (n : nat) (b : Buffer) :
  length (data (skip n b)) = length (data b).
Proof.
  unfold skip. destruct (faulted b); [done|]. by destruct (ensure n b).
Qed.

Lemma length_data_uint (w : nat) (v : N) (b : Buffer) :
  length (data (to_wire_uint w v b)) = length (data b).
Proof. apply length_data_put. Qed.

Lemma length_data_Size (n : N) (b : Buffer) :
  length (data (to_wire_Size n b)) = length (data b).
Proof.
  unfold to_wire_Size. repeat case_match; by rewrite ?length_data_uint.
Qed.

Lemma length_data_string (s : string) (b : Buffer) :
  length (data (to_wire_string s b)) = length (data b).
Proof.
  unfold to_wire_string. by rewrite length_data_put, length_data_Size.
Qed.

Lemma length_data_Header (cmd flags len : N) (b : Buffer) :
  length (data (to_wire_Header cmd flags len b)) = length (data b).
Proof.
  unfold to_wire_Header. by rewrite length_data_uint, length_data_put.
Qed.

Lemma length_data_ids (l : list (N * string * (string * bool))) (M : Buffer) :
  length (data (foldl (λ M (e : N * string * (string * bool)),
                         if e.2.2 then to_wire_uint 4 e.1.1 M else M) M l))
  = length (data M).
Proof.
  revert M. induction l as [|e l IH]; intros M; [done|].
  simpl. rewrite IH. destruct e.2.2; [apply length_data_uint|done].
Qed.

(** X27. What [onSearch] keeps of the server. The reply vector keeps its
    size, whatever the search (so the next search finds the vector the
    constructor made); the configuration, the registry, the beacon vector
    and the beacon destinations are as before; and the names of the search
    with their claims are left in [searchOp]. *)
Theorem onSearch_keeps (pvt : Pvt) (msg : Search) :
  length (searchReply (Pvt_onSearch pvt msg).1.1) = length (searchReply pvt)
  ∧ effective (Pvt_onSearch pvt msg).1.1 = effective pvt
  ∧ sources (Pvt_onSearch pvt msg).1.1 = sources pvt
  ∧ beaconMsg (Pvt_onSearch pvt msg).1.1 = beaconMsg pvt
  ∧ beaconDest (Pvt_onSearch pvt msg).1.1 = beaconDest pvt
  ∧ searchOp_names (Pvt_onSearch pvt msg).1.1 = Spec.claims pvt msg.
Proof.
  unfold Pvt_onSearch, Spec.claims.
  destruct (run_sources _ _) as [ns lg].
  destruct (_ && _); [done|].
  match goal with
  | |- context [take 8 (data ?m)] => set (M := m)
  end.
  assert (LM : length (data M) = length (searchReply pvt)).
  { unfold M. rewrite length_data_ids, !length_data_uint, length_data_string,
      length_data_uint, !length_data_put, length_data_uint, length_data_put,
      length_data_skip. done. }
  match goal with
  | |- context [data ?h ++ drop 8 (data M)] => set (H := h)
  end.
  assert (LH : length (data H ++ drop 8 (data M)) = length (searchReply pvt)).
  { unfold H. rewrite length_app, length_data_Header. simpl.
    rewrite length_take, length_drop. lia. }
  destruct (_ || _); simpl; by rewrite LH.
Qed.

(** X28. What [doBeacons] keeps of the server, when it returns: the two
    message vectors keep their sizes, the configuration, the registry and
    the destinations are as before, and there is one [sendto] for each
    destination, in order. *)
Theorem doBeacons_keeps `{BM : BuildMode} (pvt pvt' : Pvt)
    (sent : list (SockAddr * option (list byte))) :
  Pvt_doBeacons pvt = Ok (pvt', sent) →
  length (beaconMsg pvt') = length (beaconMsg pvt)
  ∧ length (searchReply pvt') = length (searchReply pvt)
  ∧ effective pvt' = effective pvt
  ∧ sources pvt' = sources pvt
  ∧ beaconDest pvt' = beaconDest pvt
  ∧ sent.*1 = beaconDest pvt.
Proof.
  unfold Pvt_doBeacons. intros H.
  match type of H with
  | context [good ?m && _] => set (M := m) in H
  end.
  match type of H with
  | context [good M && good ?h] => set (Hd := h) in H
  end.
  unfold mbind, Res_bind in H.
  destruct (assert_ (good M && good Hd)); [|done].
  pose proof (f_equal (λ r, match r with Ok x => x.1 | Err _ => pvt end) H)
    as E1.
  pose proof (f_equal (λ r, match r with Ok x => x.2 | Err _ => [] end) H)
    as E2.
  cbv beta iota in E1, E2. cbn [fst snd] in E1, E2. clear H.
  subst pvt' sent. unfold set_beacon.
  cbn [beaconMsg searchReply effective sources beaconDest].
  repeat split.
  - unfold M.
    rewrite length_data_uint, length_data_string, length_data_uint,
      !length_data_put, length_data_skip, length_data_put, length_data_skip.
    done.
  - unfold Hd. rewrite length_app, length_data_Header.
    cbn [data]. rewrite length_take, length_drop. lia.
  - rewrite <- list_fmap_compose. apply list_fmap_id.
Qed.

End HandlerFacts.

(** ** The type codec: round trip of a Struct or Union of simple members *)
Section FlatTypeFacts.
Import Wire TypeCodec.
Context `{SH : StdHash}.

Lemma be_put (bs : list byte) (b : Buffer) : be (put bs b) = be b.
Proof.
  unfold put. destruct (faulted b); [done|]. by destruct (ensure _ b).
Qed.

(** Two writes in a row are one write, when there is room for both. *)
Lemma put_put (bs1 bs2 : list byte) (b : Buffer) :
  faulted b = false →
  pos b + length bs1 + length bs2 ≤ length (data b) →
  put bs2 (put bs1 b) = put (bs1 ++ bs2) b.
Proof.
  intros F L. unfold put at 2 3. rewrite F. unfold ensure.
  rewrite length_app.
  destruct (Nat.leb_spec (pos b + length bs1) (length (data b))); [|lia].
  destruct (Nat.leb_spec (pos b + (length bs1 + length bs2))
              (length (data b))); [|lia].
  unfold put, ensure. simpl.
  rewrite !length_app, length_take, length_drop.
  rewrite (Nat.min_l (pos b)) by lia.
  destruct (Nat.leb_spec (pos b + length bs1 + length bs2)
              (pos b + (length bs1
                        + (length (data b) - (pos b + length bs1)))));
    [|lia].
  f_equal; [|lia].
  rewrite take_app_ge by (rewrite length_take; lia).
  rewrite length_take, (Nat.min_l (pos b)) by lia.
  replace (pos b + length bs1 - pos b) with (length bs1) by lia.
  rewrite take_app_length.
  rewrite <- !app_assoc. do 3 f_equal.
  rewrite drop_app_ge by (rewrite length_take; lia).
  rewrite length_take, (Nat.min_l (pos b)) by lia.
  replace (pos b + length bs1 + length bs2 - pos b)
    with (length bs1 + length bs2) by lia.
  rewrite drop_app_ge by lia.
  rewrite drop_drop. f_equal. lia.
Qed.

Lemma put_good (bs : list byte) (b : Buffer) :
  faulted b = false → pos b + length bs ≤ length (data b) →
  faulted (put bs b) = false
  ∧ pos (put bs b) = pos b + length bs
  ∧ length (data (put bs b)) = length (data b).
Proof.
  intros F L. unfold put, ensure. rewrite F.
  destruct (Nat.leb_spec (pos b + length bs) (length (data b))); [|lia].
  simpl. repeat split.
  rewrite !length_app, length_take, length_drop. lia.
Qed.

Lemma length_Size_bytes (big : bool) (n : N) :
  0 < length (Spec.Size_bytes big n) ≤ 13.
Proof.
  unfold Spec.Size_bytes.
  repeat case_match; rewrite ?length_app, ?length_int_bytes; lia.
Qed.

Lemma to_wire_Size_put (n : N) (b : Buffer) :
  faulted b = false →
  pos b + length (Spec.Size_bytes (be b) n) ≤ length (data b) →
  to_wire_Size n b = put (Spec.Size_bytes (be b) n) b.
Proof.
  intros F L. unfold to_wire_Size, Spec.Size_bytes in *.
  unfold to_wire_uint.
  destruct (n <? 254)%N; [done|].
  destruct (n =? size_null)%N; [done|].
  destruct (n <? 2147483647)%N;
    rewrite !length_app, !length_int_bytes in L; rewrite !be_put.
  - rewrite put_put; rewrite ?length_int_bytes; try done. lia.
  - rewrite (put_put (int_bytes (be b) 1 254));
      rewrite ?length_int_bytes; try done; [|lia].
    rewrite put_put; rewrite ?length_app, ?length_int_bytes; try done; [|lia].
    by rewrite <- app_assoc.
Qed.

Lemma to_wire_string_put (s : string) (b : Buffer) :
  faulted b = false →
  pos b + length (Spec.string_bytes (be b) s) ≤ length (data b) →
  to_wire_string s b = put (Spec.string_bytes (be b) s) b.
Proof.
  intros F L. unfold to_wire_string, Spec.string_bytes in *.
  rewrite length_app in L.
  rewrite to_wire_Size_put by (done || lia).
  rewrite put_put by (done || lia). done.
Qed.

Lemma leaf_code_facts (c : N) :
  c ∈ Spec.leaf_codes →
  bool_decide (c = TypeCode.StructA ∨ c = TypeCode.UnionA) = false
  ∧ bool_decide (c = TypeCode.Struct ∨ c = TypeCode.Union) = false
  ∧ Byte.to_N (byte_of_N c) = c
  ∧ c ≠ TypeCode.Struct.
Proof.
  intros L. unfold Spec.leaf_codes in L.
  rewrite !elem_of_cons, elem_of_nil in L.
  repeat (destruct L as [->|L]; [by vm_compute|]). done.
Qed.

Lemma to_wire_byte_put (c : N) (b : Buffer) :
  to_wire_uint 1 c b = put [byte_of_N c] b.
Proof. unfold to_wire_uint, int_bytes. by destruct (be b). Qed.

(** The encoder on a node with a single-node description. *)
Lemma to_wire_leaf (n : nat) (b : Buffer) (ds : list FieldDesc) (cur : nat)
    (d : FieldDesc) :
  ds !! cur = Some d → code d ∈ Spec.leaf_codes →
  to_wire (S n) b ds cur = Ok (put [byte_of_N (code d)] b).
Proof.
  intros Hd L. destruct (leaf_code_facts _ L) as (K1 & K2 & _).
  simpl. unfold at_index. rewrite Hd. simpl.
  by rewrite K1, K2, to_wire_byte_put.
Qed.

Lemma member_bytes_cons (big : bool) (m : string * N)
    (ms : list (string * N)) :
  mjoin (Spec.member_bytes big <$> m :: ms)
  = (Spec.string_bytes big m.1 ++ [byte_of_N m.2])
    ++ mjoin (Spec.member_bytes big <$> ms).
Proof. reflexivity. Qed.

Lemma to_wire_members (n : nat) (ds : list FieldDesc) (cur : nat)
    (b0 : Buffer) :
  faulted b0 = false →
  ∀ mi ms w,
    Forall2 (Spec.member_of ds cur) mi ms →
    pos b0 + length (w ++ mjoin (Spec.member_bytes (be b0) <$> ms))
      ≤ length (data b0) →
    foldl (λ acc (mem : string * nat),
             buf ← acc;
             to_wire (S n) (to_wire_string mem.1 buf) ds (cur + mem.2))
          (Ok (put w b0)) mi
    = Ok (put (w ++ mjoin (Spec.member_bytes (be b0) <$> ms)) b0).
Proof.
  intros F mi ms w H. revert w.
  induction H as [|mem m mi ms (Hn & Hl & md & Hd & Hc) _ IH]; intros w L.
  - simpl. by rewrite app_nil_r.
  - rewrite member_bytes_cons in *.
    rewrite !length_app in L. cbn [length] in L.
    cbn [foldl mbind Res_bind].
    destruct (put_good w b0 F ltac:(lia)) as (F1 & P1 & L1).
    rewrite to_wire_string_put; rewrite ?be_put, ?P1, ?L1; [|done|rewrite Hn; lia].
    rewrite put_put by (done || rewrite Hn; lia).
    rewrite (to_wire_leaf n _ ds (cur + mem.2) md Hd) by (by rewrite Hc).
    rewrite put_put; [|done|rewrite length_app, Hn; simpl; lia].
    rewrite Hc, Hn. rewrite IH.
    + by rewrite <- !app_assoc.
    + rewrite !length_app. simpl. lia.
Qed.

(** The encoder on a Struct or Union whose members have single-node
    descriptions. *)
Lemma to_wire_flat (n : nat) (b : Buffer) (ds : list FieldDesc) (cur : nat)
    (d : FieldDesc) (ms : list (string * N)) :
  ds !! cur = Some d →
  code d ∈ [TypeCode.Struct; TypeCode.Union] →
  Forall2 (Spec.member_of ds cur) (miter d) ms →
  faulted b = false →
  pos b + length (Spec.flat_bytes (be b) (code d) (id d) ms)
    ≤ length (data b) →
  to_wire (S (S n)) b ds cur
  = Ok (put (Spec.flat_bytes (be b) (code d) (id d) ms) b).
Proof.
  intros Hd Hc Hm F L.
  assert (K : bool_decide (code d = TypeCode.StructA ∨ code d = TypeCode.UnionA)
              = false
              ∧ bool_decide (code d = TypeCode.Struct ∨ code d = TypeCode.Union)
                = true).
  { rewrite !elem_of_cons, elem_of_nil in Hc.
    destruct Hc as [->|[->|[]]]; by vm_compute. }
  destruct K as [K1 K2].
  cbn [to_wire]. unfold at_index. rewrite Hd. cbn [mbind Res_bind].
  rewrite K1, K2, to_wire_byte_put.
  rewrite (Forall2_length _ _ _ Hm).
  unfold Spec.flat_bytes in *. rewrite !length_app in L. cbn [length] in L.
  destruct (put_good [byte_of_N (code d)] b F ltac:(simpl; lia))
    as (F1 & P1 & L1).
  rewrite to_wire_string_put; rewrite ?be_put, ?P1, ?L1; [|done|simpl; lia].
  rewrite put_put by (done || simpl; lia).
  destruct (put_good ([byte_of_N (code d)] ++ Spec.string_bytes (be b) (id d))
              b F ltac:(rewrite length_app; simpl; lia)) as (F2 & P2 & L2).
  rewrite length_app in P2. cbn [length] in P2.
  rewrite to_wire_Size_put; rewrite ?be_put, ?P2, ?L2; [|done|lia].
  rewrite put_put; [|done|rewrite length_app; simpl; lia].
  rewrite (to_wire_members n ds cur b F (miter d) ms _ Hm).
  - by rewrite <- !app_assoc.
  - rewrite !length_app. simpl. lia.
Qed.

(** Reading the bytes that lie at the cursor, none included. *)
Lemma get_here (b : Buffer) (bs rest : list byte) :
  faulted b = false → pos b ≤ length (data b) →
  drop (pos b) (data b) = bs ++ rest →
  get (length bs) b = (advance (length bs) b, Some bs).
Proof.
  intros F P E. unfold get, ensure. rewrite F.
  assert (L : length (drop (pos b) (data b)) = length (bs ++ rest))
    by (by rewrite E).
  rewrite length_drop, length_app in L.
  destruct (Nat.leb_spec (pos b + length bs) (length (data b))); [|lia].
  by rewrite E, take_app_length.
Qed.

Lemma drop_pos_le (b : Buffer) (bs rest : list byte) :
  bs ≠ [] → drop (pos b) (data b) = bs ++ rest →
  pos b + length bs ≤ length (data b).
Proof. intros N E. by apply (drop_length_le _ _ _ rest). Qed.

Lemma from_wire_Size_at (dflt : N) (b : Buffer) (n : N) (rest : list byte) :
  faulted b = false → (n < size_null)%N →
  drop (pos b) (data b) = Spec.Size_bytes (be b) n ++ rest →
  from_wire_Size dflt b = (advance (length (Spec.Size_bytes (be b) n)) b, n).
Proof.
  intros F Hn E. unfold from_wire_Size, Spec.Size_bytes in *.
  destruct (N.ltb_spec n 254) as [L1|L1].
  - pose proof (get_at b (int_bytes (be b) 1 n) rest F) as G.
    rewrite length_int_bytes in G. rewrite G; [|by destruct (be b)|done].
    rewrite int_value_int_bytes. change (256 ^ N.of_nat 1)%N with 256%N.
    rewrite N.mod_small by lia. rewrite length_int_bytes.
    destruct (N.ltb_spec n 254); [done|lia].
  - destruct (N.eqb_spec n size_null) as [|_]; [lia|].
    unfold size_null in Hn.
    assert (G1 : ∀ tail, drop (pos b) (data b)
                         = int_bytes (be b) 1 254 ++ tail →
                 get 1 b = (advance 1 b, Some (int_bytes (be b) 1 254))).
    { intros tail Et.
      pose proof (get_at b (int_bytes (be b) 1 254) tail F) as G.
      rewrite length_int_bytes in G. apply G; [by destruct (be b)|done]. }
    assert (V1 : int_value (be b) (int_bytes (be b) 1 254) = 254%N)
      by (by rewrite int_value_int_bytes).
    destruct (N.ltb_spec n 2147483647) as [L2|L2].
    + rewrite <- app_assoc in E. rewrite (G1 _ E), V1. simpl.
      assert (E1 : drop (pos (advance 1 b)) (data (advance 1 b))
                   = int_bytes (be b) 4 n ++ rest)
        by (apply (drop_advance 1 b (int_bytes (be b) 1 254));
            [apply length_int_bytes|done]).
      pose proof (get_at (advance 1 b) (int_bytes (be b) 4 n) rest eq_refl) as G.
      rewrite length_int_bytes in G. rewrite G; [|by destruct (be b)|done].
      rewrite int_value_int_bytes. change (256 ^ N.of_nat 4)%N with 4294967296%N.
      rewrite N.mod_small by lia.
      destruct (N.ltb_spec n 2147483647); [|lia].
      rewrite advance_advance, length_app, !length_int_bytes. done.
    + rewrite <- !app_assoc in E. rewrite (G1 _ E), V1. simpl.
      assert (E1 : drop (pos (advance 1 b)) (data (advance 1 b))
                   = int_bytes (be b) 4 2147483647
                     ++ int_bytes (be b) 8 n ++ rest)
        by (apply (drop_advance 1 b (int_bytes (be b) 1 254));
            [apply length_int_bytes|done]).
      pose proof (get_at (advance 1 b) (int_bytes (be b) 4 2147483647)
                    (int_bytes (be b) 8 n ++ rest) eq_refl) as G.
      rewrite length_int_bytes in G. rewrite G; [|by destruct (be b)|done].
      rewrite int_value_int_bytes. change (256 ^ N.of_nat 4)%N with 4294967296%N.
      rewrite N.mod_small by lia. simpl.
      assert (E2 : drop (pos (advance 4 (advance 1 b)))
                     (data (advance 4 (advance 1 b)))
                   = int_bytes (be b) 8 n ++ rest)
        by (apply (drop_advance 4 (advance 1 b)
                     (int_bytes (be b) 4 2147483647));
            [apply length_int_bytes|done]).
      pose proof (get_at (advance 4 (advance 1 b)) (int_bytes (be b) 8 n)
                    rest eq_refl) as G'.
      rewrite length_int_bytes in G'. rewrite G'; [|by destruct (be b)|done].
      rewrite int_value_int_bytes.
      change (256 ^ N.of_nat 8)%N with 18446744073709551616%N.
      rewrite N.mod_small by lia.
      rewrite !advance_advance, !length_app, !length_int_bytes. done.
Qed.

Lemma from_wire_string_at (dflt : string) (b : Buffer) (s : string)
    (rest : list byte) :
  faulted b = false →
  (N.of_nat (length (list_byte_of_string s)) < size_null)%N →
  drop (pos b) (data b) = Spec.string_bytes (be b) s ++ rest →
  from_wire_string dflt b
  = (advance (length (Spec.string_bytes (be b) s)) b, s).
Proof.
  intros F Hn E. unfold from_wire_string, Spec.string_bytes in *.
  rewrite <- app_assoc in E.
  rewrite (from_wire_Size_at 0 b _ _ F Hn E).
  set (k := length (Spec.Size_bytes _ _)).
  assert (Lk : 0 < k ≤ 13) by apply length_Size_bytes.
  change (faulted (advance k b)) with false. cbv iota.
  destruct (N.eqb_spec (N.of_nat (length (list_byte_of_string s))) size_null)
    as [Z|_]; [lia|].
  rewrite Nat2N.id.
  assert (E1 : drop (pos (advance k b)) (data (advance k b))
               = list_byte_of_string s ++ rest)
    by (by apply (drop_advance k b (Spec.Size_bytes (be b)
                    (N.of_nat (length (list_byte_of_string s)))))).
  rewrite (get_here (advance k b) (list_byte_of_string s) rest eq_refl);
    [|simpl|done].
  - rewrite advance_advance, length_app, string_of_list_byte_of_string. done.
  - assert (Size_ne : Spec.Size_bytes (be b)
                        (N.of_nat (length (list_byte_of_string s))) ≠ []).
    { intros Z. apply (f_equal length) in Z. fold k in Z. simpl in Z. lia. }
    pose proof (drop_pos_le b _ _ Size_ne E). fold k in H. lia.
Qed.

Lemma length_string_bytes_pos (big : bool) (s : string) :
  Spec.string_bytes big s ≠ [].
Proof.
  unfold Spec.string_bytes. intros Z. apply (f_equal length) in Z.
  rewrite length_app in Z. pose proof (length_Size_bytes big
    (N.of_nat (length (list_byte_of_string s)))). simpl in Z. lia.
Qed.

(** The member loop of the decoder on members with single-node
    descriptions. *)
Lemma members_flat (c : N) (depth : nat) (D : list FieldDesc) (tc : TypeStore) :
  depth ≤ 20 →
  ∀ ms name b root kids rest,
    faulted b = false →
    drop (pos b) (data b) = mjoin (Spec.member_bytes (be b) <$> ms) ++ rest →
    Forall (λ m : string * N,
              m.2 ∈ Spec.leaf_codes
              ∧ (N.of_nat (length (list_byte_of_string m.1)) < size_null)%N)
           ms →
    members (λ b c, from_wire b c depth) c (length D) (length ms) name b
      {| descs := D ++ root :: kids; cache := tc |}
    = Ok (advance (length (mjoin (Spec.member_bytes (be b) <$> ms))) b,
          {| descs := D ++ Spec.add_members root (S (length kids)) ms
                        :: (kids ++ (Spec.scalar_node ∘ snd <$> ms));
             cache := tc |},
          true).
Proof.
  intros Hdepth ms.
  induction ms as [|m ms IH]; intros name b root kids rest F E V.
  - simpl. rewrite app_nil_r. do 3 f_equal.
    unfold advance. destruct b. simpl in *. subst. f_equal. lia.
  - apply Forall_cons in V as [[Hl Hs] V].
    destruct (leaf_code_facts _ Hl) as (_ & _ & Kb & Kn).
    rewrite member_bytes_cons in *. rewrite <- !app_assoc in E.
    cbn [length members]. cbn [descs cache].
    rewrite (from_wire_string_at name b m.1 _ F Hs E).
    set (ls := length (Spec.string_bytes (be b) m.1)).
    assert (E1 : drop (pos (advance ls b)) (data (advance ls b))
                 = byte_of_N m.2
                   :: (mjoin (Spec.member_bytes (be b) <$> ms) ++ rest))
      by (by apply (drop_advance ls b (Spec.string_bytes (be b) m.1))).
    rewrite (decode_leaf (advance ls b) _ depth (byte_of_N m.2) _
               eq_refl Hdepth E1) by (by rewrite Kb).
    rewrite Kb. cbn [mbind Res_bind descs cache good faulted advance negb].
    rewrite advance_advance.
    rewrite bool_decide_eq_false_2
      by (rewrite !length_app; simpl; lia).
    cbn [orb].
    rewrite <- (app_assoc D), <- app_comm_cons.
    rewrite (at_index_middle D root).
    cbn [mbind Res_bind].
    assert (A : at_index (D ++ root :: kids ++ [Spec.scalar_node m.2])
                  (length (D ++ root :: kids))
                = Ok (Spec.scalar_node m.2)).
    { unfold at_index.
      replace (D ++ root :: kids ++ [Spec.scalar_node m.2])
        with ((D ++ root :: kids) ++ Spec.scalar_node m.2 :: [])
        by (by rewrite <- app_assoc).
      by rewrite list_lookup_middle. }
    rewrite A. cbn [mbind Res_bind].
    assert (Cp : bool_decide (c = TypeCode.Struct)
                 && bool_decide (c = code (Spec.scalar_node m.2)) = false).
    { case_bool_decide as C1; [|done]. simpl.
      apply bool_decide_eq_false_2. simpl. congruence. }
    rewrite Cp. rewrite insert_middle.
    assert (X : length (D ++ root :: kids) - length D = S (length kids))
      by (rewrite length_app; simpl; lia).
    rewrite X.
    assert (E2 : drop (pos (advance (ls + 1) b)) (data (advance (ls + 1) b))
                 = mjoin (Spec.member_bytes (be b) <$> ms) ++ rest).
    { rewrite <- advance_advance.
      by apply (drop_advance 1 (advance ls b) [byte_of_N m.2]). }
    rewrite (IH _ (advance (ls + 1) b) _ (kids ++ [Spec.scalar_node m.2])
               rest eq_refl E2 V).
    rewrite advance_advance, !length_app. cbn [length be advance].
    fold ls.
    replace (S (length kids + 1)) with (S (S (length kids))) by lia.
    rewrite <- (app_assoc kids). reflexivity.
Qed.

(** Room for a number of members below the null sentinel is granted. *)
Lemma reserve_ok (n : N) : (n < size_null)%N → reserve n = Ok ().
Proof.
  intros L. unfold reserve, max_size.
  destruct (N.ltb_spec (size_null - 1) n); [lia|done].
Qed.

(** The decoder on the type stream of a Struct or Union whose members have
    single-node descriptions. *)
Lemma from_wire_flat (b : Buffer) (ctxt : TypeDeserContext) (depth : nat)
    (c : N) (ident : string) (ms : list (string * N)) (rest : list byte) :
  faulted b = false → depth < 20 →
  c ∈ [TypeCode.Struct; TypeCode.Union] →
  (N.of_nat (length (list_byte_of_string ident)) < size_null)%N →
  (N.of_nat (length ms) < size_null)%N →
  Forall (λ m : string * N,
            m.2 ∈ Spec.leaf_codes
            ∧ (N.of_nat (length (list_byte_of_string m.1)) < size_null)%N)
         ms →
  drop (pos b) (data b) = Spec.flat_bytes (be b) c ident ms ++ rest →
  from_wire b ctxt depth
  = Ok (advance (length (Spec.flat_bytes (be b) c ident ms)) b,
        {| descs := descs ctxt
                    ++ Spec.flat_root c ident ms
                       :: (Spec.scalar_node ∘ snd <$> ms);
           cache := cache ctxt |}).
Proof.
  intros F Hdepth Hc Hi Hk V E.
  unfold Spec.flat_bytes in *. rewrite <- !app_assoc in E.
  assert (K : Byte.to_N (byte_of_N c) = c
              ∧ bool_decide (c = TypeCode.Null) = false
              ∧ bool_decide (c = 253%N) = false
              ∧ bool_decide (c = 254%N) = false
              ∧ (N.land c 16 =? 0)%N = true
              ∧ bool_decide (c = TypeCode.StructA ∨ c = TypeCode.UnionA) = false
              ∧ bool_decide (c = TypeCode.Struct ∨ c = TypeCode.Union) = true).
  { rewrite !elem_of_cons, elem_of_nil in Hc.
    destruct Hc as [->|[->|[]]]; by vm_compute. }
  destruct K as (K0 & K1 & K2 & K3 & K4 & K5 & K6).
  rewrite from_wire_unfold by lia. unfold from_wire_body, good.
  rewrite F. simpl negb. cbv iota.
  rewrite (from_wire_byte_at _ b (byte_of_N c) _ F E).
  rewrite K0, K1, K2, K3, K4, K5, K6, andb_false_r.
  assert (E1 : drop (pos (advance 1 b)) (data (advance 1 b))
               = Spec.string_bytes (be b) ident
                 ++ Spec.Size_bytes (be b) (N.of_nat (length ms))
                 ++ mjoin (Spec.member_bytes (be b) <$> ms) ++ rest)
    by (by apply (drop_advance 1 b [byte_of_N c])).
  rewrite (from_wire_string_at "" (advance 1 b) ident _ eq_refl Hi E1).
  cbn [be advance].
  set (li := length (Spec.string_bytes (be b) ident)).
  rewrite advance_advance.
  assert (E2 : drop (pos (advance (1 + li) b)) (data (advance (1 + li) b))
               = Spec.Size_bytes (be b) (N.of_nat (length ms))
                 ++ mjoin (Spec.member_bytes (be b) <$> ms) ++ rest).
  { rewrite <- advance_advance.
    by apply (drop_advance li (advance 1 b) (Spec.string_bytes (be b) ident)). }
  rewrite (from_wire_Size_at 0 (advance (1 + li) b) _ _ eq_refl Hk E2).
  cbn [be advance].
  set (lk := length (Spec.Size_bytes (be b) (N.of_nat (length ms)))).
  rewrite advance_advance.
  assert (E3 : drop (pos (advance (1 + li + lk) b))
                 (data (advance (1 + li + lk) b))
               = mjoin (Spec.member_bytes (be b) <$> ms) ++ rest).
  { rewrite <- advance_advance.
    by apply (drop_advance lk (advance (1 + li) b)
                (Spec.Size_bytes (be b) (N.of_nat (length ms)))). }
  rewrite (reserve_ok _ Hk).
  cbn [descs cache mbind Res_bind].
  rewrite (at_index_middle (descs ctxt) _ []). cbn [mbind Res_bind].
  rewrite insert_middle, Nat2N.id.
  rewrite (members_flat c (depth + 1) (descs ctxt) (cache ctxt) ltac:(lia)
             ms "" (advance (1 + li + lk) b) _ [] rest eq_refl E3 V).
  cbn [mbind Res_bind descs cache length app be advance].
  rewrite (at_index_middle (descs ctxt)). cbn [mbind Res_bind].
  rewrite insert_middle, advance_advance.
  rewrite !length_app. cbn [length]. rewrite length_fmap.
  replace (length (descs ctxt) + S (length ms) - length (descs ctxt))
    with (S (length ms)) by lia.
  fold li lk. f_equal. f_equal. f_equal. lia.
Qed.

(** What the decoded node of the Struct or Union holds. *)
Lemma add_members_fields (ms : list (string * N)) :
  ∀ fld i,
    id (Spec.add_members fld i ms) = id fld
    ∧ code (Spec.add_members fld i ms) = code fld
    ∧ miter (Spec.add_members fld i ms)
      = miter fld ++ zip (ms.*1) (seq i (length ms)).
Proof.
  induction ms as [|m ms IH]; intros fld i; simpl.
  - by rewrite app_nil_r.
  - destruct (IH (set_mlookup (<[m.1 := i]> (mlookup fld))
                    (set_miter (miter fld ++ [(m.1, i)])
                       (set_hash (N.lxor (hash fld)
                                    (N.lxor (std_hash m.1) m.2)) fld)))
                (S i)) as (-> & -> & ->).
    simpl. by rewrite <- app_assoc.
Qed.

Lemma add_members_mlookup_other (ms : list (string * N)) (name : string) :
  name ∉ ms.*1 →
  ∀ fld i, mlookup (Spec.add_members fld i ms) !! name = mlookup fld !! name.
Proof.
  induction ms as [|m ms IH]; intros Hn fld i; [done|].
  rewrite fmap_cons, not_elem_of_cons in Hn. destruct Hn as [N1 N2].
  cbn [Spec.add_members]. rewrite IH by done. simpl.
  by rewrite lookup_insert_ne.
Qed.

Lemma add_members_mlookup (ms : list (string * N)) :
  NoDup (ms.*1) →
  ∀ fld i j m,
    ms !! j = Some m →
    mlookup (Spec.add_members fld i ms) !! m.1 = Some (i + j).
Proof.
  induction ms as [|m0 ms IH]; intros ND fld i j m Hj; [done|].
  rewrite fmap_cons in ND. apply NoDup_cons in ND as [N1 N2].
  cbn [Spec.add_members]. destruct j as [|j].
  - injection Hj as ->. rewrite add_members_mlookup_other by done.
    simpl. rewrite lookup_insert_eq. f_equal. lia.
  - simpl in Hj. rewrite (IH N2 _ (S i) j m Hj). f_equal. lia.
Qed.

(** X29. Round trip of the type of a Struct or Union whose members all have
    single-node descriptions (scalars, [Any] and arrays of these), with
    strings and a member count that a [Size] can hold. The encoder writes
    the code, the identifier, the number of members and, for each member,
    its name and its code. The decoder reads exactly these bytes, sets no
    fault, and appends one node for the Struct or Union, with the same code
    and identifier, the names of the members in the same order, and the
    members numbered 1, 2, ... behind it, followed by one node of the same
    code for each member. *)
Theorem flat_type_roundtrip (n : nat) (big : bool) (ds : list FieldDesc)
    (cur : nat) (d : FieldDesc) (ms : list (string * N))
    (ctxt : TypeDeserContext) :
  ds !! cur = Some d →
  code d ∈ [TypeCode.Struct; TypeCode.Union] →
  Forall2 (Spec.member_of ds cur) (miter d) ms →
  (N.of_nat (length (list_byte_of_string (id d))) < size_null)%N →
  (N.of_nat (length ms) < size_null)%N →
  Forall (λ m : string * N,
            (N.of_nat (length (list_byte_of_string m.1)) < size_null)%N) ms →
  let bytes := Spec.flat_bytes big (code d) (id d) ms in
  ∃ root,
    to_wire (S (S n)) (out_buffer big (length bytes)) ds cur
    = Ok {| be := big; data := bytes; pos := length bytes; faulted := false |}
    ∧ from_wire (in_buffer big bytes) ctxt 0
      = Ok (advance (length bytes) (in_buffer big bytes),
            {| descs := descs ctxt ++ root :: (Spec.scalar_node ∘ snd <$> ms);
               cache := cache ctxt |})
    ∧ code root = code d
    ∧ id root = id d
    ∧ miter root = zip (ms.*1) (seq 1 (length ms))
    ∧ num_index root = S (length ms)
    ∧ (NoDup (ms.*1) →
       ∀ j m, ms !! j = Some m → mlookup root !! m.1 = Some (S j)).
Proof.
  intros Hd Hc Hm Hi Hk Hs bytes.
  exists (Spec.flat_root (code d) (id d) ms).
  split; [|split].
  - rewrite (to_wire_flat n (out_buffer big (length bytes)) ds cur d ms
               Hd Hc Hm eq_refl); [|simpl; rewrite length_replicate; done].
    f_equal. apply put_out_buffer.
  - apply (from_wire_flat (in_buffer big bytes) ctxt 0 (code d) (id d) ms []
             eq_refl ltac:(lia) Hc Hi Hk).
    + apply Forall_forall. intros m Hin.
      split; [|by apply (proj1 (Forall_forall _ _) Hs)].
      apply list_elem_of_lookup in Hin as [i Hin].
      destruct (Forall2_lookup_r _ _ _ _ _ Hm Hin) as (mem & _ & _ & L & _).
      done.
    + simpl. by rewrite app_nil_r.
  - unfold Spec.flat_root.
    destruct (add_members_fields ms
                (set_hash (N.lxor (code d) (std_hash (id d)))
                   (set_id (id d)
                      (set_hash (code d) (set_code (code d) FieldDesc_new))))
                1) as (A & B & C).
    simpl. rewrite A, B, C. repeat split; try done.
    intros ND j m Hj. by apply (add_members_mlookup ms ND _ 1 j m).
Qed.

End FlatTypeFacts.

(** ** Evaluations of the further properties on concrete inputs *)
Section CodecEvaluations.
Import Wire Data ValueCodec DeltaCodec.
#[local] Existing Instance Sample.debug.
#[local] Existing Instance Sample.string_hash.
#[local] Existing Instance Sample.impl.
#[local] Existing Instance Sample.mask_wire.

(** The value -5 in an [Int8]. *)
Lemma roundtrip_signed_scalar_witness :
  ∃ b, to_wire_full 1 (out_buffer true 1)
         (Examples.single TypeCode.Int8 (Store_Integer (-5))) = Ok b
       ∧ faulted b = false
       ∧ from_wire_full 1 (in_buffer true (data b)) ∅
           (Examples.single TypeCode.Int8 (Store_Integer 0))
         = Ok (advance 1 (in_buffer true (data b)), ∅,
               Examples.single TypeCode.Int8 (Store_Integer (-5))).
Proof.
  apply (roundtrip_signed_scalar true 1 TypeCode.Int8 (-5)).
  - apply (list_elem_of_lookup_2 _ 0). reflexivity.
  - simpl. lia.
Defined.

(** The value 200 in a [UInt8]: it is read back as [2^64 - 56]. *)
Lemma roundtrip_unsigned_scalar_witness :
  ∃ b, to_wire_full 1 (out_buffer true 1)
         (Examples.single TypeCode.UInt8 (Store_UInteger 200)) = Ok b
       ∧ faulted b = false
       ∧ from_wire_full 1 (in_buffer true (data b)) ∅
           (Examples.single TypeCode.UInt8 (Store_UInteger 0))
         = Ok (advance 1 (in_buffer true (data b)), ∅,
               Examples.single TypeCode.UInt8
                 (Store_UInteger (200 + 2 ^ 64 - 256)%N)).
Proof.
  apply (roundtrip_unsigned_scalar true 1 TypeCode.UInt8 200).
  - apply (list_elem_of_lookup_2 _ 0). reflexivity.
  - simpl. lia.
Defined.

(** An [Int32A] cell, decoded from a length and one element. *)
Lemma numeric_array_decode_faults_witness :
  from_wire_field 1 (in_buffer true [x01; x00; x00; x00; x07]) ∅
    [Examples.leaf TypeCode.Int32A] 0
    (mkTop [0] [Store_Array Array_empty]) 0
  = Ok (fault (in_buffer true [x01; x00; x00; x00; x07]), ∅,
        mkTop [0] [Store_Array Array_empty]).
Proof.
  apply (numeric_array_decode_faults 0 _ ∅ [Examples.leaf TypeCode.Int32A] 0
           (mkTop [0] [Store_Array Array_empty]) 0
           (Examples.leaf TypeCode.Int32A) Array_empty eq_refl eq_refl).
  apply (list_elem_of_lookup_2 _ 2). reflexivity.
Defined.

(** An Integer cell under the code [String]. *)
Lemma category_mismatch_witness :
  from_wire_field 1 (in_buffer true [x00]) ∅ [Examples.leaf TypeCode.String] 0
    (mkTop [0] [Store_Integer 5]) 0
  = Ok (fault (in_buffer true [x00]), ∅, mkTop [0] [Store_Integer 5])
  ∧ to_wire_field 1 (in_buffer true [x00]) [Examples.leaf TypeCode.String] 0
      (mkTop [0] [Store_Integer 5]) 0
    = Err AssertFailed.
Proof.
  exact (category_mismatch 0 (in_buffer true [x00]) ∅
           [Examples.leaf TypeCode.String] 0 (mkTop [0] [Store_Integer 5]) 0
           (Examples.leaf TypeCode.String) (Store_Integer 5)
           eq_refl eq_refl eq_refl eq_refl).
Defined.

(** The member [b] of [struct { int32 a; int32 b; }] is decoded; the cell of
    [a] keeps 99. *)
Lemma from_wire_field_frame_witness :
  members (Examples.pair_top 99 7) !! 1 = members (Examples.pair_top 99 0) !! 1.
Proof.
  destruct (from_wire_field_frame 1 (in_buffer true [x00; x00; x00; x07]) ∅
              Examples.pair_descs 2 (Examples.pair_top 99 0) 2
              (advance 4 (in_buffer true [x00; x00; x00; x07])) ∅
              (Examples.pair_top 99 7) eq_refl) as (_ & _ & K).
  apply K; [discriminate|lia].
Defined.

(** An [Int32] cell that holds 99, decoded from a buffer whose fault flag
    is set. *)
Lemma decode_faulted_scalar_witness :
  from_wire_field 1 (fault (in_buffer true [])) ∅
    [Examples.leaf TypeCode.Int32] 0 (mkTop [0] [Store_Integer 99]) 0
  = Ok (fault (in_buffer true []), ∅, mkTop [0] [Store_Integer 0]).
Proof.
  apply (decode_faulted_scalar 0 (fault (in_buffer true [])) ∅
           [Examples.leaf TypeCode.Int32] 0 (mkTop [0] [Store_Integer 99]) 0
           (Examples.leaf TypeCode.Int32) (Store_Integer 99)
           eq_refl eq_refl eq_refl).
  apply (list_elem_of_lookup_2 _ 2). reflexivity.
Defined.

(** An array of three [union { int32 a; }]: the first element holds the
    member 1, the second is announced by the presence byte 2 and holds the
    member 7, the third is absent. *)
Lemma presence_byte_unchecked_witness :
  from_wire_field 3
    (in_buffer true [x03; x01; x00; x00; x00; x00; x01;
                     x02; x00; x00; x00; x00; x07; x00]) ∅
    Examples.union_descs 0 (mkTop [0] [Store_Array Array_empty]) 0
  = Ok (advance 14 (in_buffer true [x03; x01; x00; x00; x00; x00; x01;
                                    x02; x00; x00; x00; x00; x07; x00]), ∅,
        mkTop [0] [Store_Array
                     (Array_Value [Examples.union_member 1;
                                   Examples.union_member 7; Value_null])]).
Proof.
  set (buf := in_buffer true [x03; x01; x00; x00; x00; x00; x01;
                              x02; x00; x00; x00; x00; x07; x00]).
  assert (C : TypeCode.UnionA
              ∈ [TypeCode.StructA; TypeCode.UnionA; TypeCode.AnyA])
    by (apply (list_elem_of_lookup_2 _ 1); reflexivity).
  assert (Pre : elems_loop (unionA_elem (from_wire_full 2)
                              Examples.union_descs 0) 1 (advance 1 buf) ∅
                = Ok (advance 7 buf, ∅, Some [Examples.union_member 1]))
    by (vm_compute; reflexivity).
  destruct (presence_byte_unchecked 2 1 1 buf ∅
              Examples.union_descs 0 (mkTop [0] [Store_Array Array_empty]) 0
              {| id := ""; mlookup := ∅; miter := []; hash := 0;
                 offset := 0; next_offset := 3; num_index := 3;
                 code := TypeCode.UnionA |}
              Array_empty (advance 1 buf) 3 (advance 7 buf) ∅
              [Examples.union_member 1] x02 [x00; x00; x00; x00; x07; x00]
              eq_refl eq_refl C eq_refl eq_refl eq_refl Pre eq_refl eq_refl
              ltac:(discriminate))
    as [_ W].
  rewrite W. vm_compute. reflexivity.
Defined.

(** An [AnyA] of announced length 5, and one whose length is the null
    sentinel, with nothing behind the length. *)
Lemma truncated_compound_array_witness :
  from_wire_field 1 (in_buffer true [x05]) ∅ [Examples.leaf TypeCode.AnyA] 0
    (mkTop [0] [Store_Array Array_empty]) 0
  = Ok (fault (advance 1 (in_buffer true [x05])), ∅,
        mkTop [0] [Store_Array (Array_Value (replicate 5 Value_null))])
  ∧ from_wire_field 1 (in_buffer true [xff]) ∅ [Examples.leaf TypeCode.AnyA] 0
      (mkTop [0] [Store_Array Array_empty]) 0
    = Err BadAlloc.
Proof.
  assert (C : code (Examples.leaf TypeCode.AnyA)
              ∈ [TypeCode.StructA; TypeCode.UnionA; TypeCode.AnyA])
    by (apply (list_elem_of_lookup_2 _ 2); reflexivity).
  split.
  - apply (truncated_compound_array 0 (in_buffer true [x05]) ∅
             [Examples.leaf TypeCode.AnyA] 0
             (mkTop [0] [Store_Array Array_empty]) 0
             (Examples.leaf TypeCode.AnyA) Array_empty
             (advance 1 (in_buffer true [x05])) 5 eq_refl eq_refl C);
      [reflexivity|reflexivity|simpl; lia|left; reflexivity].
  - apply (truncated_compound_array 0 (in_buffer true [xff]) ∅
             [Examples.leaf TypeCode.AnyA] 0
             (mkTop [0] [Store_Array Array_empty]) 0
             (Examples.leaf TypeCode.AnyA) Array_empty
             (advance 1 (in_buffer true [xff])) size_null eq_refl eq_refl C);
      [reflexivity|reflexivity|simpl; lia|right; reflexivity].
Defined.

(** The selector 0 of [union { int32 a; }] and the member 7. *)
Lemma union_decode_selector_witness :
  from_wire_field 2 (in_buffer true [x00; x00; x00; x00; x07]) ∅
    Examples.union_descs 1 (Examples.union_top Value_null) 0
  = Ok (advance 5 (in_buffer true [x00; x00; x00; x00; x07]), ∅,
        Examples.union_top (Examples.union_member 7)).
Proof.
  rewrite (union_decode_selector 1 (in_buffer true [x00; x00; x00; x00; x07]) ∅
             Examples.union_descs 1 (Examples.union_top Value_null) 0
             {| id := ""; mlookup := {[ "a" := 1 ]}; miter := [("a", 1)];
                hash := 0; offset := 1; next_offset := 3; num_index := 2;
                code := TypeCode.Union |}
             Value_null x00 [x00; x00; x00; x07]
             eq_refl eq_refl eq_refl eq_refl eq_refl ltac:(discriminate)).
  reflexivity.
Defined.


(** A null [Any]. *)
Lemma null_compound_roundtrip_witness :
  to_wire_full 1 (out_buffer true 1)
    (Examples.single TypeCode.Any (Store_Compound Value_null))
  = Ok {| be := true; data := [xff]; pos := 1; faulted := false |}
  ∧ from_wire_full 1 (in_buffer true [xff]) ∅
      (Examples.single TypeCode.Any (Store_Compound (Examples.union_member 7)))
    = Ok (advance 1 (in_buffer true [xff]), ∅,
          Examples.single TypeCode.Any (Store_Compound Value_null)).
Proof.
  apply (null_compound_roundtrip 0 true TypeCode.Any (Examples.union_member 7) ∅).
  apply (list_elem_of_lookup_2 _ 1). reflexivity.
Defined.

(** Section 9 of the specification: [struct { int32 a; int32 b; }] with
    only [b] marked, decoded into a Value that holds [a = 99]: the mask is
    the byte 4, [b] becomes 7 and [a] stays 99. *)
Lemma from_wire_valid_frame_witness :
  ∃ t, Examples.pair_value 99 7 = Value_ref Examples.pair_descs 0 t 0
       ∧ length [false; false; true] = length (members (Examples.pair_top 99 0))
       ∧ member_indicies t = member_indicies (Examples.pair_top 99 0)
       ∧ length (members t) = length (members (Examples.pair_top 99 0))
       ∧ ∀ j, (∀ i, j = 0 + i → [false; false; true] !! i ≠ Some true) →
              members t !! j = members (Examples.pair_top 99 0) !! j.
Proof.
  assert (E : from_wire_valid 1
                (in_buffer true [x01; x04; x00; x00; x00; x07]) ∅
                (Value_ref Examples.pair_descs 0 (Examples.pair_top 99 0) 0) []
              = Ok (advance 6 (in_buffer true [x01; x04; x00; x00; x00; x07]),
                    ∅, Examples.pair_value 99 7, [false; false; true]))
    by (vm_compute; reflexivity).
  assert (N : ∀ i, [false; false; true] !! i = Some true →
                   members (Examples.pair_top 99 0) !! (0 + i)
                   ≠ Some Store_Null).
  { intros [|[|[|i]]] Hi; simpl in Hi; discriminate. }
  exact (from_wire_valid_frame 1 _ _ _ _ _ _ _ _ _ _ _ E N).
Defined.

(** An [Any] cell decoded from the byte [0xFF]. *)
Lemma any_field_is_type_value_witness :
  from_wire_field 1 (in_buffer true [xff]) ∅ [Examples.leaf TypeCode.Any] 0
    (mkTop [0] [Store_Compound Value_null]) 0
  = '(b, c, v') ← from_wire_type_value 0 (in_buffer true [xff]) ∅ Value_null;
    Ok (b, c, set_cell (mkTop [0] [Store_Compound Value_null]) 0
                (Store_Compound v')).
Proof.
  exact (any_field_is_type_value 0 (in_buffer true [xff]) ∅
           [Examples.leaf TypeCode.Any] 0
           (mkTop [0] [Store_Compound Value_null]) 0
           (Examples.leaf TypeCode.Any) Value_null eq_refl eq_refl eq_refl).
Defined.

(** An [Any] that holds the [Int32] -2. *)
Lemma any_roundtrip_signed_witness :
  ∃ b, to_wire_full 2 (out_buffer true 5)
         (Examples.single TypeCode.Any
            (Store_Compound (Examples.single TypeCode.Int32 (Store_Integer (-2)))))
       = Ok b
       ∧ faulted b = false
       ∧ from_wire_type_value 1 (in_buffer true (data b)) ∅ Value_null
         = Ok (advance 5 (in_buffer true (data b)), ∅,
               Examples.single TypeCode.Int32 (Store_Integer (-2))).
Proof.
  apply (any_roundtrip_signed true 4 TypeCode.Int32 (-2) Value_null).
  - apply (list_elem_of_lookup_2 _ 2). reflexivity.
  - simpl. lia.
Defined.

(** The type [struct { int32 a; int32 b; }]. *)
Lemma flat_type_roundtrip_witness :
  ∃ root,
    TypeCodec.to_wire 2 (out_buffer true 9) Examples.pair_descs 0
    = Ok {| be := true;
            data := [x80; x00; x02; x01; "a"; x22; x01; "b"; x22]%byte;
            pos := 9; faulted := false |}
    ∧ TypeCodec.from_wire
        (in_buffer true [x80; x00; x02; x01; "a"; x22; x01; "b"; x22]%byte)
        {| TypeCodec.descs := []; TypeCodec.cache := ∅ |} 0
      = Ok (advance 9
              (in_buffer true [x80; x00; x02; x01; "a"; x22; x01; "b"; x22]%byte),
            {| TypeCodec.descs :=
                 [root; Spec.scalar_node TypeCode.Int32;
                  Spec.scalar_node TypeCode.Int32];
               TypeCodec.cache := ∅ |})
    ∧ code root = TypeCode.Struct
    ∧ id root = ""
    ∧ miter root = [("a", 1); ("b", 2)]
    ∧ num_index root = 3
    ∧ (NoDup ["a"; "b"] →
       ∀ j m, [("a", TypeCode.Int32); ("b", TypeCode.Int32)] !! j = Some m →
              mlookup root !! m.1 = Some (S j)).
Proof.
  apply (flat_type_roundtrip 0 true Examples.pair_descs 0
           {| id := ""; mlookup := {[ "a" := 1; "b" := 2 ]};
              miter := [("a", 1); ("b", 2)]; hash := 0;
              offset := 0; next_offset := 3; num_index := 3;
              code := TypeCode.Struct |}
           [("a", TypeCode.Int32); ("b", TypeCode.Int32)]
           {| TypeCodec.descs := []; TypeCodec.cache := ∅ |} eq_refl).
  - apply (list_elem_of_lookup_2 _ 0). reflexivity.
  - repeat constructor; simpl;
      try (apply (list_elem_of_lookup_2 _ 3); reflexivity);
      eexists; split; reflexivity.
  - vm_compute. reflexivity.
  - vm_compute. reflexivity.
  - repeat constructor; vm_compute; reflexivity.
Defined.

End CodecEvaluations.

Section ServerEvaluations.
Import Server.
#[local] Existing Instance Sample.debug.
#[local] Existing Instance Sample.platform.


(** The environment of [env_valid], where [EPICS_PVA_SERVER_PORT] does not
    hold a number: both ports are the defaults. *)
Lemma from_env_ports_witness :
  tcp_port (set_interfaces ["10.0.0.1"; "10.0.0.2"] Sample.default_config)
  = 5075%N
  ∧ udp_port (set_interfaces ["10.0.0.1"; "10.0.0.2"] Sample.default_config)
    = 5076%N
  ∧ guid (set_interfaces ["10.0.0.1"; "10.0.0.2"] Sample.default_config)
    = guid Sample.default_config.
Proof.
  exact (from_env_ports Examples.env_valid 3 _ _ from_env_valid).
Defined.

(** The beacons of a server with one destination. *)
Lemma doBeacons_keeps_witness :
  ∃ pvt' sent,
    Pvt_doBeacons Examples.small_server = Ok (pvt', sent)
    ∧ length (beaconMsg pvt') = 64
    ∧ length (searchReply pvt') = 64
    ∧ sent.*1 = ["10.0.0.255"].
Proof.
  destruct (Pvt_doBeacons Examples.small_server) as [[pvt' sent]|e] eqn:E;
    [|vm_compute in E; discriminate].
  exists pvt', sent. split; [reflexivity|].
  destruct (doBeacons_keeps Examples.small_server pvt' sent E)
    as (A & B & _ & _ & _ & C).
  rewrite A, B, C. split; [reflexivity|split; reflexivity].
Defined.

End ServerEvaluations.

(** ** The "valid" form of the encoder *)
Section ValidEncodeFacts.
Import Wire Data ValueCodec DeltaCodec.
Context `{BM : BuildMode} `{SH : StdHash} `{VI : ValueImpl} `{BW : BitMaskWire}.

(** No bit is set between [start] and [findSet m start]. *)
Lemma findSet_skip (m : BitMask) (start j : nat) :
  start ≤ j → j < findSet m start → m !! j ≠ Some true.
Proof.
  revert start j. induction m as [|b m IH]; intros start j L1 L2; [done|].
  simpl in L2. destruct start as [|start].
  - destruct b; [lia|]. destruct j as [|j]; [done|].
    simpl. apply (IH 0); lia.
  - destruct j as [|j]; [lia|]. simpl. apply (IH start); lia.
Qed.

Lemma foldl_Err {A B : Type} (f : A → B → Res A) (e : Error) (l : list B) :
  foldl (λ acc x, a ← acc; f a x) (Err e) l = Err e.
Proof. induction l as [|x l IH]; [done|]. simpl. apply IH. Qed.

Lemma filter_seq_none (P : nat → Prop) `{∀ x, Decision (P x)} (start n : nat) :
  (∀ j, start ≤ j < start + n → ¬ P j) → filter P (seq start n) = [].
Proof.
  revert start. induction n as [|n IH]; intros start K; [done|].
  simpl. rewrite filter_cons_False by (apply K; lia).
  apply IH. intros j Hj. apply K. lia.
Qed.

(** The marked bits of a range, from the first of them on. *)
Lemma filter_seq_first (P : nat → Prop) `{∀ x, Decision (P x)}
    (start bit next : nat) :
  start ≤ bit < next → P bit → (∀ j, start ≤ j < bit → ¬ P j) →
  filter P (seq start (next - start))
  = bit :: filter P (seq (bit + 1) (next - (bit + 1))).
Proof.
  intros L Pb K.
  replace (next - start) with ((bit - start) + S (next - (bit + 1))) by lia.
  rewrite seq_app, filter_app.
  rewrite filter_seq_none by (intros j Hj; apply K; lia).
  replace (start + (bit - start)) with bit by lia.
  simpl. rewrite filter_cons_True by done.
  by replace (S bit) with (bit + 1) by lia.
Qed.

(** The loop over the marked cells is the iteration of its body over the
    bits that are set in the range, in increasing order. *)
Lemma marked_loop_filter {A : Type} (body : nat → A → Res A)
    (valid : BitMask) (next : nat) :
  next ≤ length valid →
  ∀ k start acc,
    start ≤ next → next - start ≤ k →
    marked_loop k body valid next (findSet valid start) acc
    = foldl (λ acc bit, a ← acc; body bit a) (Ok acc)
        (filter (λ bit, valid !! bit = Some true)
           (seq start (next - start))).
Proof.
  intros Ln. induction k as [|k IH]; intros start acc L1 L2.
  - replace (next - start) with 0 by lia. simpl.
    rewrite bool_decide_eq_false_2; [done|].
    pose proof (findSet_ge valid start ltac:(lia)). lia.
  - pose proof (findSet_ge valid start ltac:(lia)) as G.
    simpl. case_bool_decide as Hb.
    + rewrite (filter_seq_first _ start (findSet valid start) next);
        [|lia|apply findSet_set; lia
         |intros j Hj; apply (findSet_skip valid start); lia].
      cbn [foldl mbind Res_bind].
      destruct (body (findSet valid start) acc) as [acc'|e].
      * cbn [mbind Res_bind]. apply IH; lia.
      * cbn [mbind Res_bind]. by rewrite foldl_Err.
    + rewrite filter_seq_none; [done|].
      intros j Hj. apply (findSet_skip valid start); lia.
Qed.

(** X30. The "valid" form of the encoder, for a Value whose range of cells
    lies within its storage. [to_wire_valid] writes the mask and then the
    cells of the range whose bit is set in the mask (cut or filled to the
    number of cells), each as a field of its own, by increasing position,
    and nothing for the other cells. *)
Theorem to_wire_valid_marked (fuel : nat) (buf : Buffer)
    (ds : list FieldDesc) (dpos : nat) (top : StructTop) (spos : nat)
    (valid : BitMask) (desc : FieldDesc) :
  ds !! dpos = Some desc →
  offset desc ≤ next_offset desc ≤ length (members top) →
  let valid' := resize (length (members top)) valid in
  to_wire_valid fuel buf (Value_ref ds dpos top spos) valid
  = buf ← foldl (λ acc bit,
                   buf ← acc;
                   idx ← at_index (member_indicies top) bit;
                   to_wire_field fuel buf ds (dpos + idx) top (spos + bit))
                (Ok (to_wire_BitMask valid buf))
                (filter (λ bit, valid' !! bit = Some true)
                   (seq (offset desc) (next_offset desc - offset desc)));
    Ok (buf, valid').
Proof.
  intros Hd L valid'. unfold to_wire_valid, at_index. rewrite Hd.
  cbn [mbind Res_bind]. fold valid'.
  rewrite (marked_loop_filter _ valid' (next_offset desc));
    [done|unfold valid'; rewrite length_resize; lia|lia|lia].
Qed.

End ValidEncodeFacts.

Section ValidEncodeEvaluations.
Import Wire Data ValueCodec DeltaCodec.
#[local] Existing Instance Sample.debug.
#[local] Existing Instance Sample.string_hash.
#[local] Existing Instance Sample.impl.
#[local] Existing Instance Sample.mask_wire.

(** Section 9 of the specification: [struct { int32 a; int32 b; }] with
    [b = 7] and only [b] marked is the mask byte 4 and the four bytes of
    7. *)
Lemma to_wire_valid_marked_witness :
  to_wire_valid 1 (out_buffer true 6) (Examples.pair_value 99 7)
    [false; false; true]
  = Ok ({| be := true; data := [x01; x04; x00; x00; x00; x07]; pos := 6;
           faulted := false |}, [false; false; true]).
Proof.
  rewrite (to_wire_valid_marked 1 (out_buffer true 6) Examples.pair_descs 0
             (Examples.pair_top 99 7) 0 [false; false; true]
             {| id := ""; mlookup := {[ "a" := 1; "b" := 2 ]};
                miter := [("a", 1); ("b", 2)]; hash := 0;
                offset := 0; next_offset := 3; num_index := 3;
                code := TypeCode.Struct |} eq_refl);
    [reflexivity|simpl; lia].
Defined.

End ValidEncodeEvaluations.
